(** * E and C indices of Takahashi et al. (2011): a model of the notebook's
      analysis cell ([compute_alpha], [correction_factor], [compute_index])

    The notebook [demos/takahashi2011_ECindex.ipynb] computes the E and C
    indices from a sea-surface-temperature anomaly field: an EOF
    decomposition over a base period, a projection of the whole series on
    the two leading patterns, a scaling and a sign correction, a rotation by
    45 degrees, and a quadratic fit on the December-January-February means.

    Numbers are modelled as extended reals with a not-a-number value
    ([float64]): rounding is left out, division by zero, infinities and NaN
    are kept, since the code relies on them ([dropna], [mean > 0]).  The two
    numerical kernels the notebook calls and does not contain (the EOF
    decomposition of [xeofs] and the least-squares solver behind
    [numpy.polynomial.polynomial.polyfit]) are the two methods of the class
    [Backend].

    Further on come the cells around that function (the anomalies it is run
    on and the regression patterns drawn from its indices) and the notebook
    that reads dataset ids off the ESGF catalogue and requests the tropical
    Pacific of each from the subsetting service ([keep_ds_id],
    [get_pacific_ocean]). *)

From Stdlib Require Import Reals Lra Lia ZArith QArith List Bool Sorted.
From Stdlib Require Ascii String.
Import ListNotations.

(** ** Numbers *)

Module Float.

Local Open Scope R_scope.

Inductive float64 : Type :=
| Fin (r : R)
| PInf
| NInf
| NaN.

Definition inf_of (positive : bool) : float64 :=
  if positive then PInf else NInf.

(** [r * (+-inf)]: NaN for zero, else infinite with the product's sign. *)
Definition scale_inf (r : R) (positive : bool) : float64 :=
  if Req_dec_T r 0 then NaN
  else if Rlt_dec 0 r then inf_of positive else inf_of (negb positive).

Definition fopp (x : float64) : float64 :=
  match x with
  | Fin r => Fin (- r)
  | PInf => NInf
  | NInf => PInf
  | NaN => NaN
  end.

Definition fadd (x y : float64) : float64 :=
  match x, y with
  | NaN, _ | _, NaN => NaN
  | Fin a, Fin b => Fin (a + b)
  | PInf, NInf | NInf, PInf => NaN
  | PInf, _ | _, PInf => PInf
  | NInf, _ | _, NInf => NInf
  end.

Definition fsub (x y : float64) : float64 := fadd x (fopp y).

Definition fmul (x y : float64) : float64 :=
  match x, y with
  | NaN, _ | _, NaN => NaN
  | Fin a, Fin b => Fin (a * b)
  | Fin a, PInf | PInf, Fin a => scale_inf a true
  | Fin a, NInf | NInf, Fin a => scale_inf a false
  | PInf, PInf | NInf, NInf => PInf
  | PInf, NInf | NInf, PInf => NInf
  end.

(** Division as numpy does it on arrays: a zero divisor gives an infinity
    (NaN for [0/0]) and a warning, not an exception. *)
Definition fdiv (x y : float64) : float64 :=
  match x, y with
  | NaN, _ | _, NaN => NaN
  | Fin a, Fin b => if Req_dec_T b 0 then scale_inf a true else Fin (a / b)
  | Fin _, PInf | Fin _, NInf => Fin 0
  | PInf, Fin b => if Rlt_dec b 0 then NInf else PInf
  | NInf, Fin b => if Rlt_dec b 0 then PInf else NInf
  | PInf, PInf | PInf, NInf | NInf, PInf | NInf, NInf => NaN
  end.

Definition fsqrt (x : float64) : float64 :=
  match x with
  | Fin r => if Rlt_dec r 0 then NaN else Fin (sqrt r)
  | PInf => PInf
  | NInf | NaN => NaN
  end.

(** [x > y]; every comparison with NaN is false. *)
Definition fgt (x y : float64) : bool :=
  match x, y with
  | NaN, _ | _, NaN => false
  | Fin a, Fin b => if Rlt_dec b a then true else false
  | PInf, PInf => false
  | PInf, _ => true
  | Fin _, NInf => true
  | _, _ => false
  end.

Definition isnan (x : float64) : bool :=
  match x with NaN => true | _ => false end.

Definition notnan (x : float64) : bool := negb (isnan x).

Definition isfinite (x : float64) : bool :=
  match x with Fin _ => true | _ => false end.

Definition fsum (l : list float64) : float64 := fold_right fadd (Fin 0) l.

(** [mean] of xarray on floating-point data: [skipna] is on by default, the
    NaN entries are left out of the sum and of the count, and a mean over
    nothing is NaN. *)
Definition nanmean (l : list float64) : float64 :=
  match filter notnan l with
  | [] => NaN
  | v => fdiv (fsum v) (Fin (INR (length v)))
  end.

(** Python's [2 ** (1 / 2)]. *)
Definition two_pow_half : float64 := Fin (Rpower 2 (1 / 2)).

End Float.

(** ** Time stamps *)

Module Calendar.

Local Open Scope Z_scope.

(** A time stamp of the monthly axis, to the day. *)
Record date : Type := mkdate { year : Z; month : Z; day : Z }.

Definition date_eqb (a b : date) : bool :=
  (year a =? year b) && (month a =? month b) && (day a =? day b).

Definition date_ltb (a b : date) : bool :=
  (year a <? year b)
  || ((year a =? year b)
      && ((month a <? month b) || ((month a =? month b) && (day a <? day b)))).

Definition date_leb (a b : date) : bool := negb (date_ltb b a).

(** Months counted from year 0. *)
Definition month_index (d : date) : Z := 12 * year d + (month d - 1).

Definition of_month_index (i : Z) : date := mkdate (i / 12) (i mod 12 + 1) 1.

(** [time.dt.month.isin([12, 1, 2])] *)
Definition is_djf (d : date) : bool :=
  existsb (Z.eqb (month d)) [12; 1; 2].

(** The bin of pandas' ["QS-DEC"] frequency a time stamp falls in, named by
    its first day: quarters start on the first of December, March, June and
    September. *)
Definition quarter_start (d : date) : date :=
  let m := month d in
  if m =? 12 then mkdate (year d) 12 1
  else if m <? 3 then mkdate (year d - 1) 12 1
  else if m <? 6 then mkdate (year d) 3 1
  else if m <? 9 then mkdate (year d) 6 1
  else mkdate (year d) 9 1.

(** The quarter starts from [first] to [last], three months apart. *)
Definition quarter_range (first last : date) : list date :=
  let i0 := month_index first in
  map (fun k => of_month_index (i0 + 3 * Z.of_nat k))
      (seq 0 (Z.to_nat ((month_index last - i0) / 3 + 1))).

Definition is_leap (y : Z) : bool :=
  (y mod 4 =? 0) && (negb (y mod 100 =? 0) || (y mod 400 =? 0)).

(** [x + pd.DateOffset(years=n)]: same month and day, the 29th of February
    falling back on the 28th. *)
Definition add_years (n : Z) (d : date) : date :=
  let y := year d + n in
  if (month d =? 2) && (day d =? 29) && negb (is_leap y)
  then mkdate y 2 28
  else mkdate y (month d) (day d).

(** The first and last instants a partial date string such as ["1980"]
    stands for in a label slice. *)
Definition year_first (y : Z) : date := mkdate y 1 1.
Definition year_last (y : Z) : date := mkdate y 12 31.

(** The year a December-January-February season is named after. *)
Definition january_year (d : date) : Z :=
  if month d =? 12 then year d + 1 else year d.

End Calendar.

(** ** Time series (one-dimensional [DataArray]s over [time]) *)

Module Series.

Import Float Calendar.

Definition series : Type := list (date * float64).

Definition times (s : series) : list date := map fst s.
Definition values (s : series) : list float64 := map snd s.

(** [s.sel(time=mask)] for a boolean mask over the time axis. *)
Definition sel_where (keep : date -> bool) (s : series) : series :=
  filter (fun p => keep (fst p)) s.

Definition date_min (a b : date) : date := if date_leb a b then a else b.
Definition date_max (a b : date) : date := if date_leb a b then b else a.

(** The values whose time stamp falls in the quarter starting at [b]. *)
Definition bin_values (b : date) (s : series) : list float64 :=
  values (sel_where (fun t => date_eqb (quarter_start t) b) s).

(** [s.resample(time="QS-DEC").mean()]: one entry per quarter from the
    quarter of the earliest time stamp to that of the latest, each with the
    mean of its members; a quarter without members is there too, with NaN. *)
Definition resample_QS_DEC_mean (s : series) : series :=
  match times s with
  | [] => []
  | t :: ts =>
      let first := quarter_start (fold_right date_min t ts) in
      let last := quarter_start (fold_right date_max t ts) in
      map (fun b => (b, nanmean (bin_values b s))) (quarter_range first last)
  end.

(** [s.dropna("time")] *)
Definition dropna (s : series) : series :=
  filter (fun p => notnan (snd p)) s.

(** [s.sel(time=slice(str(y), None))] *)
Definition sel_from_year (y : Z) (s : series) : series :=
  sel_where (date_leb (year_first y)) s.

(** [s["time"] = s.indexes["time"].to_series().apply(lambda x: x + pd.DateOffset(years=1))] *)
Definition shift_one_year (s : series) : series :=
  map (fun p => (add_years 1 (fst p), snd p)) s.

(** The December-January-February means of a principal component, as
    [compute_index] prepares them for the fit. *)
Definition djf_means (pc : series) : series :=
  shift_one_year
    (sel_from_year 1980
       (dropna (resample_QS_DEC_mean (sel_where is_djf pc)))).

(** [xr.concat([a, b], dim="mode")]: the two series side by side on the
    union of their time stamps (an outer join), NaN where one has none. *)
Fixpoint insert_date (d : date) (l : list date) : list date :=
  match l with
  | [] => [d]
  | x :: r =>
      if date_eqb d x then l
      else if date_ltb d x then d :: l
      else x :: insert_date d r
  end.

Definition lookup (d : date) (s : series) : float64 :=
  match find (fun p => date_eqb (fst p) d) s with
  | Some p => snd p
  | None => NaN
  end.

Definition concat_mode (a b : series) : list (date * (float64 * float64)) :=
  map (fun d => (d, (lookup d a, lookup d b)))
      (fold_right insert_date [] (times a ++ times b)).

End Series.

(** ** Gridded fields ([DataArray]s over [time], [lat], [lon]) *)

Module Grid.

Import Float Calendar Series.

(** One time step, or one spatial pattern: a row per latitude. *)
Definition grid : Type := list (list float64).

Record field : Type := mkfield {
  time : list date;
  lat : list Q;
  lon : list Q;
  data : list grid              (* one grid per time stamp *)
}.

Record pattern : Type := mkpattern {
  plat : list Q;
  plon : list Q;
  pvalues : grid
}.

(** The shape of the data is that of the axes. *)
Definition wf_grid (nlat nlon : nat) (g : grid) : Prop :=
  length g = nlat /\ Forall (fun row => length row = nlon) g.

Definition wf_field (f : field) : Prop :=
  length (data f) = length (time f)
  /\ Forall (wf_grid (length (lat f)) (length (lon f))) (data f).

(** [slice(lo, hi)] on a coordinate: both ends belong to the slice. *)
Definition in_slice (lo hi : Q) (c : Q) : bool :=
  Qle_bool lo c && Qle_bool c hi.

(** The entries of [xs] whose coordinate is kept.  On an ascending axis (the
    notebook sorts the data by latitude before use) a label slice keeps
    exactly the coordinates of the closed interval. *)
Definition sel_axis {A : Type} (keep : Q -> bool) (coords : list Q)
    (xs : list A) : list A :=
  map snd (filter (fun p => keep (fst p)) (combine coords xs)).

Definition sel_grid (keep_lat keep_lon : Q -> bool) (lats lons : list Q)
    (g : grid) : grid :=
  map (sel_axis keep_lon lons) (sel_axis keep_lat lats g).

(** [f.sel(lat=slice(lat0, lat1), lon=slice(lon0, lon1))] *)
Definition sel_box (lat0 lat1 lon0 lon1 : Q) (f : field) : field :=
  {| time := time f;
     lat := filter (in_slice lat0 lat1) (lat f);
     lon := filter (in_slice lon0 lon1) (lon f);
     data := map (sel_grid (in_slice lat0 lat1) (in_slice lon0 lon1)
                    (lat f) (lon f)) (data f) |}.

Definition sel_box_pattern (lat0 lat1 lon0 lon1 : Q) (p : pattern) : pattern :=
  {| plat := filter (in_slice lat0 lat1) (plat p);
     plon := filter (in_slice lon0 lon1) (plon p);
     pvalues := sel_grid (in_slice lat0 lat1) (in_slice lon0 lon1)
                  (plat p) (plon p) (pvalues p) |}.

Definition in_period (period : date * date) (t : date) : bool :=
  date_leb (fst period) t && date_leb t (snd period).

(** [f.sel(time=slice(start, stop))]: the time steps of the closed period;
    none at all when the period misses the axis (a label slice past the
    ends of an index selects nothing and raises nothing). *)
Definition sel_time (period : date * date) (f : field) : field :=
  let kept := filter (fun p => in_period period (fst p))
                (combine (time f) (data f)) in
  {| time := map fst kept; lat := lat f; lon := lon f; data := map snd kept |}.

(** [p.mean()] over latitude and longitude. *)
Definition pattern_mean (p : pattern) : float64 := nanmean (concat (pvalues p)).

(** The field with every value replaced by its opposite. *)
Definition opp_grid (g : grid) : grid := map (map fopp) g.

Definition opp_pattern (p : pattern) : pattern :=
  {| plat := plat p; plon := plon p; pvalues := opp_grid (pvalues p) |}.

End Grid.

(** ** Results and errors *)

Module Result.

(** The exceptions the computation can end with. *)
Inductive error : Type :=
| TypeError       (* numpy: "expected non-empty vector for x", lengths differ *)
| ValueError      (* numpy: arange over a range that is not finite;
                     xeofs: more modes than the sample has rank *)
| LinAlgError     (* numpy.linalg: the solver did not converge *)
| OtherError (code : nat).

Inductive result (A : Type) : Type :=
| Ok (a : A)
| Err (e : error).

Arguments Ok {A} a.
Arguments Err {A} e.

Definition bind {A B : Type} (r : result A) (k : A -> result B) : result B :=
  match r with
  | Ok a => k a
  | Err e => Err e
  end.

Definition is_err {A : Type} (r : result A) : Prop := exists e, r = Err e.

End Result.

Declare Scope result_scope.
Notation "x <- r ;; k" := (Result.bind r (fun x => k))
  (at level 61, r at next level, right associativity) : result_scope.

(** ** The fitted EOF model ([xeofs.single.EOF]) *)

Module Xeofs.

Import Float Calendar Series Grid Result.

(** The two retained modes ([n_modes=2]; the [mode] coordinate is 1, 2). *)
Inductive mode : Type := mode1 | mode2.

(** What the notebook reads off a fitted model: the spatial patterns
    ([components()]), the explained variances ([explained_variance()]), and
    what [transform] does to a time step before projecting it (the centring
    and the cos-latitude weighting fixed by the fit). *)
Record EOFModel : Type := mkmodel {
  components : mode -> pattern;
  explained_variance : mode -> float64;
  prepare : grid -> grid
}.

(** The inner product of a time step with a pattern over the stacked
    (lat, lon) points; the points the decomposition left out (NaN in the
    pattern) take no part. *)
Definition inner (x p : grid) : float64 :=
  fsum (map (fun xp => fmul (fst xp) (snd xp))
          (filter (fun xp => notnan (snd xp)) (combine (concat x) (concat p)))).

(** [model.transform(f).sel(mode=k)]: the projection of every time step of
    [f] on the pattern of mode [k]. *)
Definition transform (m : EOFModel) (f : field) (k : mode) : series :=
  map (fun tx => (fst tx, inner (prepare m (snd tx)) (pvalues (components m k))))
      (combine (time f) (data f)).

(** The model with the pattern of mode [k] replaced by its opposite: the
    other sign the decomposition could have returned for it. *)
Definition flip_mode (k : mode) (m : EOFModel) : EOFModel :=
  {| components := fun j =>
       match k, j with
       | mode1, mode1 | mode2, mode2 => opp_pattern (components m j)
       | _, _ => components m j
       end;
     explained_variance := explained_variance m;
     prepare := prepare m |}.

End Xeofs.

(** ** The numerical kernels the notebook calls *)

Module Kernels.

Import Float Grid Result Xeofs.

(** The coefficients [c0 + c1 x + c2 x^2] of a fitted parabola, lowest
    degree first as [numpy.polynomial] orders them. *)
Definition coefs : Type := (float64 * float64 * float64)%type.

Class Backend : Type := {
  (** [EOF(n_modes=2, use_coslat=True).fit(sample, dim="time")] *)
  eof_fit : field -> result EOFModel;
  (** [numpy.linalg.lstsq] on the degree-2 Vandermonde matrix of [x]
      against [y], as [polyfit] calls it on vectors it has accepted *)
  lstsq : list float64 -> list float64 -> result coefs
}.

(** xeofs refuses to extract more modes than the sample can carry: with
    fewer time steps than modes the fit raises. *)
Definition fit_needs_two_steps (B : Backend) : Prop :=
  forall sample, (length (time sample) < 2)%nat -> is_err (eof_fit sample).

End Kernels.

(** ** numpy: [polyfit], [arange], [polyval], [min], [max] *)

Module Numpy.

Import Float Result Kernels.

Local Open Scope R_scope.

Section WithBackend.

Context {B : Backend}.

(** [numpy.polynomial.polynomial.polyfit(x, y, deg=2)]: an empty [x] and
    vectors of different lengths are refused with a [TypeError]; anything
    else goes to the least-squares solver, however few the points (a fit of
    deficient rank is reported by a warning, which stops nothing). *)
Definition polyfit (x y : list float64) : result coefs :=
  match x with
  | [] => Err TypeError
  | _ :: _ => if Nat.eqb (length x) (length y) then lstsq x y else Err TypeError
  end.

End WithBackend.

Definition fmin (a b : float64) : float64 := if fgt a b then b else a.
Definition fmax (a b : float64) : float64 := if fgt b a then b else a.

(** [a.min()] and [a.max()], NaN entries left out. *)
Definition nanmin (l : list float64) : float64 :=
  match filter notnan l with
  | [] => NaN
  | x :: r => fold_right fmin x r
  end.

Definition nanmax (l : list float64) : float64 :=
  match filter notnan l with
  | [] => NaN
  | x :: r => fold_right fmax x r
  end.

(** [numpy.arange(start, stop, step)]: [ceil((stop - start) / step)] values
    [start + k * step]; a range whose ends are not finite is refused.  The
    length and the points are those of real arithmetic: numpy computes both
    in binary64, where the length can differ by one and the last point can
    fall short of [stop - step].  What is proved of [compute_alpha] rests on
    the refusal and on the result being there, not on the points. *)
Definition arange (start stop : float64) (step : R) : result (list float64) :=
  match start, stop with
  | Fin a, Fin b =>
      Ok (map (fun k => Fin (a + INR k * step))
            (seq 0 (Z.to_nat (Zceil ((b - a) / step)))))
  | _, _ => Err ValueError
  end.

(** [numpy.polynomial.polynomial.polyval(x, c)] for three coefficients, by
    Horner's rule from the highest degree down. *)
Definition polyval (c : coefs) (x : float64) : float64 :=
  let '(c0, c1, c2) := c in
  let acc := fadd c2 (fmul x (Fin 0)) in
  let acc := fadd c1 (fmul acc x) in
  fadd c0 (fmul acc x).

End Numpy.

(** ** The notebook's functions *)

Module Takahashi.

Import Float Calendar Series Grid Result Xeofs Kernels Numpy.

Local Open Scope R_scope.
Local Open Scope result_scope.

(** What [compute_index] returns: [ecindex] (the data set of [E_index] and
    [C_index]), [pcs], [pcs_djf], [alpha], [xfit], [fit]. *)
Record output : Type := mkoutput {
  E_index : series;
  C_index : series;
  pcs : series * series;
  pcs_djf : list (date * (float64 * float64));
  alpha : float64;
  xfit : list float64;
  fit : list float64
}.

(** [_eofs.sel(mode=k, lat=slice(-5, 5), lon=slice(140, 180)).mean()] *)
Definition sign_box_mean (model : EOFModel) (k : mode) : float64 :=
  let _eofs := components model k in
  pattern_mean (sel_box_pattern (-5 # 1) (5 # 1) (140 # 1) (180 # 1) _eofs).

(** [correction_factor(model)]: the sign of the EOFs is arbitrary; each mode
    gets the factor 1 when the mean of its pattern over 5S-5N, 140E-180E is
    greater than zero, else the factor -1. *)
Definition correction_factor (model : EOFModel) (k : mode) : float64 :=
  if fgt (sign_box_mean model k) (Fin 0) then Fin 1 else Fin (-1).

(** [s * c] for a scalar [c]. *)
Definition scale (c : float64) (s : series) : series :=
  map (fun p => (fst p, fmul (snd p) c)) s.

(** [scale_factor = 1 / np.sqrt(model.explained_variance())] *)
Definition scale_factor (model : EOFModel) (k : mode) : float64 :=
  fdiv (Fin 1) (fsqrt (explained_variance model k)).

(** [pcs = model.transform(tos_anom) * scale_factor * corr_factor], mode by
    mode. *)
Definition principal_components (model : EOFModel) (tos_anom : field)
    (k : mode) : series :=
  scale (correction_factor model k)
    (scale (scale_factor model k) (transform model tos_anom k)).

(** [(a op b) / (2 ** (1 / 2))] on two series over the same time axis. *)
Definition rotate (op : float64 -> float64 -> float64) (a b : series) : series :=
  map (fun ab => (fst (fst ab), fdiv (op (snd (fst ab)) (snd (snd ab))) two_pow_half))
      (combine a b).

Section WithBackend.

Context {B : Backend}.

(** [compute_alpha(pc1, pc2)] *)
Definition compute_alpha (pc1 pc2 : series)
  : result (float64 * list float64 * list float64) :=
  coefs <- polyfit (values pc1) (values pc2) ;;
  xfit <- arange (nanmin (values pc1))
                 (fadd (nanmax (values pc1)) (Fin (1 / 10))) (1 / 10) ;;
  let fit := map (polyval coefs) xfit in
  Ok (snd coefs, xfit, fit).

(** The part of [compute_index] that follows the fit. *)
Definition index_of_model (model : EOFModel) (tos_anom : field) : result output :=
  let pc1 := principal_components model tos_anom mode1 in
  let pc2 := principal_components model tos_anom mode2 in
  let eindex := rotate fsub pc1 pc2 in
  let cindex := rotate fadd pc1 pc2 in
  let pc1_djf := djf_means pc1 in
  let pc2_djf := djf_means pc2 in
  let pcs_djf := concat_mode pc1_djf pc2_djf in
  r <- compute_alpha pc1_djf pc2_djf ;;
  let '(alpha, xfit, fit) := r in
  Ok {| E_index := eindex; C_index := cindex; pcs := (pc1, pc2);
        pcs_djf := pcs_djf; alpha := alpha; xfit := xfit; fit := fit |}.

(** [compute_index(tos_anom, base_period)] *)
Definition compute_index (tos_anom : field) (base_period : date * date)
  : result output :=
  let tos_anom := sel_box (-20 # 1) (20 # 1) (100 # 1) (280 # 1) tos_anom in
  model <- eof_fit (sel_time base_period tos_anom) ;;
  index_of_model model tos_anom.

End WithBackend.

End Takahashi.

(** ** Notions the statements below are written with *)

Module Props.

Import Float Calendar Series Grid Result Xeofs Kernels Numpy Takahashi.

Local Open Scope R_scope.

(** A number that is neither zero nor NaN: it has a sign. *)
Definition signed (x : float64) : Prop :=
  match x with
  | Fin r => r <> 0
  | NaN => False
  | PInf | NInf => True
  end.

(** The value of a field at a time step and a grid point, by position. *)
Definition value_at (f : field) (t i j : nat) : float64 :=
  nth j (nth i (nth t (data f) []) []) NaN.

(** The same axes, and the same values at every grid point of the box. *)
Definition agree_in_box (lat0 lat1 lon0 lon1 : Q) (f g : field) : Prop :=
  time f = time g /\ lat f = lat g /\ lon f = lon g
  /\ forall t i j,
       (t < length (time f))%nat ->
       (i < length (lat f))%nat -> (j < length (lon f))%nat ->
       in_slice lat0 lat1 (nth i (lat f) 0%Q) = true ->
       in_slice lon0 lon1 (nth j (lon f) 0%Q) = true ->
       value_at f t i j = value_at g t i j.

(** The backend whose decomposition returns the pattern of mode [k] with
    the other sign. *)
Definition opposite_sign (k : mode) (B : Backend) : Backend :=
  {| eof_fit := fun sample =>
       match eof_fit sample with
       | Ok m => Ok (flip_mode k m)
       | Err e => Err e
       end;
     lstsq := lstsq |}.

(** The pattern of mode [k] times its correction factor. *)
Definition corrected_pattern (m : EOFModel) (k : mode) : pattern :=
  let p := components m k in
  {| plat := plat p; plon := plon p;
     pvalues := map (map (fun x => fmul x (correction_factor m k))) (pvalues p) |}.

(** A field of anomalies that are all exactly zero. *)
Definition zero_grid (g : grid) : Prop := Forall (Forall (eq (Fin 0))) g.

Definition zero_field (f : field) : Prop := Forall zero_grid (data f).

(** What the decomposition of an all-zero sample comes to: no variance to
    explain (zero, or NaN if the library divides it by a zero total), and a
    preparation (centring on the sample mean, weighting) that leaves a zero
    time step zero. *)
Definition flat (m : EOFModel) : Prop :=
  (forall k, explained_variance m k = Fin 0 \/ explained_variance m k = NaN)
  /\ (forall g, zero_grid g -> zero_grid (prepare m g)).



End Props.

(** ** A small run: two grid points on the equator, one winter *)

Module Demo.

Import Float Calendar Series Grid Result Xeofs Kernels Numpy Takahashi.

Local Open Scope R_scope.

(** A backend that answers every sample of two time steps or more with the
    same model, and every fit with the same parabola. *)
Definition fixed_backend (m : EOFModel) (c : coefs) : Backend :=
  {| eof_fit := fun sample =>
       if (length (time sample) <? 2)%nat then Err ValueError else Ok m;
     lstsq := fun _ _ => Ok c |}.

Definition first_of (y m : Z) : date := mkdate y m 1.

(** December 1980 to February 1981 at 0N, 150E and 0N, 170E: the anomaly is
    [x] at the first point and 0 at the second, every month. *)
Definition winter (x : R) : field :=
  {| time := [first_of 1980 12; first_of 1981 1; first_of 1981 2];
     lat := [0 # 1]%Q;
     lon := [150 # 1; 170 # 1]%Q;
     data := [[[Fin x; Fin 0]]; [[Fin x; Fin 0]]; [[Fin x; Fin 0]]] |}.

Definition winter_period : date * date := (year_first 1980, year_last 1981).

Definition pattern_of (a b : R) : pattern :=
  {| plat := [0 # 1]%Q; plon := [150 # 1; 170 # 1]%Q;
     pvalues := [[Fin a; Fin b]] |}.

(** Patterns [(1, 1)] and [(1, -1)], each of variance 1: the second has a
    zero mean over the box of the sign convention. *)
Definition two_point_model : EOFModel :=
  {| components := fun k =>
       match k with mode1 => pattern_of 1 1 | mode2 => pattern_of 1 (-1) end;
     explained_variance := fun _ => Fin 1;
     prepare := fun g => g |}.

(** The same patterns without any variance to explain. *)
Definition flat_model : EOFModel :=
  {| components := components two_point_model;
     explained_variance := fun _ => Fin 0;
     prepare := fun g => g |}.

(** The same value in each of the three months. *)
Definition steady (v : float64) : series :=
  [(first_of 1980 12, v); (first_of 1981 1, v); (first_of 1981 2, v)].


(** December 1999 to February 2000. *)
Definition winter_of_2000 : series :=
  [(first_of 1999 12, Fin 1); (first_of 2000 1, Fin 2); (first_of 2000 2, Fin 3)].

Definition third : coefs := (Fin (1 / 3), Fin (1 / 3), Fin (1 / 3)).

Definition demo_backend : Backend := fixed_backend two_point_model third.

(** The winter field with a third point at 0N, 60W, east of the box. *)
Definition winter_and_beyond (x far : R) : field :=
  {| time := time (winter x);
     lat := [0 # 1]%Q;
     lon := [150 # 1; 170 # 1; 300 # 1]%Q;
     data := [[[Fin x; Fin 0; Fin far]]; [[Fin x; Fin 0; Fin far]];
              [[Fin x; Fin 0; Fin far]]] |}.



(** Two winters, December 1980 to February 1982 without the months from
    March to November; the first point is missing in January 1982. *)
Definition two_winters : field :=
  {| time := [first_of 1980 12; first_of 1981 1; first_of 1981 2;
              first_of 1981 12; first_of 1982 1; first_of 1982 2];
     lat := [0 # 1]%Q;
     lon := [150 # 1; 170 # 1]%Q;
     data := [[[Fin 1; Fin 0]]; [[Fin 1; Fin 0]]; [[Fin 1; Fin 0]];
              [[Fin 1; Fin 0]]; [[NaN; Fin 0]]; [[Fin 1; Fin 0]]] |}.

(** The value [v] in each of the six months but January 1982, which is
    missing. *)
Definition gapped (v : R) : series :=
  [(first_of 1980 12, Fin v); (first_of 1981 1, Fin v); (first_of 1981 2, Fin v);
   (first_of 1981 12, Fin v); (first_of 1982 1, NaN); (first_of 1982 2, Fin v)].

End Demo.

(** ** Further notions: order of time stamps, gaps *)

Module MoreProps.

Import Float Calendar Series Grid Result Xeofs Kernels Numpy Takahashi.

Local Open Scope R_scope.

(** Earlier in time. *)
Definition date_lt (a b : date) : Prop := date_ltb a b = true.

(** A series of numbers and gaps: every value is finite or NaN. *)
Definition numbers_or_gaps (s : series) : Prop :=
  Forall (fun p => isfinite (snd p) = true \/ snd p = NaN) s.

(** Two series over the same time stamps with their gaps at the same
    places. *)
Definition same_gaps (a b : series) : Prop :=
  Forall2 (fun p q => fst p = fst q /\ isnan (snd p) = isnan (snd q)) a b.

(** The quarters [resample] lays out for a series: from the quarter of its
    earliest time stamp to that of its latest. *)
Definition bins_of (s : series) : list date :=
  match times s with
  | [] => []
  | t :: ts =>
      quarter_range (quarter_start (fold_right date_min t ts))
                    (quarter_start (fold_right date_max t ts))
  end.

(** A fitted model with variance to explain in both modes, whose two
    patterns hold numbers and have their gaps (the grid points the
    decomposition left out) at the same places. *)
Definition regular (m : EOFModel) : Prop :=
  (forall k, exists v, explained_variance m k = Fin v /\ 0 < v)
  /\ Forall2 (fun a b => (isfinite a = true /\ isfinite b = true)
                        \/ (a = NaN /\ b = NaN))
       (concat (pvalues (components m mode1)))
       (concat (pvalues (components m mode2))).

(** The time steps of the field, as the projection sees them, hold numbers
    and gaps. *)
Definition prepared_numbers (m : EOFModel) (f : field) : Prop :=
  Forall (fun g => Forall (fun x => isfinite x = true \/ x = NaN)
                     (concat (prepare m g)))
         (data f).

(** The field with further time steps after its own. *)
Definition extend (f : field) (steps : list (date * grid)) : field :=
  {| time := time f ++ map fst steps;
     lat := lat f;
     lon := lon f;
     data := data f ++ map snd steps |}.

End MoreProps.

(** A further month for the winter field: March 1982. *)
Module LaterDemo.

Import Float Calendar Grid Demo.

Local Open Scope R_scope.

Definition march_1982 : list (date * grid) :=
  [(first_of 1982 3, [[Fin 5; Fin 0]])].

End LaterDemo.

(** ** The anomalies the notebook feeds to [compute_index]

    The climatology is the mean of each calendar month over the base period
    ([sst.sel(time=...).groupby("time.month").mean("time")]); the anomalies
    are the field minus the climatology of the month of each time step
    ([sst.groupby("time.month") - sst_clim]). *)

Module Anomaly.

Import Float Calendar Series Grid.

Local Open Scope Z_scope.

(** The value of a grid at a position; NaN off the grid. *)
Definition grid_at (g : grid) (i j : nat) : float64 := nth j (nth i g []) NaN.

(** The labels of [groupby("time.month")]: the months of the time axis,
    each once, in increasing order. *)
Fixpoint insert_month (m : Z) (l : list Z) : list Z :=
  match l with
  | [] => [m]
  | x :: r =>
      if m =? x then l
      else if m <? x then m :: l
      else x :: insert_month m r
  end.

Definition months_present (f : field) : list Z :=
  fold_right insert_month [] (map month (time f)).

(** The time steps of one calendar month. *)
Definition grids_of_month (f : field) (m : Z) : list grid :=
  map snd (filter (fun tg => month (fst tg) =? m) (combine (time f) (data f))).

(** [.mean("time")] of a group: at every grid point the mean, NaN left out,
    of the values of the group's time steps. *)
Definition mean_over_time (nlat nlon : nat) (gs : list grid) : grid :=
  map (fun i =>
         map (fun j => nanmean (map (fun g => grid_at g i j) gs)) (seq 0 nlon))
      (seq 0 nlat).

(** [f.groupby("time.month").mean("time")]: one mean grid per month
    present. *)
Definition monthly_mean (f : field) : list (Z * grid) :=
  map (fun m => (m, mean_over_time (length (lat f)) (length (lon f))
                      (grids_of_month f m)))
      (months_present f).

(** The climatology of a month, as the grouped subtraction lines it up with
    the months of the data: NaN everywhere for a month the climatology does
    not have. *)
Definition clim_of (clim : list (Z * grid)) (nlat nlon : nat) (m : Z) : grid :=
  match find (fun c => fst c =? m) clim with
  | Some c => snd c
  | None => repeat (repeat NaN nlon) nlat
  end.

(** [g - c], grid point by grid point. *)
Definition sub_grid (g c : grid) : grid :=
  map (fun rc => map (fun xy => fsub (fst xy) (snd xy)) (combine (fst rc) (snd rc)))
      (combine g c).

(** [f.groupby("time.month") - clim]: from every time step the climatology
    of its month. *)
Definition groupby_month_sub (f : field) (clim : list (Z * grid)) : field :=
  {| time := time f;
     lat := lat f;
     lon := lon f;
     data := map (fun tg =>
                    sub_grid (snd tg)
                      (clim_of clim (length (lat f)) (length (lon f))
                         (month (fst tg))))
                 (combine (time f) (data f)) |}.

(** The two lines of the notebook. *)
Definition anomalies (sst : field) (base_period : date * date) : field :=
  let sst_clim := monthly_mean (sel_time base_period sst) in
  groupby_month_sub sst sst_clim.

(** The values a grid point takes in the time steps of one month. *)
Definition point_values (f : field) (m : Z) (i j : nat) : list float64 :=
  map (fun g => grid_at g i j) (grids_of_month f m).

(** The positions a selection keeps on an axis. *)
Definition kept_indices (keep : Q -> bool) (coords : list Q) : list nat :=
  sel_axis keep coords (seq 0 (length coords)).

(** A field of numbers and gaps. *)
Definition numbers_or_gaps_field (f : field) : Prop :=
  Forall (Forall (Forall (fun x => isfinite x = true \/ x = NaN))) (data f).

End Anomaly.

(** ** A small sea surface temperature field

    Two Januaries and a July at 0N, 150E and 0N, 170E; the second point is
    a gap (land) throughout. *)

Module AnomalyDemo.

Import Float Calendar Grid.

Local Open Scope R_scope.

Definition three_months : field :=
  {| time := [mkdate 1991 1 1; mkdate 1991 7 1; mkdate 1992 1 1];
     lat := [0 # 1]%Q;
     lon := [150 # 1; 170 # 1]%Q;
     data := [[[Fin 26; NaN]]; [[Fin 24; NaN]]; [[Fin 28; NaN]]] |}.

Definition base_period : date * date := (year_first 1991, year_last 1992).

End AnomalyDemo.

(** ** The regression patterns

    The notebook regresses the anomalies on the E and on the C index over
    the base period: [cov = xr.cov(ec, sst, dim="time")],
    [std = ec.std("time")], [reg = cov / std], at every grid point and for
    each of the two indices. *)

Module Regression.

Import Float Calendar Series Grid Anomaly.

Local Open Scope R_scope.

(** [a.where(valid)]: NaN where [valid] is false. *)
Definition where_valid (valid : list bool) (a : list float64) : list float64 :=
  map (fun p : bool * float64 => if fst p then snd p else NaN) (combine valid a).

(** [sum(skipna=True, min_count=1)]: NaN when there is nothing to add. *)
Definition nansum (l : list float64) : float64 :=
  match filter notnan l with
  | [] => NaN
  | v => fsum v
  end.

(** [xr.cov(a, b, dim="time")] at one point, with the default [ddof=1]:
    the time steps where either series is NaN are left out, both series
    are centred on their own mean, and the sum of the products is divided by
    the number of steps kept minus one. *)
Definition cov (a b : list float64) : float64 :=
  let valid_values :=
    map (fun p => notnan (fst p) && notnan (snd p)) (combine a b) in
  let a := where_valid valid_values a in
  let b := where_valid valid_values b in
  let valid_count := INR (length (filter (fun v => v) valid_values)) - 1 in
  let demeaned_a := map (fun x => fsub x (nanmean a)) a in
  let demeaned_b := map (fun x => fsub x (nanmean b)) b in
  fdiv (nansum (map (fun p => fmul (fst p) (snd p))
                  (combine demeaned_a demeaned_b)))
       (Fin valid_count).

(** [a.std("time")], with the default [ddof=0], NaN left out. *)
Definition std (a : list float64) : float64 :=
  match filter notnan a with
  | [] => NaN
  | v =>
      let avg := fdiv (fsum v) (Fin (INR (length v))) in
      fsqrt (fdiv (fsum (map (fun x => fmul (fsub x avg) (fsub x avg)) v))
                  (Fin (INR (length v))))
  end.

(** The values of a field at one grid point, time step by time step. *)
Definition point_series (f : field) (i j : nat) : list float64 :=
  map (fun g => grid_at g i j) (data f).

(** [reg] for one index (one [mode] of [ec_clim_period]) at one grid
    point. *)
Definition reg (index : series) (sst_anom : field) (base_period : date * date)
    (i j : nat) : float64 :=
  let ec_clim_period := values (sel_where (in_period base_period) index) in
  let sst_clim_period := point_series (sel_time base_period sst_anom) i j in
  let cov := cov ec_clim_period sst_clim_period in
  let std := std ec_clim_period in
  fdiv cov std.

(** The mean and the variance (over n, not n - 1) of real numbers. *)
Definition mean_of (xs : list R) : R :=
  fold_right Rplus 0 xs / INR (length xs).

Definition variance_of (xs : list R) : R :=
  fold_right Rplus 0 (map (fun x => (x - mean_of xs) * (x - mean_of xs)) xs)
  / INR (length xs).

End Regression.

(** An index of 3, 2, 4 and anomalies of twice the index plus 20. *)
Module RegressionDemo.

Import Float Calendar Series Grid.

Local Open Scope R_scope.

Definition index : series :=
  [(mkdate 1991 1 1, Fin 3); (mkdate 1991 7 1, Fin 2); (mkdate 1992 1 1, Fin 4)].

Definition response : field :=
  {| time := [mkdate 1991 1 1; mkdate 1991 7 1; mkdate 1992 1 1];
     lat := [0 # 1]%Q;
     lon := [150 # 1]%Q;
     data := [[[Fin (2 * 3 + 20)]]; [[Fin (2 * 2 + 20)]]; [[Fin (2 * 4 + 20)]]] |}.

End RegressionDemo.

(** ** The catalogue notebook: dataset ids and requests to the subsetting
       service

    The notebook searches the ESGF catalogue, keeps of every row the dataset
    id without the node it is stored on ([keep_ds_id]), and asks the
    subsetting service for the tropical Pacific of every dataset
    ([get_pacific_ocean], once for the sea surface temperature and once for
    the temperature of the upper ocean).  The service is outside the
    notebook: it is the class [Server], which answers the n-th request of a
    session.  Printing and the count of requests are the state of the
    session.  The exceptions of the model are the two the notebook's own
    lines raise ([ValueError(resp)] and the IndexError of [[0]]); a request
    that does not come back (a network error, an exception inside the
    client) is outside it, and what is proved is about the runs in which
    the service answers. *)

Module Catalog.

Import Ascii String.

Local Open Scope string_scope.
Local Open Scope list_scope.

(** [s.split(sep)], for a separator of one character: the pieces between
    the separators, one piece at least. *)
Fixpoint split (sep : ascii) (s : string) : list string :=
  match s with
  | EmptyString => [EmptyString]
  | String c r =>
      if Ascii.eqb c sep then EmptyString :: split sep r
      else
        match split sep r with
        | p :: ps => String c p :: ps
        | [] => [String c EmptyString]
        end
  end.

(** The rows of the column [id] are lists of strings.  [l[0]] raises
    IndexError on an empty list: [None]. *)
Definition keep_ds_id (ds : list string) : option string :=
  match ds with
  | [] => None
  | s :: _ => hd_error (split "|" s)
  end.

(** [column.apply(f).to_list()]: the first error ends it. *)
Fixpoint apply {A B : Type} (f : A -> option B) (column : list A) : option (list B) :=
  match column with
  | [] => Some []
  | x :: r =>
      match f x with
      | None => None
      | Some y =>
          match apply f r with
          | None => None
          | Some ys => Some (y :: ys)
          end
      end
  end.

Definition collections (id : list (list string)) : option (list string) :=
  apply keep_ds_id id.

(** [c in s]. *)
Fixpoint contains (c : ascii) (s : string) : bool :=
  match s with
  | EmptyString => false
  | String x r => Ascii.eqb x c || contains c r
  end.

End Catalog.

Module Rooki.

Import Ascii String.

Local Open Scope string_scope.
Local Open Scope list_scope.

(** The operators of a request. *)
Inductive workflow : Type :=
| Input (variable : string) (dataset_ids : list string)
| Subset (w : workflow) (time area : string) (level : option string)
| Regrid (w : workflow) (method grid : string).

(** The service: what it answers to the n-th request of the session, and
    what the notebook reads of an answer. *)
Class Server := {
  dataset : Type;
  Dataset : dataset;
  response : Type;
  ok : response -> bool;
  size_in_mb : response -> string;
  datasets : response -> list dataset;
  orchestrate : nat -> workflow -> response
}.

Section WithServer.

Context {S : Server}.

Inductive exn : Type :=
| IndexError
| ValueError (resp : response).

Inductive outcome (A : Type) : Type :=
| Returned (a : A)
| Raised (e : exn).

Arguments Returned {A} a.
Arguments Raised {A} e.

(** The lines printed and the requests sent so far. *)
Record session : Type := mksession {
  stdout : list string;
  requests : nat
}.

Definition io (A : Type) : Type := session -> outcome A * session.

Definition ret {A : Type} (a : A) : io A := fun s => (Returned a, s).

Definition raise {A : Type} (e : exn) : io A := fun s => (Raised e, s).

Definition bind {A B : Type} (m : io A) (k : A -> io B) : io B :=
  fun s =>
    match m s with
    | (Returned a, s') => k a s'
    | (Raised e, s') => (Raised e, s')
    end.

Definition print (line : string) : io unit :=
  fun s => (Returned tt, mksession (stdout s ++ [line]) (requests s)).

(** [wf.orchestrate()]. *)
Definition send (wf : workflow) : io response :=
  fun s => (Returned (orchestrate (requests s) wf),
            mksession (stdout s) (Datatypes.S (requests s))).

(** [l[0]]. *)
Definition first {A : Type} (l : list A) : io A :=
  match l with
  | [] => raise IndexError
  | x :: _ => ret x
  end.

(** A dict with string keys: the keys in the order they were first set. *)
Definition dict : Type := list (string * dataset).

Fixpoint setitem (k : string) (v : dataset) (d : dict) : dict :=
  match d with
  | [] => [(k, v)]
  | (k', v') :: r =>
      if String.eqb k k' then (k', v) :: r else (k', v') :: setitem k v r
  end.

Fixpoint getitem (k : string) (d : dict) : option dataset :=
  match d with
  | [] => None
  | (k', v) :: r => if String.eqb k k' then Some v else getitem k r
  end.

(** [{dset: f(dset) for dset in collections}]. *)
Fixpoint comprehension_from (f : string -> io dataset) (collections : list string)
    (acc : dict) : io dict :=
  match collections with
  | [] => ret acc
  | dset :: r =>
      bind (f dset) (fun v => comprehension_from f r (setitem dset v acc))
  end.

Definition comprehension (f : string -> io dataset) (collections : list string)
  : io dict :=
  comprehension_from f collections [].

(** The line [print(f"{resp.size_in_mb=}")] writes. *)
Definition size_line (resp : response) : string :=
  "resp.size_in_mb=" ++ size_in_mb resp.

End WithServer.

Arguments Returned {S A} a.
Arguments Raised {S A} e.

End Rooki.

(** The sea surface temperature, 20S-20N: a request that is refused raises
    ValueError. *)
Module Tos.

Import Ascii String Rooki.

Local Open Scope string_scope.
Local Open Scope list_scope.

Section WithServer.

Context {S : Server}.

Definition workflow_of (dataset_id : string) : workflow :=
  Regrid
    (Subset (Input "tos" [dataset_id]) "1850-01-01/1875-01-31"
       "100,-20,280,20" None)
    "bilinear" "1deg".

Definition get_pacific_ocean (dataset_id : string) : io dataset :=
  let wf := workflow_of dataset_id in
  bind (send wf) (fun resp =>
    if ok resp then
      bind (print (size_line resp)) (fun _ => first (datasets resp))
    else raise (ValueError resp)).

Definition sst_data (collections : list string) : io dict :=
  comprehension get_pacific_ocean collections.

End WithServer.

End Tos.

(** The temperature of the upper 50 m, 10S-10N: a request that is refused
    gives an empty dataset. *)
Module Thetao.

Import Ascii String Rooki.

Local Open Scope string_scope.
Local Open Scope list_scope.

Section WithServer.

Context {S : Server}.

Definition workflow_of (dataset_id : string) : workflow :=
  Regrid
    (Subset (Input "thetao" [dataset_id]) "1850-01-01/1851-01-31"
       "100,-10,280,10" (Some "0/50"))
    "billinear" "2pt5deg".

Definition get_pacific_ocean (dataset_id : string) : io dataset :=
  let wf := workflow_of dataset_id in
  bind (send wf) (fun resp =>
    if ok resp then
      bind (print (size_line resp)) (fun _ => first (datasets resp))
    else ret Dataset).

Definition thetao_data (collections : list string) : io dict :=
  comprehension get_pacific_ocean collections.

End WithServer.

End Thetao.

(** What the theorems on the requests say. *)
Module RequestProps.

Import Ascii String Rooki.

Local Open Scope nat_scope.

Section WithServer.

Context {S : Server}.

(** The answer to the request for [dset] when it is the i-th of a
    comprehension started in session [s]. *)
Definition answer (wf_of : string -> workflow) (s : session) (i : nat)
    (dset : string) : response :=
  orchestrate (requests s + i) (wf_of dset).

(** A request that is accepted and comes with a dataset. *)
Definition granted (resp : response) : Prop :=
  ok resp = true /\ datasets resp <> [].

(** The lines the accepted requests for [collections] print. *)
Definition lines_of (wf_of : string -> workflow) (s : session)
    (collections : list string) : list string :=
  map (fun p => size_line (answer wf_of s (fst p) (snd p)))
      (combine (seq 0 (List.length collections)) collections).

End WithServer.

End RequestProps.

(** A service that refuses the dataset [refused] and accepts every other
    with a dataset named after the request. *)
Module RequestDemo.

Import Ascii String Rooki.

Local Open Scope string_scope.
Local Open Scope list_scope.

Fixpoint requested (w : workflow) : list string :=
  match w with
  | Input _ ids => ids
  | Subset w _ _ _ => requested w
  | Regrid w _ _ => requested w
  end.

Definition refusing (refused : string) : Server :=
  {| dataset := list string;
     Dataset := [];
     response := bool * list string;
     ok := fst;
     size_in_mb := fun _ => "1.5";
     datasets := fun r => [snd r];
     orchestrate := fun _ w =>
       (negb (existsb (String.eqb refused) (requested w)), requested w) |}.

End RequestDemo.

(** ** Proof steps used throughout *)

Module Tactics.

Import Float.

Local Open Scope R_scope.

(** Case analysis on the sign tests of the real parts. *)
Ltac rdec :=
  repeat match goal with
  | |- context [Req_dec_T ?a ?b] => destruct (Req_dec_T a b); try lra
  | |- context [Rlt_dec ?a ?b] => destruct (Rlt_dec a b); try lra
  end.

Ltac fcases :=
  simpl; unfold scale_inf, inf_of; simpl; rdec; simpl;
  try reflexivity; try (f_equal; lra).

(** Comparisons of numbers, case by case. *)
Ltac fsolve :=
  simpl; rdec; try reflexivity; try discriminate; try lra.

(** Linear arithmetic with divisions by constants. *)
Ltac zdiv := Z.to_euclidean_division_equations; lia.

End Tactics.

(** ** Facts about the numbers *)

Module FloatFacts.

Import Float Props Tactics.

Local Open Scope R_scope.

Lemma fopp_involutive x : fopp (fopp x) = x.
Proof. destruct x; fcases. Qed.

Lemma fmul_opp_l x y : fmul (fopp x) y = fopp (fmul x y).
Proof. destruct x, y; fcases. Qed.

Lemma fmul_opp_r x y : fmul x (fopp y) = fopp (fmul x y).
Proof. destruct x, y; fcases. Qed.

Lemma fadd_opp x y : fadd (fopp x) (fopp y) = fopp (fadd x y).
Proof. destruct x, y; fcases. Qed.

Lemma fdiv_opp_l x y : fdiv (fopp x) y = fopp (fdiv x y).
Proof. destruct x, y; fcases. Qed.

Lemma fmul_minus_one x : fmul x (Fin (-1)) = fopp x.
Proof. destruct x; fcases. Qed.

Lemma fmul_one x : fmul x (Fin 1) = x.
Proof. destruct x; fcases. Qed.

Lemma notnan_fopp x : notnan (fopp x) = notnan x.
Proof. now destruct x. Qed.

(** Evaluation on finite numbers. *)
Lemma fdiv_fin a b : b <> 0 -> fdiv (Fin a) (Fin b) = Fin (a / b).
Proof. intros Hb; simpl. now destruct (Req_dec_T b 0). Qed.

Lemma fsqrt_fin r : 0 <= r -> fsqrt (Fin r) = Fin (sqrt r).
Proof. intros Hr; simpl. destruct (Rlt_dec r 0); [lra | reflexivity]. Qed.

Lemma fgt_fin_true a b : b < a -> fgt (Fin a) (Fin b) = true.
Proof. intros H; simpl. now destruct (Rlt_dec b a). Qed.

Lemma fgt_fin_false a b : a <= b -> fgt (Fin a) (Fin b) = false.
Proof. intros H; simpl. destruct (Rlt_dec b a); [lra | reflexivity]. Qed.

(** [2 ** (1 / 2)] is the square root of two. *)
Lemma two_pow_half_sqrt : two_pow_half = Fin (sqrt 2).
Proof.
  unfold two_pow_half. f_equal.
  replace (1 / 2) with (/ 2) by lra.
  apply Rpower_sqrt; lra.
Qed.

Lemma sqrt2_pos : 0 < sqrt 2.
Proof. apply sqrt_lt_R0; lra. Qed.



(** Sums and means under a change of sign. *)
Lemma fsum_map_fopp l : fsum (map fopp l) = fopp (fsum l).
Proof.
  unfold fsum. induction l as [|x l IH]; simpl.
  - f_equal; lra.
  - rewrite IH. apply fadd_opp.
Qed.

Lemma filter_notnan_map_fopp l :
  filter notnan (map fopp l) = map fopp (filter notnan l).
Proof.
  induction l as [|x l IH]; simpl; [reflexivity|].
  rewrite notnan_fopp. destruct (notnan x); simpl; now rewrite IH.
Qed.

Lemma nanmean_map_fopp l : nanmean (map fopp l) = fopp (nanmean l).
Proof.
  unfold nanmean. rewrite filter_notnan_map_fopp.
  destruct (filter notnan l) as [|x v]; [reflexivity|].
  cbn [map]. cbv iota beta.
  change (fopp x :: map fopp v) with (map fopp (x :: v)).
  rewrite fsum_map_fopp, length_map. apply fdiv_opp_l.
Qed.

Lemma fgt_zero_fopp x :
  signed x -> fgt (fopp x) (Fin 0) = negb (fgt x (Fin 0)).
Proof. destruct x; simpl; intros H; try easy; rdec; reflexivity. Qed.

(** The sum of numbers without NaN and without infinities of both signs. *)
Lemma fsum_fin (l : list R) : fsum (map Fin l) = Fin (fold_right Rplus 0 l).
Proof. unfold fsum. induction l as [|x l IH]; simpl; [reflexivity | now rewrite IH]. Qed.

Lemma nanmean_fin (x : R) (l : list R) :
  nanmean (map Fin (x :: l))
  = Fin (fold_right Rplus 0 (x :: l) / INR (length (x :: l))).
Proof.
  unfold nanmean.
  assert (Hf : forall l', filter notnan (map Fin l') = map Fin l').
  { induction l' as [|y l' IH]; simpl; [reflexivity | now rewrite IH]. }
  rewrite Hf. change (map Fin (x :: l)) with (Fin x :: map Fin l).
  cbv iota beta.
  change (Fin x :: map Fin l) with (map Fin (x :: l)).
  rewrite fsum_fin, length_map. apply fdiv_fin.
  apply not_0_INR. discriminate.
Qed.

Lemma filter_notnan_numbers l :
  Forall (fun x => isfinite x = true \/ x = NaN) l ->
  exists rs, filter notnan l = map Fin rs
             /\ forall r, In (Fin r) l -> In r rs.
Proof.
  induction 1 as [|x l Hx _ (rs & E & Hin)].
  - exists []. split; [reflexivity | intros r []].
  - destruct x as [a| | |]; destruct Hx as [Hx | Hx]; try discriminate.
    + exists (a :: rs). simpl. rewrite E. split; [reflexivity|].
      intros r [H | H]; [injection H as ->; now left | right; auto].
    + exists rs. simpl. split; [exact E|].
      intros r [H | H]; [discriminate | auto].
Qed.

(** A mean over numbers and gaps, with one number at least, is a number. *)
Lemma notnan_nanmean_numbers r l :
  In (Fin r) l -> Forall (fun x => isfinite x = true \/ x = NaN) l ->
  notnan (nanmean l) = true.
Proof.
  intros Hin H. destruct (filter_notnan_numbers l H) as (rs & E & Hrs).
  unfold nanmean. rewrite E.
  destruct rs as [|a rs]; [destruct (Hrs r Hin)|].
  cbn [map]. cbv iota beta. change (Fin a :: map Fin rs) with (map Fin (a :: rs)).
  rewrite fsum_fin, length_map, fdiv_fin; [reflexivity|].
  apply not_0_INR. discriminate.
Qed.

End FloatFacts.

(** ** Facts about selections on grids *)

Module GridFacts.

Import Float Calendar Series Grid Props FloatFacts.

Lemma nth_map_lt {A C : Type} (g : A -> C) (l : list A) (n : nat) d d' :
  (n < length l)%nat -> nth n (map g l) d' = g (nth n l d).
Proof.
  revert n. induction l as [|x l IH]; intros [|n] H; simpl in *; try lia.
  - reflexivity.
  - apply IH. lia.
Qed.

Lemma sel_axis_map {A C : Type} (g : A -> C) keep coords (xs : list A) :
  sel_axis keep coords (map g xs) = map g (sel_axis keep coords xs).
Proof.
  unfold sel_axis. revert xs.
  induction coords as [|c coords IH]; intros [|x xs]; simpl; try reflexivity.
  destruct (keep c); simpl; now rewrite IH.
Qed.

(** Two lists that agree, up to [F], at the kept coordinates have the same
    selection up to [F]. *)
Lemma sel_axis_agree {A C : Type} (F : A -> C) keep (d : A) coords :
  forall xs ys : list A,
  length xs = length coords -> length ys = length coords ->
  (forall i, (i < length coords)%nat -> keep (nth i coords 0%Q) = true ->
             F (nth i xs d) = F (nth i ys d)) ->
  map F (sel_axis keep coords xs) = map F (sel_axis keep coords ys).
Proof.
  unfold sel_axis.
  induction coords as [|c coords IH]; intros [|x xs] [|y ys] Hx Hy H;
    simpl in *; try discriminate; try reflexivity.
  assert (Htl : map F (map snd (filter (fun p => keep (fst p)) (combine coords xs)))
              = map F (map snd (filter (fun p => keep (fst p)) (combine coords ys)))).
  { apply IH; [lia | lia |]. intros i Hi Hk. apply (H (S i)); [lia | exact Hk]. }
  destruct (keep c) eqn:Hc; simpl.
  - rewrite Htl. f_equal. apply (H 0%nat); [lia | exact Hc].
  - exact Htl.
Qed.

Lemma sel_grid_opp kl ko lats lons g :
  sel_grid kl ko lats lons (opp_grid g) = opp_grid (sel_grid kl ko lats lons g).
Proof.
  unfold sel_grid, opp_grid.
  rewrite sel_axis_map, !map_map.
  apply map_ext. intros row. apply sel_axis_map.
Qed.

Lemma concat_opp_grid g : concat (opp_grid g) = map fopp (concat g).
Proof. unfold opp_grid. now rewrite concat_map. Qed.

Lemma pattern_mean_opp a b c d p :
  pattern_mean (sel_box_pattern a b c d (opp_pattern p))
  = fopp (pattern_mean (sel_box_pattern a b c d p)).
Proof.
  unfold pattern_mean, sel_box_pattern, opp_pattern; simpl.
  now rewrite sel_grid_opp, concat_opp_grid, nanmean_map_fopp.
Qed.

Lemma sel_grid_agree kl ko lats lons (g1 g2 : grid) :
  wf_grid (length lats) (length lons) g1 ->
  wf_grid (length lats) (length lons) g2 ->
  (forall i j, (i < length lats)%nat -> (j < length lons)%nat ->
               kl (nth i lats 0%Q) = true -> ko (nth j lons 0%Q) = true ->
               nth j (nth i g1 []) NaN = nth j (nth i g2 []) NaN) ->
  sel_grid kl ko lats lons g1 = sel_grid kl ko lats lons g2.
Proof.
  intros [L1 R1] [L2 R2] H. unfold sel_grid.
  apply (sel_axis_agree (sel_axis ko lons) kl []); [exact L1 | exact L2 |].
  intros i Hi Hk.
  assert (Hr1 : length (nth i g1 []) = length lons).
  { rewrite Forall_forall in R1. apply R1, nth_In. lia. }
  assert (Hr2 : length (nth i g2 []) = length lons).
  { rewrite Forall_forall in R2. apply R2, nth_In. lia. }
  rewrite <- (map_id (sel_axis ko lons (nth i g1 []))).
  rewrite <- (map_id (sel_axis ko lons (nth i g2 []))).
  apply (sel_axis_agree (fun x => x) ko NaN); [exact Hr1 | exact Hr2 |].
  intros j Hj Hkj. now apply H.
Qed.

Lemma sel_box_agree a b c d (f g : field) :
  wf_field f -> wf_field g -> agree_in_box a b c d f g ->
  sel_box a b c d f = sel_box a b c d g.
Proof.
  intros [Lf Wf] [Lg Wg] (Ht & Hla & Hlo & Hv).
  unfold sel_box. rewrite <- Ht, <- Hla, <- Hlo. f_equal.
  apply (nth_ext _ _ [] []).
  - rewrite !length_map. congruence.
  - intros t Hlt. rewrite length_map in Hlt.
    rewrite (nth_map_lt _ (data f) t []) by exact Hlt.
    rewrite (nth_map_lt _ (data g) t []) by congruence.
    apply sel_grid_agree.
    + rewrite Forall_forall in Wf. apply Wf, nth_In. exact Hlt.
    + rewrite Forall_forall in Wg. rewrite Hla, Hlo. apply Wg, nth_In. congruence.
    + intros i j Hi Hj Hki Hkj. apply (Hv t i j); try assumption. congruence.
Qed.

End GridFacts.

(** ** Facts about the sign convention *)

Module SignFacts.

Import Float Calendar Series Grid Result Xeofs Kernels Numpy Takahashi Props.
Import FloatFacts GridFacts.

Local Open Scope R_scope.

Lemma correction_factor_values m k :
  correction_factor m k = Fin 1 \/ correction_factor m k = Fin (-1).
Proof. unfold correction_factor. destruct (fgt _ _); auto. Qed.

Lemma inner_opp x p : inner x (opp_grid p) = fopp (inner x p).
Proof.
  unfold inner. rewrite concat_opp_grid.
  generalize (concat x) (concat p). clear x p.
  induction l as [|a l IH]; intros [|b q]; simpl;
    try (unfold fsum; simpl; f_equal; lra).
  rewrite notnan_fopp. destruct (notnan b); simpl.
  - unfold fsum in *. simpl. rewrite IH, fmul_opp_r. apply fadd_opp.
  - apply IH.
Qed.

Lemma sign_box_mean_flip m k :
  sign_box_mean (flip_mode k m) k = fopp (sign_box_mean m k).
Proof.
  unfold sign_box_mean. destruct k; simpl; apply pattern_mean_opp.
Qed.

Lemma correction_factor_flip m k :
  signed (sign_box_mean m k) ->
  correction_factor (flip_mode k m) k = fopp (correction_factor m k).
Proof.
  intros H. unfold correction_factor.
  rewrite sign_box_mean_flip, fgt_zero_fopp by exact H.
  destruct (fgt (sign_box_mean m k) (Fin 0)); simpl; f_equal; lra.
Qed.

Lemma transform_flip m k f :
  transform (flip_mode k m) f k
  = map (fun p => (fst p, fopp (snd p))) (transform m f k).
Proof.
  unfold transform. rewrite map_map. apply map_ext. intros [t x]; simpl.
  f_equal. destruct k; simpl; apply inner_opp.
Qed.

Lemma principal_components_flip_other m k j f :
  k <> j ->
  principal_components (flip_mode k m) f j = principal_components m f j.
Proof. destruct k, j; intros H; try (now contradiction H); reflexivity. Qed.

Lemma principal_components_flip m k f :
  signed (sign_box_mean m k) ->
  principal_components (flip_mode k m) f k = principal_components m f k.
Proof.
  intros H. unfold principal_components.
  rewrite correction_factor_flip by exact H.
  rewrite transform_flip.
  replace (scale_factor (flip_mode k m) k) with (scale_factor m k)
    by (destruct k; reflexivity).
  unfold scale. rewrite !map_map. apply map_ext. intros [t v]; simpl.
  f_equal. now rewrite fmul_opp_l, fmul_opp_l, fmul_opp_r, fopp_involutive.
Qed.

Lemma principal_components_flip_all m k f :
  signed (sign_box_mean m k) ->
  forall j, principal_components (flip_mode k m) f j = principal_components m f j.
Proof.
  intros H j. destruct k, j;
    try (apply principal_components_flip; exact H);
    apply principal_components_flip_other; discriminate.
Qed.

End SignFacts.

(** ** Facts about time stamps *)

Module CalendarFacts.

Import Calendar Tactics.

Local Open Scope Z_scope.

Lemma date_eqb_eq a b : date_eqb a b = true <-> a = b.
Proof.
  unfold date_eqb. rewrite !andb_true_iff, !Z.eqb_eq. split.
  - destruct a, b; simpl. intros [[-> ->] ->]. reflexivity.
  - intros ->. auto.
Qed.

Lemma date_ltb_iff a b :
  date_ltb a b = true <->
  (year a < year b
   \/ (year a = year b
       /\ (month a < month b \/ (month a = month b /\ day a < day b)))).
Proof.
  unfold date_ltb.
  repeat first [ rewrite orb_true_iff | rewrite andb_true_iff
               | rewrite Z.ltb_lt | rewrite Z.eqb_eq ].
  tauto.
Qed.

Lemma date_leb_iff a b :
  date_leb a b = true <->
  (year a < year b
   \/ (year a = year b
       /\ (month a < month b \/ (month a = month b /\ day a <= day b)))).
Proof.
  unfold date_leb. rewrite negb_true_iff, <- not_true_iff_false, date_ltb_iff.
  lia.
Qed.

Lemma date_leb_refl a : date_leb a a = true.
Proof. apply date_leb_iff. lia. Qed.

Lemma date_leb_trans a b c :
  date_leb a b = true -> date_leb b c = true -> date_leb a c = true.
Proof. rewrite !date_leb_iff. lia. Qed.

Lemma date_leb_total a b : date_leb a b = true \/ date_leb b a = true.
Proof. rewrite !date_leb_iff. lia. Qed.

Lemma is_djf_iff d :
  is_djf d = true <-> month d = 12 \/ month d = 1 \/ month d = 2.
Proof.
  unfold is_djf; simpl. rewrite orb_false_r.
  repeat first [ rewrite orb_true_iff | rewrite Z.eqb_eq ]. tauto.
Qed.

(** A winter month belongs to the quarter that starts in the December
    before the January of its season. *)
Lemma quarter_start_djf d :
  is_djf d = true -> quarter_start d = mkdate (january_year d - 1) 12 1.
Proof.
  rewrite is_djf_iff. unfold quarter_start, january_year.
  intros [H | [H | H]]; rewrite H; simpl; f_equal; lia.
Qed.

Lemma add_one_year_december y :
  add_years 1 (mkdate y 12 1) = mkdate (y + 1) 12 1.
Proof. reflexivity. Qed.

Lemma of_month_index_december y :
  of_month_index (12 * y + 11) = mkdate y 12 1.
Proof. unfold of_month_index. f_equal; zdiv. Qed.

Lemma january_year_leb a b :
  is_djf a = true -> is_djf b = true -> date_leb a b = true ->
  january_year a <= january_year b.
Proof.
  rewrite !is_djf_iff, date_leb_iff. unfold january_year.
  intros Ha Hb H.
  destruct (Z.eqb_spec (month a) 12), (Z.eqb_spec (month b) 12); lia.
Qed.

(** The quarters of a range that start in December, year by year. *)
Lemma quarter_range_december y0 y y1 :
  y0 <= y <= y1 ->
  In (mkdate y 12 1) (quarter_range (mkdate y0 12 1) (mkdate y1 12 1)).
Proof.
  intros H. unfold quarter_range, month_index. cbn [year month].
  apply in_map_iff. exists (Z.to_nat (4 * (y - y0))). split.
  - rewrite Z2Nat.id by lia.
    replace (12 * y0 + (12 - 1) + 3 * (4 * (y - y0))) with (12 * y + 11) by lia.
    apply of_month_index_december.
  - apply in_seq. split; [lia|]. rewrite Nat.add_0_l.
    apply Nat2Z.inj_lt. rewrite !Z2Nat.id; zdiv.
Qed.

End CalendarFacts.

(** ** Facts about the seasonal means *)

Module SeriesFacts.

Import Float Calendar Series FloatFacts CalendarFacts.

Local Open Scope Z_scope.

Lemma fold_date_min_spec t ts :
  In (fold_right date_min t ts) (t :: ts)
  /\ forall x, In x (t :: ts) -> date_leb (fold_right date_min t ts) x = true.
Proof.
  induction ts as [|a ts [IHin IHle]]; simpl.
  - split; [auto|]. intros x [<- | []]. apply date_leb_refl.
  - generalize dependent (fold_right date_min t ts). intros m IHin IHle.
    unfold date_min. destruct (date_leb a m) eqn:E.
    + split; [auto|]. intros x [<- | [<- | Hx]].
      * apply date_leb_trans with m; [exact E|].
        apply IHle. now left.
      * apply date_leb_refl.
      * apply date_leb_trans with m; [exact E|].
        apply IHle. now right.
    + split.
      * destruct IHin as [H | H]; [left; exact H | right; right; exact H].
      * intros x [<- | [<- | Hx]].
        -- apply IHle. now left.
        -- destruct (date_leb_total a m) as [H | H];
             [congruence | exact H].
        -- apply IHle. now right.
Qed.

Lemma fold_date_max_spec t ts :
  In (fold_right date_max t ts) (t :: ts)
  /\ forall x, In x (t :: ts) -> date_leb x (fold_right date_max t ts) = true.
Proof.
  induction ts as [|a ts [IHin IHle]]; simpl.
  - split; [auto|]. intros x [<- | []]. apply date_leb_refl.
  - generalize dependent (fold_right date_max t ts). intros m IHin IHle.
    unfold date_max. destruct (date_leb a m) eqn:E.
    + split.
      * destruct IHin as [H | H]; [left; exact H | right; right; exact H].
      * intros x [<- | [<- | Hx]].
        -- apply IHle. now left.
        -- exact E.
        -- apply IHle. now right.
    + assert (E' : date_leb m a = true).
      { destruct (date_leb_total a m); congruence. }
      split; [auto|]. intros x [<- | [<- | Hx]].
      * apply date_leb_trans with m; [|exact E'].
        apply IHle. now left.
      * apply date_leb_refl.
      * apply date_leb_trans with m; [|exact E'].
        apply IHle. now right.
Qed.

Lemma in_times (s : series) t : In t (times s) <-> exists x, In (t, x) s.
Proof.
  unfold times. rewrite in_map_iff. split.
  - intros [[t' x] [<- H]]. now exists x.
  - intros [x H]. now exists (t, x).
Qed.

Lemma in_sel_where keep (s : series) t x :
  In (t, x) (sel_where keep s) <-> In (t, x) s /\ keep t = true.
Proof. unfold sel_where. now rewrite filter_In. Qed.

Lemma in_bin_values b (s : series) x :
  In x (bin_values b s) <-> exists t, In (t, x) s /\ quarter_start t = b.
Proof.
  unfold bin_values, values. rewrite in_map_iff. split.
  - intros [[t x'] [<- H]]. apply in_sel_where in H. destruct H as [H E].
    apply date_eqb_eq in E. now exists t.
  - intros [t [H E]]. exists (t, x). split; [reflexivity|].
    apply in_sel_where. split; [exact H|]. now apply date_eqb_eq.
Qed.

Lemma notnan_nanmean_inv l :
  notnan (nanmean l) = true -> exists x, In x l /\ notnan x = true.
Proof.
  unfold nanmean. destruct (filter notnan l) as [|x v] eqn:E.
  - discriminate.
  - intros _. exists x. apply filter_In. rewrite E. now left.
Qed.

Lemma in_resample (s : series) b v :
  In (b, v) (resample_QS_DEC_mean s) -> v = nanmean (bin_values b s).
Proof.
  unfold resample_QS_DEC_mean. destruct (times s) as [|t ts]; [intros []|].
  rewrite in_map_iff. intros [b' [E _]]. now inversion E.
Qed.

Lemma in_djf_means_inv pc d v :
  In (d, v) (djf_means pc) ->
  exists b, d = add_years 1 b
            /\ date_leb (year_first 1980) b = true
            /\ notnan v = true
            /\ v = nanmean (bin_values b (sel_where is_djf pc)).
Proof.
  unfold djf_means, shift_one_year, sel_from_year. rewrite in_map_iff.
  intros [[b v'] [E H]]. simpl in E. inversion E; subst; clear E.
  apply in_sel_where in H. destruct H as [H Hy].
  unfold dropna in H. apply filter_In in H. destruct H as [H Hn]. simpl in Hn.
  exists b. repeat split; try assumption. now apply in_resample.
Qed.

(** Every December-January-February mean that reaches the fit is the mean
    of the values present in one season, stamped the first of December of
    the season's January year. *)
Lemma in_djf_means_season pc d v :
  In (d, v) (djf_means pc) ->
  exists y, d = mkdate y 12 1 /\ 1981 <= y
            /\ notnan v = true
            /\ v = nanmean (bin_values (mkdate (y - 1) 12 1) (sel_where is_djf pc))
            /\ exists t x, In (t, x) pc /\ is_djf t = true
                           /\ notnan x = true /\ january_year t = y.
Proof.
  intros H. apply in_djf_means_inv in H.
  destruct H as (b & -> & Hy & Hn & Hv).
  assert (Hx := Hn). rewrite Hv in Hx. apply notnan_nanmean_inv in Hx.
  destruct Hx as (x & Hx & Hnx). apply in_bin_values in Hx.
  destruct Hx as (t & Ht & Hq). apply in_sel_where in Ht. destruct Ht as [Ht Hd].
  rewrite (quarter_start_djf t Hd) in Hq. subst b.
  exists (january_year t). rewrite add_one_year_december.
  repeat split.
  - f_equal. lia.
  - apply date_leb_iff in Hy. simpl in Hy. lia.
  - exact Hn.
  - exact Hv.
  - exists t, x. auto.
Qed.

(** Conversely a season from December 1980 on with one value present has
    its mean in the series. *)
Lemma in_djf_means_intro pc y :
  1981 <= y ->
  notnan (nanmean (bin_values (mkdate (y - 1) 12 1) (sel_where is_djf pc))) = true ->
  In (mkdate y 12 1,
      nanmean (bin_values (mkdate (y - 1) 12 1) (sel_where is_djf pc)))
     (djf_means pc).
Proof.
  intros Hy Hn. set (s := sel_where is_djf pc) in *.
  set (b := mkdate (y - 1) 12 1) in *.
  destruct (notnan_nanmean_inv _ Hn) as (x & Hx & _).
  apply in_bin_values in Hx. destruct Hx as (t & Ht & Hq).
  assert (Hdjf : forall u, In u (times s) -> is_djf u = true).
  { intros u Hu. apply in_times in Hu. destruct Hu as [z Hz].
    apply in_sel_where in Hz. tauto. }
  assert (Htt : In t (times s)) by (apply in_times; now exists x).
  unfold djf_means, shift_one_year.
  apply in_map_iff. exists (b, nanmean (bin_values b s)). split.
  { simpl. unfold b. rewrite add_one_year_december. do 2 f_equal. lia. }
  apply in_sel_where. split.
  2:{ apply date_leb_iff. simpl. lia. }
  apply filter_In. split; [|exact Hn].
  fold s. unfold resample_QS_DEC_mean.
  destruct (times s) as [|t0 ts] eqn:E; [destruct Htt|].
  apply in_map_iff. exists b. split; [reflexivity|].
  destruct (fold_date_min_spec t0 ts) as [Hmi Hml].
  destruct (fold_date_max_spec t0 ts) as [HMi HMl].
  rewrite (quarter_start_djf _ (Hdjf _ Hmi)).
  rewrite (quarter_start_djf _ (Hdjf _ HMi)).
  assert (Hb : b = mkdate (january_year t - 1) 12 1).
  { rewrite <- Hq. apply quarter_start_djf. now apply Hdjf. }
  rewrite Hb. apply quarter_range_december.
  pose proof (january_year_leb _ _ (Hdjf _ Hmi) (Hdjf _ Htt) (Hml _ Htt)).
  pose proof (january_year_leb _ _ (Hdjf _ Htt) (Hdjf _ HMi) (HMl _ Htt)).
  lia.
Qed.

(** A series without a single number has no seasonal mean at all. *)
Lemma dropna_resample_all_nan (s : series) :
  Forall (fun p => snd p = NaN) s -> dropna (resample_QS_DEC_mean s) = [].
Proof.
  intros H. unfold dropna.
  destruct (filter _ (resample_QS_DEC_mean s)) as [|[b v] l] eqn:E;
    [reflexivity | exfalso].
  assert (Hin : In (b, v) (filter (fun p => notnan (snd p)) (resample_QS_DEC_mean s)))
    by (rewrite E; now left).
  apply filter_In in Hin. destruct Hin as [Hin Hn]. simpl in Hn.
  apply in_resample in Hin. subst v.
  apply notnan_nanmean_inv in Hn. destruct Hn as (x & Hx & Hnx).
  apply in_bin_values in Hx. destruct Hx as (t & Ht & _).
  rewrite Forall_forall in H. specialize (H _ Ht). simpl in H. now subst x.
Qed.

Lemma djf_means_all_nan (s : series) :
  Forall (fun p => snd p = NaN) s -> djf_means s = [].
Proof.
  intros H. unfold djf_means.
  rewrite dropna_resample_all_nan; [reflexivity|].
  unfold sel_where. rewrite Forall_forall in *. intros p Hp.
  apply filter_In in Hp. now apply H.
Qed.

End SeriesFacts.

(** ** The small run, step by step *)

Module DemoFacts.

Import Float Calendar Series Grid Result Xeofs Kernels Numpy Takahashi Demo.
Import FloatFacts GridFacts CalendarFacts SeriesFacts.

Local Open Scope R_scope.

Lemma winter_in_box x :
  sel_box (-20 # 1) (20 # 1) (100 # 1) (280 # 1) (winter x) = winter x.
Proof. reflexivity. Qed.

Lemma winter_in_period x : sel_time winter_period (winter x) = winter x.
Proof. reflexivity. Qed.

Lemma scale_factor_one m k :
  explained_variance m k = Fin 1 -> scale_factor m k = Fin 1.
Proof.
  intros H. unfold scale_factor. rewrite H, fsqrt_fin by lra.
  rewrite sqrt_1, fdiv_fin by lra. f_equal. lra.
Qed.

Lemma sign_box_mean_two_point a b m k :
  components m k = pattern_of a b ->
  sign_box_mean m k = Fin ((a + b) / 2).
Proof.
  intros H. unfold sign_box_mean. rewrite H.
  change (pattern_mean _) with (nanmean (map Fin [a; b])).
  rewrite nanmean_fin. simpl. f_equal. lra.
Qed.

Lemma winter_transform x a b m k :
  components m k = pattern_of a b -> prepare m = (fun g => g) ->
  transform m (winter x) k = steady (Fin (x * a)).
Proof.
  intros H P.
  assert (Hin : inner [[Fin x; Fin 0]] [[Fin a; Fin b]] = Fin (x * a))
    by (unfold inner, fsum; simpl; f_equal; lra).
  unfold transform. rewrite H, P.
  cbn [winter time data combine map fst snd pvalues pattern_of].
  now rewrite Hin.
Qed.

Lemma winter_components x a b c m k :
  components m k = pattern_of a b -> prepare m = (fun g => g) ->
  explained_variance m k = Fin 1 -> correction_factor m k = Fin c ->
  principal_components m (winter x) k = steady (Fin (x * a * c)).
Proof.
  intros H P V C. unfold principal_components.
  rewrite (winter_transform x a b m k H P), (scale_factor_one m k V), C.
  unfold scale, steady; simpl. repeat (f_equal; try lra).
Qed.

Lemma djf_means_three a1 a2 a3 :
  djf_means [(first_of 1980 12, a1); (first_of 1981 1, a2); (first_of 1981 2, a3)]
  = if notnan (nanmean [a1; a2; a3])
    then [(first_of 1981 12, nanmean [a1; a2; a3])] else [].
Proof.
  cbv -[nanmean notnan]. now destruct (notnan (nanmean [a1; a2; a3])).
Qed.

Lemma djf_means_steady v :
  djf_means (steady (Fin v)) = [(first_of 1981 12, Fin v)].
Proof.
  unfold steady. rewrite djf_means_three.
  change [Fin v; Fin v; Fin v] with (map Fin [v; v; v]).
  rewrite nanmean_fin. simpl. repeat f_equal. lra.
Qed.

Lemma winter_run m c x v1 v2 :
  principal_components m (winter x) mode1 = steady (Fin v1) ->
  principal_components m (winter x) mode2 = steady (Fin v2) ->
  exists out,
    compute_index (B := fixed_backend m c) (winter x) winter_period = Ok out
    /\ pcs out = (steady (Fin v1), steady (Fin v2))
    /\ E_index out = rotate fsub (steady (Fin v1)) (steady (Fin v2))
    /\ alpha out = snd c.
Proof.
  intros H1 H2. unfold compute_index.
  rewrite winter_in_box, winter_in_period.
  cbn [eof_fit fixed_backend winter time length Nat.ltb Nat.leb bind].
  unfold index_of_model. rewrite H1, H2, !djf_means_steady.
  unfold compute_alpha. cbn -[Zceil Rdiv].
  eexists. repeat split; reflexivity.
Qed.

End DemoFacts.

(** ** Facts about the index computation *)

Module IndexFacts.

Import Float Calendar Series Grid Result Xeofs Kernels Numpy Takahashi.
Import FloatFacts GridFacts SignFacts.

Local Open Scope R_scope.

Section WithBackend.

Context {B : Backend}.

Lemma compute_index_inv f bp out :
  compute_index f bp = Ok out ->
  let box := sel_box (-20 # 1) (20 # 1) (100 # 1) (280 # 1) f in
  exists m, eof_fit (sel_time bp box) = Ok m /\ index_of_model m box = Ok out.
Proof.
  unfold compute_index. simpl.
  destruct (eof_fit _) as [m|e]; simpl; [|discriminate].
  intros H. now exists m.
Qed.

Lemma index_of_model_inv m f out :
  index_of_model m f = Ok out ->
  let pc1 := principal_components m f mode1 in
  let pc2 := principal_components m f mode2 in
  pcs out = (pc1, pc2)
  /\ E_index out = rotate fsub pc1 pc2
  /\ C_index out = rotate fadd pc1 pc2
  /\ pcs_djf out = concat_mode (djf_means pc1) (djf_means pc2)
  /\ compute_alpha (djf_means pc1) (djf_means pc2)
     = Ok (alpha out, xfit out, fit out).
Proof.
  unfold index_of_model. simpl.
  destruct (compute_alpha _ _) as [[[a xs] ys]|e]; simpl; [|discriminate].
  intros H. inversion H; subst; clear H. simpl. auto.
Qed.

(** The series the fit of alpha is run on are the seasonal means of the
    two components. *)
Lemma fit_runs_on_djf_means f bp out :
  compute_index f bp = Ok out ->
  compute_alpha (djf_means (fst (pcs out))) (djf_means (snd (pcs out)))
  = Ok (alpha out, xfit out, fit out).
Proof.
  intros H. apply compute_index_inv in H. destruct H as (m & _ & H).
  apply index_of_model_inv in H. destruct H as (Hp & _ & _ & _ & Ha).
  now rewrite Hp.
Qed.

End WithBackend.

Lemma nth_error_rotate op a b i :
  nth_error (rotate op a b) i
  = match nth_error a i, nth_error b i with
    | Some p, Some q => Some (fst p, fdiv (op (snd p) (snd q)) two_pow_half)
    | _, _ => None
    end.
Proof.
  unfold rotate. revert b i.
  induction a as [|p a IH]; intros [|q b] [|i]; simpl; try reflexivity.
  - now destruct (nth_error a i).
  - apply IH.
Qed.

Lemma map_fst_combine_eq {A C : Type} (a : list A) (b : list C) :
  length b = length a -> map fst (combine a b) = a.
Proof.
  revert b. induction a as [|x a IH]; intros [|y b] H; simpl in *;
    try discriminate; try reflexivity.
  f_equal. apply IH. lia.
Qed.

Lemma times_scale c s : times (scale c s) = times s.
Proof. unfold times, scale. rewrite map_map. now apply map_ext. Qed.

Lemma times_transform m f k :
  length (data f) = length (time f) -> times (transform m f k) = time f.
Proof.
  intros H. unfold times, transform. rewrite map_map. simpl.
  now apply map_fst_combine_eq.
Qed.

Lemma times_principal_components m f k :
  length (data f) = length (time f) ->
  times (principal_components m f k) = time f.
Proof.
  intros H. unfold principal_components.
  now rewrite !times_scale, times_transform.
Qed.

Lemma times_rotate op a b :
  length b = length a -> times (rotate op a b) = times a.
Proof.
  intros H. unfold times, rotate. rewrite map_map. simpl.
  rewrite <- map_map with (f := fst) (g := fst).
  now rewrite map_fst_combine_eq.
Qed.

Lemma length_principal_components m f k :
  length (principal_components m f k) = length (combine (time f) (data f)).
Proof.
  unfold principal_components, scale, transform. now rewrite !length_map.
Qed.

End IndexFacts.

(** ** The small run, evaluated *)

Module DemoRun.

Import Float Calendar Series Grid Result Xeofs Kernels Numpy Takahashi Props Demo.
Import FloatFacts GridFacts SignFacts CalendarFacts SeriesFacts DemoFacts IndexFacts.

Local Open Scope R_scope.

Lemma two_point_factor_1 : correction_factor two_point_model mode1 = Fin 1.
Proof.
  unfold correction_factor.
  rewrite (sign_box_mean_two_point 1 1) by reflexivity.
  now rewrite fgt_fin_true by lra.
Qed.

Lemma two_point_factor_2 : correction_factor two_point_model mode2 = Fin (-1).
Proof.
  unfold correction_factor.
  rewrite (sign_box_mean_two_point 1 (-1)) by reflexivity.
  now rewrite fgt_fin_false by lra.
Qed.

Lemma flipped_factor_2 :
  correction_factor (flip_mode mode2 two_point_model) mode2 = Fin (-1).
Proof.
  unfold correction_factor.
  rewrite (sign_box_mean_two_point (- 1) (- -1)) by reflexivity.
  now rewrite fgt_fin_false by lra.
Qed.

Lemma two_point_pc1 x :
  principal_components two_point_model (winter x) mode1 = steady (Fin (x * 1 * 1)).
Proof.
  apply (winter_components x 1 1); try reflexivity. apply two_point_factor_1.
Qed.

Lemma two_point_pc2 x :
  principal_components two_point_model (winter x) mode2
  = steady (Fin (x * 1 * -1)).
Proof.
  apply (winter_components x 1 (-1)); try reflexivity. apply two_point_factor_2.
Qed.

Lemma flipped_pc1 x :
  principal_components (flip_mode mode2 two_point_model) (winter x) mode1
  = steady (Fin (x * 1 * 1)).
Proof. apply two_point_pc1. Qed.

Lemma flipped_pc2 x :
  principal_components (flip_mode mode2 two_point_model) (winter x) mode2
  = steady (Fin (x * - 1 * -1)).
Proof.
  apply (winter_components x (- 1) (- -1)); try reflexivity.
  apply flipped_factor_2.
Qed.

Lemma demo_run x :
  exists out,
    compute_index (B := demo_backend) (winter x) winter_period = Ok out
    /\ pcs out = (steady (Fin (x * 1 * 1)), steady (Fin (x * 1 * -1)))
    /\ E_index out
       = rotate fsub (steady (Fin (x * 1 * 1))) (steady (Fin (x * 1 * -1))).
Proof.
  destruct (winter_run two_point_model third x _ _ (two_point_pc1 x) (two_point_pc2 x))
    as (out & H & P & E & _).
  now exists out.
Qed.

Lemma demo_run_flipped x :
  exists out,
    compute_index (B := opposite_sign mode2 demo_backend) (winter x) winter_period
    = Ok out
    /\ pcs out = (steady (Fin (x * 1 * 1)), steady (Fin (x * - 1 * -1)))
    /\ E_index out
       = rotate fsub (steady (Fin (x * 1 * 1))) (steady (Fin (x * - 1 * -1))).
Proof.
  destruct (winter_run (flip_mode mode2 two_point_model) third x _ _
              (flipped_pc1 x) (flipped_pc2 x)) as (out & H & P & E & _).
  exists out. split; [|now split]. rewrite <- H. reflexivity.
Qed.

End DemoRun.

(** ** The rotation *)

Module Rotation.

Import Float Calendar Series Grid Result Xeofs Kernels Numpy Takahashi Props Demo.
Import FloatFacts IndexFacts DemoRun.

Local Open Scope R_scope.

(** C1. Whenever [compute_index] returns, its principal components are the
    projections of the whole series on the fitted patterns, scaled and
    sign-corrected; at every position of the time axis the E index is
    [(PC1 - PC2) / sqrt 2] and the C index is [(PC1 + PC2) / sqrt 2], under
    the time stamp of the components; and all four series run over the
    whole time axis of the input. *)
Theorem E_and_C_rotate_the_components (B : Backend) f bp out :
  compute_index f bp = Ok out ->
  (exists m,
     eof_fit (sel_time bp (sel_box (-20 # 1) (20 # 1) (100 # 1) (280 # 1) f)) = Ok m
     /\ forall k, (match k with mode1 => fst | mode2 => snd end) (pcs out)
        = principal_components m (sel_box (-20 # 1) (20 # 1) (100 # 1) (280 # 1) f) k)
  /\ (forall i t p1 t' p2,
        nth_error (fst (pcs out)) i = Some (t, p1) ->
        nth_error (snd (pcs out)) i = Some (t', p2) ->
        nth_error (E_index out) i = Some (t, fdiv (fsub p1 p2) (Fin (sqrt 2)))
        /\ nth_error (C_index out) i = Some (t, fdiv (fadd p1 p2) (Fin (sqrt 2))))
  /\ (length (data f) = length (time f) ->
      times (fst (pcs out)) = time f /\ times (snd (pcs out)) = time f
      /\ times (E_index out) = time f /\ times (C_index out) = time f).
Proof.
  intros H. apply compute_index_inv in H. simpl in H.
  destruct H as (m & Hfit & H). apply index_of_model_inv in H. simpl in H.
  destruct H as (Hp & He & Hc & _).
  set (box := sel_box _ _ _ _ f) in *.
  rewrite Hp, He, Hc. simpl. split; [|split].
  - exists m. split; [exact Hfit|]. now intros [|].
  - intros i t p1 t' p2 H1 H2.
    rewrite !nth_error_rotate, H1, H2, two_pow_half_sqrt. now simpl.
  - intros L.
    assert (Lb : length (data box) = length (time box))
      by (unfold box; simpl; now rewrite length_map).
    assert (Ht : forall k, times (principal_components m box k) = time f)
      by (intros k; now rewrite times_principal_components).
    rewrite !times_rotate, !Ht; [tauto | |];
      now rewrite !length_principal_components.
Qed.

Lemma E_and_C_rotate_the_components_witness :
  exists out,
    compute_index (B := demo_backend) (winter 1) winter_period = Ok out
    /\ nth_error (E_index out) 0
       = Some (first_of 1980 12,
               fdiv (fsub (Fin (1 * 1 * 1)) (Fin (1 * 1 * -1))) (Fin (sqrt 2)))
    /\ times (C_index out) = time (winter 1).
Proof.
  destruct (demo_run 1) as (out & H & P & _).
  exists out. split; [exact H|].
  destruct (E_and_C_rotate_the_components demo_backend _ _ _ H) as (_ & Hi & Ht).
  split.
  - apply (Hi 0%nat (first_of 1980 12) _ (first_of 1980 12) (Fin (1 * 1 * -1)));
      rewrite P; reflexivity.
  - apply Ht. reflexivity.
Defined.







End Rotation.

(** ** The sign of the patterns *)

Module SignConvention.

Import Float Calendar Series Grid Result Xeofs Kernels Numpy Takahashi Props Demo.
Import FloatFacts GridFacts SignFacts IndexFacts DemoFacts DemoRun.

Local Open Scope R_scope.

Lemma index_of_model_flip (B : Backend) m k f :
  signed (sign_box_mean m k) ->
  index_of_model (flip_mode k m) f = index_of_model m f.
Proof.
  intros H. unfold index_of_model.
  now rewrite !(principal_components_flip_all m k f H).
Qed.

(** C2, as the code has it.  Let the decomposition return the pattern of
    one mode with the other sign.  If, for the model it fits, the mean of
    that pattern over 5S-5N, 140E-180E is a number other than zero, the correction
    factor changes sign with the pattern and [compute_index] returns the
    same result: the same components, E, C, seasonal means and alpha. *)
Theorem opposite_pattern_same_index (B : Backend) k f bp :
  (forall m,
     eof_fit (sel_time bp (sel_box (-20 # 1) (20 # 1) (100 # 1) (280 # 1) f)) = Ok m ->
     signed (sign_box_mean m k)) ->
  compute_index (B := opposite_sign k B) f bp = compute_index (B := B) f bp.
Proof.
  intros H. unfold compute_index. cbn [eof_fit opposite_sign].
  destruct (eof_fit _) as [m|e] eqn:E; cbn [bind]; [|reflexivity].
  rewrite <- (index_of_model_flip B m k _ (H m eq_refl)).
  reflexivity.
Qed.

Lemma opposite_pattern_same_index_witness :
  compute_index (B := opposite_sign mode1 demo_backend) (winter 1) winter_period
  = compute_index (B := demo_backend) (winter 1) winter_period.
Proof.
  apply opposite_pattern_same_index.
  intros m H. rewrite winter_in_box, winter_in_period in H.
  injection H as <-.
  rewrite (sign_box_mean_two_point 1 1) by reflexivity.
  simpl. lra.
Defined.

(** C2 as stated fails: the second pattern of the demonstration model has
    a zero mean over the box, both signs of it get the factor -1, and the
    E index follows the sign the decomposition happened to return. *)
Lemma opposite_pattern_of_zero_mean_changes_E :
  exists out out',
    compute_index (B := demo_backend) (winter 1) winter_period = Ok out
    /\ compute_index (B := opposite_sign mode2 demo_backend) (winter 1)
         winter_period = Ok out'
    /\ E_index out <> E_index out'.
Proof.
  destruct (demo_run 1) as (out & H & _ & E).
  destruct (demo_run_flipped 1) as (out' & H' & _ & E').
  exists out, out'. split; [exact H|]. split; [exact H'|].
  rewrite E, E'.
  unfold rotate, steady. rewrite two_pow_half_sqrt.
  cbn [combine map fst snd fsub fopp fadd].
  pose proof sqrt2_pos as Hs.
  rewrite !fdiv_fin by lra.
  intros Heq. injection Heq as Heq _ _.
  apply Rmult_eq_reg_r in Heq; [lra|].
  apply Rinv_neq_0_compat. lra.
Qed.

(** C9, as the code has it.  The correction factor of a mode is 1 or -1; it
    is 1 exactly when the mean of the pattern over 5S-5N, 140E-180E is greater
    than zero and -1 exactly when it is not, so a zero mean and a missing
    one get -1 like a negative one; and whenever that mean is a number other
    than zero, the mean of the pattern times its factor over the same box is
    greater than zero. *)
Theorem correction_factor_follows_sign_test m k :
  (correction_factor m k = Fin 1 \/ correction_factor m k = Fin (-1))
  /\ (correction_factor m k = Fin 1 <-> fgt (sign_box_mean m k) (Fin 0) = true)
  /\ (correction_factor m k = Fin (-1) <-> fgt (sign_box_mean m k) (Fin 0) = false)
  /\ (signed (sign_box_mean m k) ->
      fgt (pattern_mean
             (sel_box_pattern (-5 # 1) (5 # 1) (140 # 1) (180 # 1)
                (corrected_pattern m k)))
          (Fin 0) = true).
Proof.
  split; [apply correction_factor_values|]. split; [|split].
  - unfold correction_factor. destruct (fgt _ _); split; intros H;
      try reflexivity; try discriminate.
    injection H as H. lra.
  - unfold correction_factor. destruct (fgt _ _); split; intros H;
      try reflexivity; try discriminate.
    injection H as H. lra.
  - intros S. unfold corrected_pattern, correction_factor.
    destruct (fgt (sign_box_mean m k) (Fin 0)) eqn:E.
    + replace (map (map (fun x => fmul x (Fin 1))) (pvalues (components m k)))
        with (pvalues (components m k)).
      * exact E.
      * rewrite <- (map_id (pvalues (components m k))) at 1.
        apply map_ext. intros row. rewrite <- (map_id row) at 1.
        apply map_ext. intros x. now rewrite fmul_one.
    + replace (map (map (fun x => fmul x (Fin (-1)))) (pvalues (components m k)))
        with (opp_grid (pvalues (components m k))).
      * change {| plat := _; plon := _; pvalues := _ |}
          with (opp_pattern (components m k)).
        rewrite pattern_mean_opp.
        change (pattern_mean _) with (sign_box_mean m k).
        rewrite fgt_zero_fopp by exact S. now rewrite E.
      * unfold opp_grid. apply map_ext. intros row.
        apply map_ext. intros x. now rewrite fmul_minus_one.
Qed.

Lemma correction_factor_follows_sign_test_witness :
  correction_factor two_point_model mode1 = Fin 1
  /\ fgt (pattern_mean
            (sel_box_pattern (-5 # 1) (5 # 1) (140 # 1) (180 # 1)
               (corrected_pattern two_point_model mode1)))
         (Fin 0) = true.
Proof.
  destruct (correction_factor_follows_sign_test two_point_model mode1)
    as (_ & H1 & _ & H2).
  assert (M : sign_box_mean two_point_model mode1 = Fin ((1 + 1) / 2))
    by (now apply sign_box_mean_two_point).
  split.
  - apply H1. rewrite M. apply fgt_fin_true. lra.
  - apply H2. rewrite M. simpl. lra.
Defined.

(** C9 as stated fails on a pattern whose mean over the box is zero: the
    mean is not negative, the factor is -1 all the same, and the mean is not
    positive after the correction. *)
Lemma zero_mean_pattern_is_flipped :
  sign_box_mean two_point_model mode2 = Fin 0
  /\ fgt (Fin 0) (sign_box_mean two_point_model mode2) = false
  /\ correction_factor two_point_model mode2 = Fin (-1)
  /\ fgt (pattern_mean
            (sel_box_pattern (-5 # 1) (5 # 1) (140 # 1) (180 # 1)
               (corrected_pattern two_point_model mode2)))
         (Fin 0) = false.
Proof.
  assert (M : sign_box_mean two_point_model mode2 = Fin 0).
  { rewrite (sign_box_mean_two_point 1 (-1)) by reflexivity. f_equal. lra. }
  split; [exact M|]. rewrite M. split; [apply fgt_fin_false; lra|].
  split; [apply two_point_factor_2|].
  unfold corrected_pattern. rewrite two_point_factor_2.
  change (pattern_mean _)
    with (nanmean [fmul (Fin 1) (Fin (-1)); fmul (Fin (-1)) (Fin (-1))]).
  cbn [fmul]. change [Fin (1 * -1); Fin (-1 * -1)] with (map Fin [1 * -1; -1 * -1]).
  rewrite nanmean_fin. apply fgt_fin_false. simpl. lra.
Qed.

End SignConvention.

(** ** What lies outside the tropical Pacific box *)

Module Locality.

Import Float Calendar Series Grid Result Xeofs Kernels Numpy Takahashi Props Demo.
Import GridFacts.

(** C10. Two well-formed fields with the same axes that agree at every grid
    point of 20S-20N, 100E-280E give the same outcome of [compute_index]:
    the same error, or the same E, C, components, seasonal means, alpha and
    fitted curve. *)
Theorem values_outside_the_box_are_ignored (B : Backend) f g bp :
  wf_field f -> wf_field g ->
  agree_in_box (-20 # 1) (20 # 1) (100 # 1) (280 # 1) f g ->
  compute_index f bp = compute_index g bp.
Proof.
  intros Wf Wg H. unfold compute_index.
  now rewrite (sel_box_agree _ _ _ _ f g Wf Wg H).
Qed.

Lemma winter_and_beyond_wf x far : wf_field (winter_and_beyond x far).
Proof.
  split; [reflexivity|].
  repeat constructor.
Qed.

Lemma values_outside_the_box_are_ignored_witness :
  compute_index (B := demo_backend) (winter_and_beyond 1 5) winter_period
  = compute_index (B := demo_backend) (winter_and_beyond 1 7) winter_period.
Proof.
  apply values_outside_the_box_are_ignored; try apply winter_and_beyond_wf.
  repeat split.
  intros t i j Ht Hi Hj _ Hlon.
  destruct i as [|i]; [|simpl in Hi; lia].
  destruct j as [|[|[|j]]]; try (simpl in Hj; lia);
    try discriminate Hlon;
    destruct t as [|[|[|t]]]; try (simpl in Ht; lia); reflexivity.
Defined.

End Locality.

(** ** The seasonal means handed to the fit *)

Module Seasons.

Import Float Calendar Series Grid Result Xeofs Kernels Numpy Takahashi Props Demo.
Import FloatFacts CalendarFacts SeriesFacts.

Local Open Scope Z_scope.

(** C6. Every seasonal mean [compute_index] hands to the fit (an entry of
    [djf_means] of a principal component, see [fit_runs_on_djf_means])
    carries a time stamp in the January year of its season: the months averaged in it are the winter
    months whose January year is the year of the stamp, which is one year
    after the first of December the season starts on.  So December 1999,
    January 2000 and February 2000 are stamped with the year 2000. *)
Theorem season_is_stamped_with_january_year pc d v :
  In (d, v) (djf_means pc) ->
  d = add_years 1 (mkdate (year d - 1) 12 1)
  /\ v = nanmean (bin_values (mkdate (year d - 1) 12 1) (sel_where is_djf pc))
  /\ (forall t, is_djf t = true ->
        (quarter_start t = mkdate (year d - 1) 12 1 <-> january_year t = year d))
  /\ (exists t x, In (t, x) pc /\ is_djf t = true /\ january_year t = year d).
Proof.
  intros H. apply in_djf_means_season in H.
  destruct H as (y & -> & Hy & Hn & Hv & t & x & Ht & Hd & Hx & Hj).
  cbn [year]. split.
  { rewrite add_one_year_december. f_equal. lia. }
  split; [exact Hv|]. split.
  - intros u Hu. rewrite (quarter_start_djf u Hu). split.
    + intros E. injection E as E. lia.
    + intros E. f_equal. lia.
  - exists t, x. auto.
Qed.

Lemma winter_of_2000_mean :
  In (mkdate 2000 12 1, nanmean [Fin 1; Fin 2; Fin 3])%R (djf_means winter_of_2000).
Proof.
  apply (in_djf_means_intro winter_of_2000 2000); [lia|].
  change (bin_values _ _) with (map Fin [1; 2; 3]%R).
  now rewrite nanmean_fin.
Qed.

Lemma season_is_stamped_with_january_year_witness :
  In (mkdate 2000 12 1, nanmean [Fin 1; Fin 2; Fin 3])%R (djf_means winter_of_2000)
  /\ (quarter_start (mkdate 1999 12 1) = mkdate (2000 - 1) 12 1
      <-> january_year (mkdate 1999 12 1) = 2000)
  /\ (quarter_start (mkdate 2000 2 1) = mkdate (2000 - 1) 12 1
      <-> january_year (mkdate 2000 2 1) = 2000).
Proof.
  split; [exact winter_of_2000_mean|].
  destruct (season_is_stamped_with_january_year _ _ _ winter_of_2000_mean)
    as (_ & _ & H & _).
  split; apply H; reflexivity.
Defined.




(** X1. The seasons are cut off on the first of December they start on, not
    on the year they are named after: no seasonal mean handed to the fit is
    stamped before 1981, and the season December 1979 - February 1980 is
    left out. *)
Theorem first_season_of_the_fit_is_1981 pc d v :
  In (d, v) (djf_means pc) -> 1981 <= year d.
Proof.
  intros H. apply in_djf_means_season in H.
  destruct H as (y & -> & Hy & _). exact Hy.
Qed.

Lemma first_season_of_the_fit_is_1981_witness : 1981 <= 2000.
Proof.
  exact (first_season_of_the_fit_is_1981 _ _ _ winter_of_2000_mean).
Defined.

Lemma season_of_1980_is_left_out a b c :
  djf_means [(first_of 1979 12, a); (first_of 1980 1, b); (first_of 1980 2, c)] = [].
Proof.
  cbv -[nanmean notnan]. now destruct (notnan (nanmean [a; b; c])).
Qed.

End Seasons.

(** ** The fit of alpha *)

Module AlphaFacts.

Import Float Calendar Series Grid Result Xeofs Kernels Numpy Takahashi Props.
Import FloatFacts.

Local Open Scope R_scope.

Lemma filter_notnan_finite l :
  Forall (fun v => isfinite v = true) l -> filter notnan l = l.
Proof.
  induction 1 as [|x l Hx _ IH]; simpl; [reflexivity|].
  destruct x; try discriminate. simpl. now rewrite IH.
Qed.

Lemma fold_fmin_finite a l :
  Forall (fun v => isfinite v = true) l ->
  exists r, fold_right fmin (Fin a) l = Fin r.
Proof.
  induction 1 as [|x l Hx _ (r & IH)]; simpl; [now exists a|].
  rewrite IH. destruct x as [b| | |]; try discriminate.
  unfold fmin. destruct (fgt (Fin b) (Fin r)); eauto.
Qed.

Lemma fold_fmax_finite a l :
  Forall (fun v => isfinite v = true) l ->
  exists r, fold_right fmax (Fin a) l = Fin r.
Proof.
  induction 1 as [|x l Hx _ (r & IH)]; simpl; [now exists a|].
  rewrite IH. destruct x as [b| | |]; try discriminate.
  unfold fmax. destruct (fgt (Fin r) (Fin b)); eauto.
Qed.

Lemma nanmin_finite l :
  l <> [] -> Forall (fun v => isfinite v = true) l -> exists r, nanmin l = Fin r.
Proof.
  intros Hne H. unfold nanmin. rewrite (filter_notnan_finite l H).
  destruct H as [|x l Hx H]; [contradiction|].
  destruct x as [a| | |]; try discriminate. now apply fold_fmin_finite.
Qed.

Lemma nanmax_finite l :
  l <> [] -> Forall (fun v => isfinite v = true) l -> exists r, nanmax l = Fin r.
Proof.
  intros Hne H. unfold nanmax. rewrite (filter_notnan_finite l H).
  destruct H as [|x l Hx H]; [contradiction|].
  destruct x as [a| | |]; try discriminate. now apply fold_fmax_finite.
Qed.

Section WithBackend.

Context {B : Backend}.

Lemma compute_alpha_empty pc2 : compute_alpha [] pc2 = Err TypeError.
Proof. reflexivity. Qed.

Lemma compute_alpha_returns pc1 pc2 c :
  pc1 <> [] -> length pc2 = length pc1 ->
  Forall (fun v => isfinite v = true) (values pc1) ->
  lstsq (values pc1) (values pc2) = Ok c ->
  exists xs, compute_alpha pc1 pc2 = Ok (snd c, xs, map (polyval c) xs).
Proof.
  intros Hne Hlen Hfin Hc.
  assert (Hv : values pc1 <> [])
    by (destruct pc1; [contradiction | discriminate]).
  destruct (nanmin_finite _ Hv Hfin) as (lo & Hlo).
  destruct (nanmax_finite _ Hv Hfin) as (hi & Hhi).
  unfold compute_alpha, polyfit.
  destruct (values pc1) as [|v vs] eqn:E; [contradiction|].
  assert (Hl : length (v :: vs) = length (values pc2)).
  { rewrite <- E. unfold values. rewrite !length_map. now symmetry. }
  rewrite Hl, Nat.eqb_refl, Hc. cbn [bind].
  rewrite Hlo, Hhi. cbn [fadd arange bind]. eexists. reflexivity.
Qed.

End WithBackend.

End AlphaFacts.

(** ** How the computation fails *)

Module Failures.

Import Float Calendar Series Grid Result Xeofs Kernels Numpy Takahashi Props Demo.
Import FloatFacts GridFacts SeriesFacts IndexFacts DemoFacts AlphaFacts.

Local Open Scope R_scope.

(** C3, as the code has it.  With no seasonal point at all the alpha
    computation fails: [polyfit] refuses an empty vector with a
    [TypeError].  With one point or more (numbers, as many for PC2 as for
    PC1) nothing in [compute_alpha] counts them: it returns the quadratic
    coefficient of whatever the least-squares solver answers. *)
Theorem compute_alpha_does_not_count_points (B : Backend) :
  (forall pc2, compute_alpha [] pc2 = Err TypeError)
  /\ (forall pc1 pc2 c,
        pc1 <> [] -> length pc2 = length pc1 ->
        Forall (fun v => isfinite v = true) (values pc1) ->
        lstsq (values pc1) (values pc2) = Ok c ->
        exists xs, compute_alpha pc1 pc2 = Ok (snd c, xs, map (polyval c) xs)).
Proof.
  split; [apply compute_alpha_empty | apply compute_alpha_returns].
Qed.

Lemma compute_alpha_does_not_count_points_witness :
  exists xs,
    compute_alpha (B := demo_backend)
      [(first_of 1981 12, Fin 1)] [(first_of 1981 12, Fin 1)]
    = Ok (Fin (1 / 3), xs, map (polyval third) xs).
Proof.
  destruct (compute_alpha_does_not_count_points demo_backend) as [_ H].
  apply (H [(first_of 1981 12, Fin 1)] [(first_of 1981 12, Fin 1)] third).
  - discriminate.
  - reflexivity.
  - repeat constructor.
  - reflexivity.
Defined.

(** C3 as stated fails: on a single seasonal point the computation returns
    a coefficient (here the one the solver of the demonstration answers,
    which is numpy's minimum-norm answer at the point (1, 1)). *)
Lemma compute_alpha_on_one_point_returns :
  exists pc1 pc2 r,
    (length pc1 < 3)%nat
    /\ compute_alpha (B := demo_backend) pc1 pc2 = Ok r
    /\ fst (fst r) = Fin (1 / 3).
Proof.
  destruct (compute_alpha_returns (B := demo_backend)
              [(first_of 1981 12, Fin 1)] [(first_of 1981 12, Fin 1)] third)
    as (xs & H); try reflexivity; try discriminate; [repeat constructor|].
  exists [(first_of 1981 12, Fin 1)], [(first_of 1981 12, Fin 1)].
  eexists. split; [simpl; lia|]. split; [exact H | reflexivity].
Qed.

Lemma sel_time_outside bp f :
  (forall t, In t (time f) -> in_period bp t = false) ->
  time (sel_time bp f) = [].
Proof.
  intros H. unfold sel_time. cbn [time].
  replace (filter _ (combine (time f) (data f))) with (@nil (date * grid));
    [reflexivity|].
  symmetry. generalize (data f). induction (time f) as [|t ts IH];
    intros [|g gs]; simpl; try reflexivity.
  rewrite (H t) by (now left). apply IH. intros u Hu. apply H. now right.
Qed.





(** With a decomposition that refuses a sample of fewer time steps than
    modes, as xeofs does, the call fails on such a period, with the error
    of the decomposition. *)
Lemma refused_sample_ends_the_call (B : Backend) f bp :
  fit_needs_two_steps B ->
  (forall t, In t (time f) -> in_period bp t = false) ->
  exists e,
    eof_fit (sel_time bp (sel_box (-20 # 1) (20 # 1) (100 # 1) (280 # 1) f)) = Err e
    /\ compute_index f bp = Err e.
Proof.
  intros Hfit Hout.
  destruct (Hfit (sel_time bp (sel_box (-20 # 1) (20 # 1) (100 # 1) (280 # 1) f)))
    as (e & He).
  - rewrite sel_time_outside by exact Hout. simpl. lia.
  - exists e. split; [exact He|]. unfold compute_index. now rewrite He.
Qed.

(** The error is the same for a period inside the time axis that holds a
    single time step: it says nothing about the range. *)
Lemma same_error_inside_the_time_axis :
  compute_index (B := demo_backend) (winter 1) (first_of 1980 12, first_of 1980 12)
  = compute_index (B := demo_backend) (winter 1) (year_first 1990, year_last 1995).
Proof. reflexivity. Qed.

End Failures.

(** ** A field of zero anomalies *)

Module ZeroField.

Import Float Calendar Series Grid Result Xeofs Kernels Numpy Takahashi Props Demo.
Import FloatFacts GridFacts SeriesFacts IndexFacts DemoFacts AlphaFacts.

Local Open Scope R_scope.

Lemma sel_axis_incl {A : Type} keep coords (xs : list A) x :
  In x (sel_axis keep coords xs) -> In x xs.
Proof.
  unfold sel_axis. rewrite in_map_iff. intros [[c y] [<- H]].
  apply filter_In in H. destruct H as [H _]. now apply in_combine_r in H.
Qed.

Lemma sel_grid_zero kl ko lats lons g :
  zero_grid g -> zero_grid (sel_grid kl ko lats lons g).
Proof.
  unfold zero_grid, sel_grid. rewrite !Forall_forall. intros H row Hrow.
  apply in_map_iff in Hrow. destruct Hrow as (row0 & <- & Hrow0).
  apply sel_axis_incl in Hrow0. specialize (H _ Hrow0).
  rewrite Forall_forall in *. intros x Hx. apply H.
  now apply sel_axis_incl in Hx.
Qed.

Lemma sel_box_zero a b c d f : zero_field f -> zero_field (sel_box a b c d f).
Proof.
  unfold zero_field, sel_box; cbn [data]. rewrite !Forall_forall.
  intros H g Hg. apply in_map_iff in Hg. destruct Hg as (g0 & <- & Hg0).
  apply sel_grid_zero. now apply H.
Qed.

Lemma concat_zero g : zero_grid g -> Forall (eq (Fin 0)) (concat g).
Proof.
  unfold zero_grid. rewrite !Forall_forall. intros H x Hx.
  apply in_concat in Hx. destruct Hx as (row & Hrow & Hx).
  specialize (H _ Hrow). rewrite Forall_forall in H. now apply H.
Qed.

(** Projecting a zero time step gives zero, or NaN when the pattern holds
    an infinity. *)
Lemma inner_zero x p : zero_grid x -> inner x p = Fin 0 \/ inner x p = NaN.
Proof.
  intros H. apply concat_zero in H. unfold inner, fsum.
  revert H. generalize (concat x) (concat p). clear x p.
  induction l as [|a l IH]; intros q H; [now left|].
  destruct q as [|b q]; [now left|].
  inversion H as [|? ? Ha Hl]; subst. cbn [combine filter fst snd].
  destruct b as [r| | |]; cbn [notnan isnan negb map fold_right fst snd].
  - destruct (IH q Hl) as [E | E]; rewrite E; [left | now right].
    cbn [fmul fadd]. f_equal. lra.
  - right. cbn [fmul]. unfold scale_inf.
    destruct (Req_dec_T 0 0); [|lra]. now destruct (fold_right _ _ _).
  - right. cbn [fmul]. unfold scale_inf.
    destruct (Req_dec_T 0 0); [|lra]. now destruct (fold_right _ _ _).
  - apply IH. exact Hl.
Qed.

Lemma scale_factor_flat m k :
  explained_variance m k = Fin 0 \/ explained_variance m k = NaN ->
  scale_factor m k = PInf \/ scale_factor m k = NaN.
Proof.
  unfold scale_factor. intros [H | H]; rewrite H; [left | now right].
  rewrite fsqrt_fin, sqrt_0 by lra.
  cbn [fdiv]. unfold scale_inf.
  destruct (Req_dec_T 0 0); [|lra]. destruct (Req_dec_T 1 0); [lra|].
  destruct (Rlt_dec 0 1); [reflexivity | lra].
Qed.

Lemma fmul_zero_or_nan_flat x s c :
  x = Fin 0 \/ x = NaN -> s = PInf \/ s = NaN -> fmul (fmul x s) c = NaN.
Proof.
  intros [-> | ->] [-> | ->]; cbn [fmul]; unfold scale_inf;
    try (destruct (Req_dec_T 0 0); [|lra]); now destruct c.
Qed.

(** Without variance to explain every component of a zero field is NaN. *)
Lemma principal_components_flat m f k :
  flat m -> zero_field f ->
  Forall (fun p => snd p = NaN) (principal_components m f k).
Proof.
  intros [Hv Hp] Hz. unfold principal_components, scale, transform.
  rewrite !map_map.
  apply Forall_forall. intros p Hin. apply in_map_iff in Hin.
  destruct Hin as ([t g] & <- & Hin). cbn [fst snd].
  apply in_combine_r in Hin.
  unfold zero_field in Hz. rewrite Forall_forall in Hz.
  apply fmul_zero_or_nan_flat.
  - apply inner_zero, Hp, Hz, Hin.
  - apply scale_factor_flat, Hv.
Qed.

(** C5. On a field of anomalies that are all exactly zero [compute_index]
    returns nothing: either the decomposition raises and its error comes
    out, or it fits a model without variance to explain (as it does on a
    zero sample), every component is then NaN ([0 * inf]), no seasonal mean
    is left after [dropna], and the fit of alpha raises a [TypeError] on the
    empty vectors.  No NaN or infinite index is returned. *)
Theorem zero_anomalies_end_in_an_error (B : Backend) f bp :
  zero_field f ->
  (forall m,
     eof_fit (sel_time bp (sel_box (-20 # 1) (20 # 1) (100 # 1) (280 # 1) f)) = Ok m ->
     flat m) ->
  (exists e,
     eof_fit (sel_time bp (sel_box (-20 # 1) (20 # 1) (100 # 1) (280 # 1) f)) = Err e
     /\ compute_index f bp = Err e)
  \/ compute_index f bp = Err TypeError.
Proof.
  intros Hz Hflat. unfold compute_index.
  set (box := sel_box _ _ _ _ f) in *.
  destruct (eof_fit (sel_time bp box)) as [m|e] eqn:E; cbn [bind].
  - right. unfold index_of_model.
    assert (Hb : zero_field box) by (apply sel_box_zero; exact Hz).
    rewrite !djf_means_all_nan
      by (apply principal_components_flat; [apply Hflat; reflexivity | exact Hb]).
    reflexivity.
  - left. now exists e.
Qed.

Lemma flat_model_is_flat : flat flat_model.
Proof. split; [intros k; now left | intros g H; exact H]. Qed.

Lemma zero_anomalies_end_in_an_error_witness :
  compute_index (B := fixed_backend flat_model third) (winter 0) winter_period
  = Err TypeError.
Proof.
  destruct (zero_anomalies_end_in_an_error (fixed_backend flat_model third)
              (winter 0) winter_period) as [(e & He & _) | H].
  - repeat constructor.
  - intros m Hm. rewrite winter_in_box, winter_in_period in Hm.
    injection Hm as <-. apply flat_model_is_flat.
  - rewrite winter_in_box, winter_in_period in He. discriminate He.
  - exact H.
Defined.

End ZeroField.

(** ** Further properties of the index computation *)

Module BoxFacts.

Import Float Calendar Series Grid Result Xeofs Kernels Numpy Takahashi Props.
Import GridFacts.

Lemma sel_axis_idem {A : Type} keep coords (xs : list A) :
  sel_axis keep (filter keep coords) (sel_axis keep coords xs)
  = sel_axis keep coords xs.
Proof.
  unfold sel_axis. revert xs.
  induction coords as [|c coords IH]; intros [|x xs]; simpl; try reflexivity.
  - now rewrite combine_nil.
  - destruct (keep c) eqn:E; simpl; [|apply IH].
    rewrite E. simpl. f_equal. apply IH.
Qed.

Lemma sel_grid_idem kl ko lats lons g :
  sel_grid kl ko (filter kl lats) (filter ko lons) (sel_grid kl ko lats lons g)
  = sel_grid kl ko lats lons g.
Proof.
  unfold sel_grid. rewrite sel_axis_map, sel_axis_idem, map_map.
  apply map_ext. intros row. apply sel_axis_idem.
Qed.

Lemma filter_idem {A : Type} (p : A -> bool) l :
  filter p (filter p l) = filter p l.
Proof.
  induction l as [|x l IH]; simpl; [reflexivity|].
  destruct (p x) eqn:E; simpl; [rewrite E; now f_equal | exact IH].
Qed.

Lemma sel_box_idem a b c d f :
  sel_box a b c d (sel_box a b c d f) = sel_box a b c d f.
Proof.
  unfold sel_box. cbn [time lat lon data]. f_equal.
  - apply filter_idem.
  - apply filter_idem.
  - rewrite map_map. apply map_ext. intros g. apply sel_grid_idem.
Qed.

(** X2. Cutting the field to 20S-20N, 100E-280E before the call changes
    nothing: [compute_index] gives the same outcome on the field and on its
    selection over the box. *)
Theorem cutting_to_the_box_first_changes_nothing (B : Backend) f bp :
  compute_index (sel_box (-20 # 1) (20 # 1) (100 # 1) (280 # 1) f) bp
  = compute_index f bp.
Proof. unfold compute_index. now rewrite sel_box_idem. Qed.

End BoxFacts.

Module RangeFacts.

Import Float Calendar Series Grid Result Xeofs Kernels Numpy Takahashi Props.
Import Tactics FloatFacts AlphaFacts.

Local Open Scope R_scope.

(** [fgt a b = false] reads [a <= b] on numbers other than NaN. *)
Lemma fle_trans a b c :
  notnan a = true -> notnan b = true -> notnan c = true ->
  fgt a b = false -> fgt b c = false -> fgt a c = false.
Proof.
  destruct a as [x| | |], b as [y| | |], c as [z| | |]; unfold notnan; simpl;
    intros Ha Hb Hc H1 H2; try congruence;
    repeat match goal with
    | H : context [Rlt_dec ?u ?v] |- _ => destruct (Rlt_dec u v)
    | |- context [Rlt_dec ?u ?v] => destruct (Rlt_dec u v)
    end; try congruence; lra.
Qed.

Lemma fle_refl a : fgt a a = false.
Proof. destruct a; fsolve. Qed.

Lemma fmin_cases a b : fmin a b = a \/ fmin a b = b.
Proof. unfold fmin. destruct (fgt a b); auto. Qed.

Lemma fmax_cases a b : fmax a b = a \/ fmax a b = b.
Proof. unfold fmax. destruct (fgt b a); auto. Qed.

Lemma fmin_le_r a b :
  notnan a = true -> notnan b = true -> fgt (fmin a b) b = false.
Proof.
  unfold fmin. intros Ha Hb. destruct (fgt a b) eqn:E; [apply fle_refl | exact E].
Qed.

Lemma fmax_ge_r a b :
  notnan a = true -> notnan b = true -> fgt b (fmax a b) = false.
Proof.
  unfold fmax. intros Ha Hb. destruct (fgt b a) eqn:E; [apply fle_refl | exact E].
Qed.

Lemma fold_fmin_spec x r :
  notnan x = true -> Forall (fun v => notnan v = true) r ->
  notnan (fold_right fmin x r) = true /\ fgt (fold_right fmin x r) x = false.
Proof.
  intros Hx. induction 1 as [|a r Ha _ [IHn IHl]]; simpl.
  - split; [exact Hx | apply fle_refl].
  - split.
    + destruct (fmin_cases a (fold_right fmin x r)) as [E | E]; now rewrite E.
    + apply fle_trans with (fold_right fmin x r); try assumption.
      * destruct (fmin_cases a (fold_right fmin x r)) as [E | E]; now rewrite E.
      * now apply fmin_le_r.
Qed.

Lemma fold_fmax_spec x r :
  notnan x = true -> Forall (fun v => notnan v = true) r ->
  notnan (fold_right fmax x r) = true /\ fgt x (fold_right fmax x r) = false.
Proof.
  intros Hx. induction 1 as [|a r Ha _ [IHn IHl]]; simpl.
  - split; [exact Hx | apply fle_refl].
  - split.
    + destruct (fmax_cases a (fold_right fmax x r)) as [E | E]; now rewrite E.
    + apply fle_trans with (fold_right fmax x r); try assumption.
      * destruct (fmax_cases a (fold_right fmax x r)) as [E | E]; now rewrite E.
      * now apply fmax_ge_r.
Qed.

Lemma filter_notnan_all l : Forall (fun v => notnan v = true) (filter notnan l).
Proof. apply Forall_forall. intros v H. now apply filter_In in H. Qed.

Lemma fgt_asym a b : fgt a b = true -> fgt b a = false.
Proof.
  destruct a as [x| | |], b as [y| | |]; simpl; try congruence;
    repeat match goal with
    | |- context [Rlt_dec ?u ?v] => destruct (Rlt_dec u v)
    end; try congruence; try reflexivity; intros; lra.
Qed.

Lemma fmin_le_l a b : fgt (fmin a b) a = false.
Proof.
  unfold fmin. destruct (fgt a b) eqn:E; [now apply fgt_asym | apply fle_refl].
Qed.

Lemma fmax_ge_l a b : fgt a (fmax a b) = false.
Proof.
  unfold fmax. destruct (fgt b a) eqn:E; [now apply fgt_asym | apply fle_refl].
Qed.

Lemma fold_fmin_below x r v :
  notnan x = true -> Forall (fun u => notnan u = true) r ->
  In v (x :: r) -> fgt (fold_right fmin x r) v = false.
Proof.
  intros Hx Hr. revert v. induction Hr as [|a r Ha Hr IH]; simpl; intros v Hv.
  - destruct Hv as [<- | []]. apply fle_refl.
  - destruct (fold_fmin_spec x r Hx Hr) as [Hn _].
    destruct Hv as [<- | [<- | Hv]].
    + apply fle_trans with (fold_right fmin x r); try assumption.
      * destruct (fmin_cases a (fold_right fmin x r)) as [E | E]; now rewrite E.
      * now apply fmin_le_r.
      * apply IH. now left.
    + apply fmin_le_l.
    + assert (Hvn : notnan v = true) by (rewrite Forall_forall in Hr; now apply Hr).
      apply fle_trans with (fold_right fmin x r); try assumption.
      * destruct (fmin_cases a (fold_right fmin x r)) as [E | E]; now rewrite E.
      * now apply fmin_le_r.
      * apply IH. now right.
Qed.

Lemma fold_fmax_above x r v :
  notnan x = true -> Forall (fun u => notnan u = true) r ->
  In v (x :: r) -> fgt v (fold_right fmax x r) = false.
Proof.
  intros Hx Hr. revert v. induction Hr as [|a r Ha Hr IH]; simpl; intros v Hv.
  - destruct Hv as [<- | []]. apply fle_refl.
  - destruct (fold_fmax_spec x r Hx Hr) as [Hn _].
    destruct Hv as [<- | [<- | Hv]].
    + apply fle_trans with (fold_right fmax x r); try assumption.
      * destruct (fmax_cases a (fold_right fmax x r)) as [E | E]; now rewrite E.
      * apply IH. now left.
      * now apply fmax_ge_r.
    + apply fmax_ge_l.
    + assert (Hvn : notnan v = true) by (rewrite Forall_forall in Hr; now apply Hr).
      apply fle_trans with (fold_right fmax x r); try assumption.
      * destruct (fmax_cases a (fold_right fmax x r)) as [E | E]; now rewrite E.
      * apply IH. now right.
      * now apply fmax_ge_r.
Qed.

(** Every value other than NaN lies between the smallest and the largest. *)
Lemma nanmin_below l v :
  In v l -> notnan v = true -> fgt (nanmin l) v = false.
Proof.
  intros Hin Hn. assert (Hf : In v (filter notnan l)) by (now apply filter_In).
  unfold nanmin. pose proof (filter_notnan_all l) as H.
  destruct (filter notnan l) as [|x r]; [destruct Hf|].
  inversion H; subst. now apply fold_fmin_below.
Qed.

Lemma nanmax_above l v :
  In v l -> notnan v = true -> fgt v (nanmax l) = false.
Proof.
  intros Hin Hn. assert (Hf : In v (filter notnan l)) by (now apply filter_In).
  unfold nanmax. pose proof (filter_notnan_all l) as H.
  destruct (filter notnan l) as [|x r]; [destruct Hf|].
  inversion H; subst. now apply fold_fmax_above.
Qed.

Lemma nanmax_with_inf l : In PInf l -> isfinite (nanmax l) = false.
Proof.
  intros H. pose proof (nanmax_above l PInf H eq_refl) as G.
  now destruct (nanmax l).
Qed.

Lemma nanmin_with_inf l : In NInf l -> isfinite (nanmin l) = false.
Proof.
  intros H. pose proof (nanmin_below l NInf H eq_refl) as G.
  destruct (nanmin l); try reflexivity. discriminate G.
Qed.

Section WithBackend.

Context {B : Backend}.

(** X4. An infinite seasonal PC1 never gets through: whatever the solver
    answers, [compute_alpha] ends in an error ([arange] refuses a range
    that is not finite). *)
Theorem infinite_component_stops_the_fit pc1 pc2 t :
  In (t, PInf) pc1 \/ In (t, NInf) pc1 -> is_err (compute_alpha pc1 pc2).
Proof.
  intros H. unfold compute_alpha.
  destruct (polyfit _ _) as [c|e]; cbn [bind]; [|now exists e].
  assert (Hv : forall v, In (t, v) pc1 -> In v (values pc1)).
  { intros v Hin. unfold values. apply in_map_iff. now exists (t, v). }
  exists ValueError.
  destruct H as [H | H]; apply Hv in H.
  - apply nanmax_with_inf in H.
    destruct (nanmin (values pc1)); try reflexivity.
    destruct (nanmax (values pc1)); try reflexivity. discriminate H.
  - apply nanmin_with_inf in H.
    destruct (nanmin (values pc1)); try reflexivity. discriminate H.
Qed.

End WithBackend.

Lemma infinite_component_stops_the_fit_witness :
  is_err (compute_alpha (B := Demo.demo_backend)
            [(Demo.first_of 1981 12, PInf)] [(Demo.first_of 1981 12, Fin 1)]).
Proof.
  apply infinite_component_stops_the_fit with (t := Demo.first_of 1981 12).
  left. now left.
Defined.

End RangeFacts.

(** ** Further properties of the seasonal means *)

Module SeasonOrder.

Import Float Calendar Series Grid Result Xeofs Kernels Numpy Takahashi Props.
Import MoreProps Tactics FloatFacts CalendarFacts SeriesFacts.

Local Open Scope Z_scope.

Lemma times_sel_where keep (s : series) :
  times (sel_where keep s) = filter keep (times s).
Proof.
  unfold times, sel_where. induction s as [|[t x] s IH]; simpl; [reflexivity|].
  destruct (keep t); simpl; now rewrite IH.
Qed.

Lemma times_resample (s : series) : times (resample_QS_DEC_mean s) = bins_of s.
Proof.
  unfold resample_QS_DEC_mean, bins_of. destruct (times s); [reflexivity|].
  unfold times. rewrite map_map. simpl. apply map_id.
Qed.

Lemma resample_as_map (s : series) :
  resample_QS_DEC_mean s = map (fun b => (b, nanmean (bin_values b s))) (bins_of s).
Proof.
  unfold resample_QS_DEC_mean, bins_of. now destruct (times s).
Qed.

(** The time stamps of the seasonal means: the quarters of the winter
    months that have a mean and start in 1980 or later, one year on. *)
Lemma times_djf_means pc :
  times (djf_means pc)
  = map (add_years 1)
      (filter (date_leb (year_first 1980))
         (filter (fun b => notnan (nanmean (bin_values b (sel_where is_djf pc))))
            (bins_of (sel_where is_djf pc)))).
Proof.
  unfold djf_means, shift_one_year, sel_from_year.
  unfold times at 1. rewrite map_map. cbn [fst].
  rewrite <- map_map with (f := fst) (g := add_years 1).
  f_equal. fold (times (sel_where (date_leb (year_first 1980))
                          (dropna (resample_QS_DEC_mean (sel_where is_djf pc))))).
  rewrite times_sel_where. f_equal.
  rewrite resample_as_map. unfold dropna, times.
  induction (bins_of (sel_where is_djf pc)) as [|b l IH]; simpl; [reflexivity|].
  destruct (notnan (nanmean (bin_values b (sel_where is_djf pc)))); simpl;
    now rewrite IH.
Qed.

Lemma of_month_index_lt a b :
  a < b -> date_lt (of_month_index a) (of_month_index b).
Proof.
  intros H. unfold date_lt. apply date_ltb_iff. unfold of_month_index; simpl.
  zdiv.
Qed.

Lemma sorted_map_seq {A : Type} (R : A -> A -> Prop) (f : nat -> A) n :
  (forall i j, (i < j)%nat -> R (f i) (f j)) ->
  forall s, StronglySorted R (map f (seq s n)).
Proof.
  intros H. induction n as [|n IH]; intros s; simpl; constructor.
  - apply IH.
  - apply Forall_forall. intros x Hx. apply in_map_iff in Hx.
    destruct Hx as (j & <- & Hj). apply in_seq in Hj. apply H. lia.
Qed.

Lemma quarter_range_sorted a b : StronglySorted date_lt (quarter_range a b).
Proof.
  unfold quarter_range. apply sorted_map_seq.
  intros i j Hij. apply of_month_index_lt. lia.
Qed.

Lemma quarter_range_first_day a b d : In d (quarter_range a b) -> day d = 1.
Proof.
  unfold quarter_range. rewrite in_map_iff. now intros (k & <- & _).
Qed.

Lemma bins_of_sorted s : StronglySorted date_lt (bins_of s).
Proof.
  unfold bins_of. destruct (times s); [constructor | apply quarter_range_sorted].
Qed.

Lemma bins_of_first_day s d : In d (bins_of s) -> day d = 1.
Proof.
  unfold bins_of. destruct (times s); [intros [] | apply quarter_range_first_day].
Qed.

Lemma sorted_filter {A : Type} (R : A -> A -> Prop) p l :
  StronglySorted R l -> StronglySorted R (filter p l).
Proof.
  induction 1 as [|a l Hs IH Ha]; simpl; [constructor|].
  destruct (p a); [|exact IH]. constructor; [exact IH|].
  apply Forall_forall. intros x Hx. apply filter_In in Hx.
  rewrite Forall_forall in Ha. now apply Ha.
Qed.

Lemma add_one_year_lt a b :
  day a = 1 -> day b = 1 -> date_lt a b ->
  date_lt (add_years 1 a) (add_years 1 b).
Proof.
  unfold date_lt, add_years. intros Ha Hb. rewrite Ha, Hb.
  rewrite !andb_false_r. cbn [andb]. rewrite !date_ltb_iff. simpl. lia.
Qed.

Lemma sorted_map_on {A : Type} (R : A -> A -> Prop) (P : A -> Prop) f l :
  (forall a b, P a -> P b -> R a b -> R (f a) (f b)) ->
  Forall P l -> StronglySorted R l -> StronglySorted R (map f l).
Proof.
  intros H HP. induction 1 as [|a l Hs IH Ha]; simpl; constructor.
  - apply IH. now inversion HP.
  - inversion HP as [|? ? Pa Pl]; subst.
    rewrite Forall_forall in *. intros y Hy. apply in_map_iff in Hy.
    destruct Hy as (x & <- & Hx). apply H; auto.
Qed.

(** X5. The seasonal means handed to the fit come in time order, one per
    season: their time stamps are strictly increasing, so no season occurs
    twice, however the input series is ordered. *)
Theorem seasonal_means_are_in_time_order pc :
  StronglySorted date_lt (times (djf_means pc)).
Proof.
  rewrite times_djf_means.
  apply sorted_map_on with (P := fun d => day d = 1).
  - apply add_one_year_lt.
  - apply Forall_forall. intros d Hd.
    apply filter_In in Hd. destruct Hd as [Hd _].
    apply filter_In in Hd. destruct Hd as [Hd _].
    now apply bins_of_first_day in Hd.
  - apply sorted_filter, sorted_filter, bins_of_sorted.
Qed.

Lemma same_gaps_sel_where keep a b :
  same_gaps a b -> same_gaps (sel_where keep a) (sel_where keep b).
Proof.
  unfold same_gaps, sel_where. induction 1 as [|p q a b [Ht Hn] _ IH]; simpl.
  - constructor.
  - rewrite <- Ht. destruct (keep (fst p)); [constructor; auto | exact IH].
Qed.

Lemma same_gaps_times a b : same_gaps a b -> times a = times b.
Proof.
  unfold same_gaps, times. induction 1 as [|p q a b [Ht Hn] _ IH]; simpl;
    [reflexivity | now rewrite Ht, IH].
Qed.

Lemma numbers_or_gaps_sel_where keep s :
  numbers_or_gaps s -> numbers_or_gaps (sel_where keep s).
Proof.
  unfold numbers_or_gaps, sel_where. rewrite !Forall_forall.
  intros H p Hp. apply filter_In in Hp. now apply H.
Qed.

(** Over numbers and gaps a mean is a number as soon as one value is. *)
Lemma notnan_nanmean_existsb l :
  Forall (fun x => isfinite x = true \/ x = NaN) l ->
  notnan (nanmean l) = existsb notnan l.
Proof.
  intros H. destruct (existsb notnan l) eqn:E.
  - apply existsb_exists in E. destruct E as (x & Hx & Hn).
    rewrite Forall_forall in H. destruct (H x Hx) as [F | ->]; [|discriminate].
    destruct x as [r| | |]; try discriminate.
    apply notnan_nanmean_numbers with r; [exact Hx | now apply Forall_forall].
  - destruct (notnan (nanmean l)) eqn:N; [|reflexivity].
    apply notnan_nanmean_inv in N. destruct N as (x & Hx & Hn).
    assert (existsb notnan l = true) by (apply existsb_exists; eauto).
    congruence.
Qed.

Lemma existsb_notnan_same_gaps a b :
  same_gaps a b -> existsb notnan (values a) = existsb notnan (values b).
Proof.
  unfold same_gaps, values. induction 1 as [|p q a b [Ht Hn] _ IH]; simpl;
    [reflexivity|].
  unfold notnan at 1 3. now rewrite Hn, IH.
Qed.

Lemma numbers_or_gaps_values s :
  numbers_or_gaps s -> Forall (fun x => isfinite x = true \/ x = NaN) (values s).
Proof.
  unfold numbers_or_gaps, values. rewrite !Forall_forall. intros H x Hx.
  apply in_map_iff in Hx. destruct Hx as (p & <- & Hp). now apply H.
Qed.

Lemma bins_of_same_gaps a b : same_gaps a b -> bins_of a = bins_of b.
Proof. intros H. unfold bins_of. now rewrite (same_gaps_times a b H). Qed.

(** Two series over the same time stamps, of numbers and gaps with the gaps
    at the same places, have seasonal means for the same seasons. *)
Lemma djf_means_same_times pc1 pc2 :
  same_gaps pc1 pc2 -> numbers_or_gaps pc1 -> numbers_or_gaps pc2 ->
  times (djf_means pc1) = times (djf_means pc2).
Proof.
  intros Hs H1 H2. rewrite !times_djf_means.
  pose proof (same_gaps_sel_where is_djf _ _ Hs) as Hd.
  rewrite (bins_of_same_gaps _ _ Hd).
  do 2 f_equal. apply filter_ext. intros b.
  unfold bin_values.
  rewrite !notnan_nanmean_existsb
    by (apply numbers_or_gaps_values;
        repeat apply numbers_or_gaps_sel_where; assumption).
  apply existsb_notnan_same_gaps. now apply same_gaps_sel_where.
Qed.

End SeasonOrder.

(** ** The seasons the fit pairs *)

Module SeasonPairs.

Import Float Calendar Series Grid Result Xeofs Kernels Numpy Takahashi Props.
Import MoreProps Demo Tactics FloatFacts SignFacts SeriesFacts DemoFacts IndexFacts.
Import DemoRun AlphaFacts SeasonOrder.

Local Open Scope R_scope.

(** The projections of one time step on two patterns with their gaps at the
    same places are numbers together or missing together. *)
Lemma inner_of_regular_patterns xs : forall ps1 ps2,
  Forall (fun x => isfinite x = true \/ x = NaN) xs ->
  Forall2 (fun a b => (isfinite a = true /\ isfinite b = true)
                      \/ (a = NaN /\ b = NaN)) ps1 ps2 ->
  let proj ps :=
    fsum (map (fun xp => fmul (fst xp) (snd xp))
            (filter (fun xp => notnan (snd xp)) (combine xs ps))) in
  (isfinite (proj ps1) = true /\ isfinite (proj ps2) = true)
  \/ (proj ps1 = NaN /\ proj ps2 = NaN).
Proof.
  induction xs as [|x xs IH]; intros ps1 ps2 Hx Hp; cbv zeta.
  - left. now split.
  - inversion Hp as [|a b l1 l2 Hab Hl]; subst; [left; now split|].
    inversion Hx as [|? ? Hx0 Hxs]; subst.
    specialize (IH l1 l2 Hxs Hl). cbv zeta in IH.
    destruct Hab as [[Fa Fb] | [-> ->]]; [|exact IH].
    destruct a as [ra| | |], b as [rb| | |]; try discriminate.
    cbn [combine filter snd fst notnan isnan negb map].
    unfold fsum in *. cbn [fold_right].
    destruct Hx0 as [F | ->].
    + destruct x as [rx| | |]; try discriminate. cbn [fmul].
      destruct IH as [[F1 F2] | [-> ->]]; [left | right; now split].
      destruct (fold_right fadd (Fin 0) _); try discriminate.
      destruct (fold_right fadd (Fin 0) _); try discriminate.
      now split.
    + right. now split.
Qed.

Lemma inner_pair m g :
  regular m ->
  Forall (fun x => isfinite x = true \/ x = NaN) (concat (prepare m g)) ->
  (isfinite (inner (prepare m g) (pvalues (components m mode1))) = true
   /\ isfinite (inner (prepare m g) (pvalues (components m mode2))) = true)
  \/ (inner (prepare m g) (pvalues (components m mode1)) = NaN
      /\ inner (prepare m g) (pvalues (components m mode2)) = NaN).
Proof.
  intros [_ Hp] Hx. unfold inner.
  exact (inner_of_regular_patterns _ _ _ Hx Hp).
Qed.

Lemma scale_factor_of_regular m k :
  regular m -> exists s, scale_factor m k = Fin s.
Proof.
  intros [Hv _]. destruct (Hv k) as (v & E & Hpos).
  unfold scale_factor. rewrite E, fsqrt_fin by lra.
  pose proof (sqrt_lt_R0 v Hpos) as Hs.
  rewrite fdiv_fin by lra. eauto.
Qed.

(** With such a model the two components are series of numbers and gaps
    over the same time stamps, with their gaps at the same places. *)
Lemma principal_components_same_gaps m f :
  regular m -> prepared_numbers m f ->
  same_gaps (principal_components m f mode1) (principal_components m f mode2)
  /\ numbers_or_gaps (principal_components m f mode1)
  /\ numbers_or_gaps (principal_components m f mode2).
Proof.
  intros Hr Hp.
  destruct (scale_factor_of_regular m mode1 Hr) as (s1 & Hs1).
  destruct (scale_factor_of_regular m mode2 Hr) as (s2 & Hs2).
  assert (Hc : forall k, exists c, correction_factor m k = Fin c).
  { intros k. destruct (correction_factor_values m k) as [-> | ->]; eauto. }
  destruct (Hc mode1) as (c1 & Hc1). destruct (Hc mode2) as (c2 & Hc2).
  unfold principal_components, transform, scale.
  rewrite Hs1, Hs2, Hc1, Hc2, !map_map. cbn [fst snd].
  unfold prepared_numbers in Hp.
  assert (Hl : Forall (fun tx : date * grid =>
                         Forall (fun x => isfinite x = true \/ x = NaN)
                                (concat (prepare m (snd tx))))
                      (combine (time f) (data f))).
  { rewrite Forall_forall in *. intros [t g] Hin. cbn [snd].
    apply Hp. now apply in_combine_r in Hin. }
  unfold same_gaps, numbers_or_gaps.
  induction Hl as [|tx l Htx _ IH]; cbn [map].
  - repeat split; constructor.
  - destruct IH as (I1 & I2 & I3).
    destruct (inner_pair m (snd tx) Hr Htx) as [[F1 F2] | [E1 E2]].
    + destruct (inner _ (pvalues (components m mode1))); try discriminate.
      destruct (inner _ (pvalues (components m mode2))); try discriminate.
      repeat split; constructor; cbn; auto.
    + rewrite E1, E2.
      repeat split; constructor; cbn; auto.
Qed.

(** X6. [polyfit] pairs the seasonal means of PC1 and PC2 by position.  When
    the fitted model has variance to explain in both modes and patterns of
    numbers with their gaps at the same grid points, and the anomalies it is
    run on are numbers and gaps, the two series [compute_index] hands to
    [compute_alpha] carry the same time stamps in the same order: the
    pairs are pairs of the same season. *)
Theorem seasonal_means_pair_the_same_seasons (B : Backend) f bp m out :
  eof_fit (sel_time bp (sel_box (-20 # 1) (20 # 1) (100 # 1) (280 # 1) f)) = Ok m ->
  regular m ->
  prepared_numbers m (sel_box (-20 # 1) (20 # 1) (100 # 1) (280 # 1) f) ->
  compute_index f bp = Ok out ->
  compute_alpha (djf_means (fst (pcs out))) (djf_means (snd (pcs out)))
  = Ok (alpha out, xfit out, fit out)
  /\ times (djf_means (fst (pcs out))) = times (djf_means (snd (pcs out))).
Proof.
  intros Hm Hr Hp H. split; [now apply fit_runs_on_djf_means with f bp|].
  apply compute_index_inv in H. cbv zeta in H.
  destruct H as (m' & Hm' & H). rewrite Hm in Hm'. injection Hm' as <-.
  apply index_of_model_inv in H. cbv zeta in H. destruct H as (Hpcs & _).
  rewrite Hpcs. cbn [fst snd].
  destruct (principal_components_same_gaps m _ Hr Hp) as (Hs & H1 & H2).
  now apply djf_means_same_times.
Qed.

Lemma resample_two_winters a1 a2 a3 a4 a5 a6 :
  resample_QS_DEC_mean
    (sel_where is_djf
       [(first_of 1980 12, a1); (first_of 1981 1, a2); (first_of 1981 2, a3);
        (first_of 1981 12, a4); (first_of 1982 1, a5); (first_of 1982 2, a6)])
  = [(first_of 1980 12, nanmean [a1; a2; a3]); (first_of 1981 3, nanmean []);
     (first_of 1981 6, nanmean []); (first_of 1981 9, nanmean []);
     (first_of 1981 12, nanmean [a4; a5; a6])].
Proof. cbv -[nanmean]. reflexivity. Qed.

Lemma djf_means_two_winters a1 a2 a3 a4 a5 a6 m1 m2 :
  nanmean [a1; a2; a3] = Fin m1 -> nanmean [a4; a5; a6] = Fin m2 ->
  djf_means
    [(first_of 1980 12, a1); (first_of 1981 1, a2); (first_of 1981 2, a3);
     (first_of 1981 12, a4); (first_of 1982 1, a5); (first_of 1982 2, a6)]
  = [(first_of 1981 12, Fin m1); (first_of 1982 12, Fin m2)].
Proof.
  intros H1 H2. unfold djf_means. rewrite resample_two_winters, H1, H2.
  change (nanmean []) with NaN. reflexivity.
Qed.

Lemma two_winters_components a b c m k :
  components m k = pattern_of a b -> prepare m = (fun g => g) ->
  explained_variance m k = Fin 1 -> correction_factor m k = Fin c ->
  principal_components m two_winters k = gapped (1 * a * c).
Proof.
  intros H P V C.
  assert (Hin : inner [[Fin 1; Fin 0]] [[Fin a; Fin b]] = Fin (1 * a))
    by (unfold inner, fsum; simpl; f_equal; lra).
  assert (Hgap : inner [[NaN; Fin 0]] [[Fin a; Fin b]] = NaN) by reflexivity.
  unfold principal_components, transform.
  rewrite H, P, (scale_factor_one m k V), C.
  cbn [two_winters time data combine map fst snd pvalues pattern_of scale].
  rewrite Hin, Hgap. cbn [fmul]. unfold gapped. repeat (f_equal; try lra).
Qed.

(** Two seasons, the second with a month missing. *)
Lemma djf_means_gapped v :
  exists m1 m2,
    djf_means (gapped v) = [(first_of 1981 12, Fin m1); (first_of 1982 12, Fin m2)].
Proof.
  assert (H1 : exists w, nanmean [Fin v; Fin v; Fin v] = Fin w).
  { change [Fin v; Fin v; Fin v] with (map Fin [v; v; v]).
    rewrite nanmean_fin. eauto. }
  assert (H2 : exists w, nanmean [Fin v; NaN; Fin v] = Fin w).
  { change (nanmean [Fin v; NaN; Fin v]) with (nanmean (map Fin [v; v])).
    rewrite nanmean_fin. eauto. }
  destruct H1 as (m1 & E1). destruct H2 as (m2 & E2). exists m1, m2.
  unfold gapped. now apply djf_means_two_winters.
Qed.

Lemma two_winters_run :
  exists out,
    compute_index (B := demo_backend) two_winters winter_period = Ok out
    /\ pcs out = (gapped (1 * 1 * 1), gapped (1 * 1 * -1)).
Proof.
  unfold compute_index.
  change (sel_box _ _ _ _ two_winters) with two_winters.
  assert (Hfit : eof_fit (Backend := demo_backend)
                   (sel_time winter_period two_winters) = Ok two_point_model)
    by reflexivity.
  rewrite Hfit. cbn [bind]. unfold index_of_model.
  rewrite (two_winters_components 1 1 1 two_point_model mode1)
    by (try reflexivity; apply two_point_factor_1).
  rewrite (two_winters_components 1 (-1) (-1) two_point_model mode2)
    by (try reflexivity; apply two_point_factor_2).
  destruct (djf_means_gapped (1 * 1 * 1)) as (m1 & m2 & E).
  destruct (djf_means_gapped (1 * 1 * -1)) as (n1 & n2 & F).
  rewrite E, F.
  destruct (compute_alpha_returns (B := demo_backend)
              [(first_of 1981 12, Fin m1); (first_of 1982 12, Fin m2)]
              [(first_of 1981 12, Fin n1); (first_of 1982 12, Fin n2)] third)
    as (xs & Ha); try reflexivity; try discriminate; [repeat constructor|].
  rewrite Ha. cbn [bind]. eexists. split; reflexivity.
Qed.

Lemma seasonal_means_pair_the_same_seasons_witness :
  exists out,
    compute_index (B := demo_backend) two_winters winter_period = Ok out
    /\ nth_error (fst (pcs out)) 4 = Some (first_of 1982 1, NaN)
    /\ length (djf_means (fst (pcs out))) = 2%nat
    /\ compute_alpha (B := demo_backend)
         (djf_means (fst (pcs out))) (djf_means (snd (pcs out)))
       = Ok (alpha out, xfit out, fit out)
    /\ times (djf_means (fst (pcs out))) = times (djf_means (snd (pcs out))).
Proof.
  destruct two_winters_run as (out & H & P).
  exists out. split; [exact H|].
  split; [rewrite P; reflexivity|].
  split.
  { rewrite P. cbn [fst].
    destruct (djf_means_gapped (1 * 1 * 1)) as (m1 & m2 & E). now rewrite E. }
  apply (seasonal_means_pair_the_same_seasons demo_backend two_winters
           winter_period two_point_model out).
  - reflexivity.
  - split.
    + intros k. exists 1. split; [now destruct k | lra].
    + cbn. repeat constructor; left; now split.
  - unfold prepared_numbers. cbn.
    repeat first [ apply Forall_nil | apply Forall_cons
                 | left; reflexivity | right; reflexivity ].
  - exact H.
Defined.

End SeasonPairs.

(** ** The rotation as a rotation *)

Module RotationAngle.

Import Float Calendar Series Grid Result Xeofs Kernels Numpy Takahashi Props Demo.
Import Tactics FloatFacts IndexFacts DemoRun.

Local Open Scope R_scope.

Lemma rotation_by_PI4 a b :
  fdiv (fsub (Fin a) (Fin b)) (Fin (sqrt 2))
  = Fin (a * cos (PI / 4) - b * sin (PI / 4))
  /\ fdiv (fadd (Fin a) (Fin b)) (Fin (sqrt 2))
     = Fin (a * sin (PI / 4) + b * cos (PI / 4)).
Proof.
  pose proof sqrt2_pos as Hs.
  unfold fsub. cbn [fopp fadd]. rewrite !fdiv_fin by lra.
  rewrite cos_PI4, sin_PI4. split; f_equal; field; lra.
Qed.

(** X7. The E and C indices are the two principal components turned by 45
    degrees: wherever both components are numbers,
    [E = PC1 cos 45 - PC2 sin 45] and [C = PC1 sin 45 + PC2 cos 45], so that
    [E^2 + C^2 = PC1^2 + PC2^2] (in exact arithmetic). *)
Theorem indices_are_components_turned_by_45_degrees (B : Backend) f bp out :
  compute_index f bp = Ok out ->
  forall i t p1 t' p2,
    nth_error (fst (pcs out)) i = Some (t, Fin p1) ->
    nth_error (snd (pcs out)) i = Some (t', Fin p2) ->
    exists e c,
      nth_error (E_index out) i = Some (t, Fin e)
      /\ nth_error (C_index out) i = Some (t, Fin c)
      /\ e = p1 * cos (PI / 4) - p2 * sin (PI / 4)
      /\ c = p1 * sin (PI / 4) + p2 * cos (PI / 4)
      /\ e * e + c * c = p1 * p1 + p2 * p2.
Proof.
  intros H i t p1 t' p2 H1 H2.
  apply compute_index_inv in H. simpl in H.
  destruct H as (m & _ & H). apply index_of_model_inv in H. simpl in H.
  destruct H as (Hp & He & Hc & _).
  rewrite Hp in H1, H2. simpl in H1, H2.
  destruct (rotation_by_PI4 p1 p2) as [Re Rc].
  exists (p1 * cos (PI / 4) - p2 * sin (PI / 4)),
         (p1 * sin (PI / 4) + p2 * cos (PI / 4)).
  rewrite He, Hc, !nth_error_rotate, H1, H2, two_pow_half_sqrt.
  cbn [fst snd]. rewrite Re, Rc.
  split; [reflexivity|]. split; [reflexivity|].
  split; [reflexivity|]. split; [reflexivity|].
  pose proof (sin2_cos2 (PI / 4)) as T. unfold Rsqr in T.
  rewrite cos_PI4, sin_PI4 in *.
  set (s := 1 / sqrt 2) in *. nra.
Qed.

Lemma indices_are_components_turned_by_45_degrees_witness :
  exists out e c,
    compute_index (B := demo_backend) (winter 1) winter_period = Ok out
    /\ nth_error (E_index out) 0 = Some (first_of 1980 12, Fin e)
    /\ e * e + c * c = (1 * 1 * 1) * (1 * 1 * 1) + (1 * 1 * -1) * (1 * 1 * -1).
Proof.
  destruct (demo_run 1) as (out & H & P & _).
  destruct (indices_are_components_turned_by_45_degrees demo_backend _ _ _ H
              0%nat (first_of 1980 12) (1 * 1 * 1)
              (first_of 1980 12) (1 * 1 * -1))
    as (e & c & He & _ & _ & _ & Hn); try (rewrite P; reflexivity).
  exists out, e, c. auto.
Defined.

End RotationAngle.

(** ** Facts about the anomalies *)

Module AnomalyFacts.

Import Float Calendar Series Grid Props MoreProps Anomaly.
Import Tactics FloatFacts GridFacts CalendarFacts.

Lemma nth_map_seq {A : Type} (F : nat -> A) n i d :
  (i < n)%nat -> nth i (map F (seq 0 n)) d = F i.
Proof.
  intros H. rewrite (nth_map_lt F (seq 0 n) i 0%nat d) by (now rewrite length_seq).
  now rewrite seq_nth.
Qed.

Lemma grid_at_mean nlat nlon gs i j :
  (i < nlat)%nat -> (j < nlon)%nat ->
  grid_at (mean_over_time nlat nlon gs) i j
  = nanmean (map (fun g => grid_at g i j) gs).
Proof.
  intros Hi Hj. unfold grid_at at 1, mean_over_time.
  rewrite (nth_map_seq _ nlat i []) by exact Hi.
  now rewrite (nth_map_seq _ nlon j NaN) by exact Hj.
Qed.

Lemma wf_mean nlat nlon gs : wf_grid nlat nlon (mean_over_time nlat nlon gs).
Proof.
  unfold wf_grid, mean_over_time. split.
  - now rewrite length_map, length_seq.
  - apply Forall_forall. intros row H. apply in_map_iff in H.
    destruct H as (i & <- & _). now rewrite length_map, length_seq.
Qed.

Lemma wf_nan_grid nlat nlon : wf_grid nlat nlon (repeat (repeat NaN nlon) nlat).
Proof.
  split; [apply repeat_length|].
  apply Forall_forall. intros row H. apply repeat_spec in H. subst.
  apply repeat_length.
Qed.

Lemma grid_at_nan_grid nlat nlon i j :
  grid_at (repeat (repeat NaN nlon) nlat) i j = NaN.
Proof.
  unfold grid_at.
  assert (Hrow : forall n k, nth k (repeat NaN n) NaN = NaN).
  { induction n as [|n IH]; intros [|k]; simpl; auto. }
  assert (H : nth i (repeat (repeat NaN nlon) nlat) [] = repeat NaN nlon
              \/ nth i (repeat (repeat NaN nlon) nlat) [] = []).
  { generalize i. induction nlat as [|n IH]; intros [|k]; simpl; auto. }
  destruct H as [-> | ->]; [apply Hrow | now destruct j].
Qed.

Lemma nth_combine {A C : Type} (a : list A) (b : list C) i da db :
  (i < length a)%nat -> (i < length b)%nat ->
  nth i (combine a b) (da, db) = (nth i a da, nth i b db).
Proof.
  revert b i. induction a as [|x a IH]; intros [|y b] [|i] Ha Hb;
    simpl in *; try lia; [reflexivity | apply IH; lia].
Qed.

Lemma grid_at_sub nlat nlon g c i j :
  wf_grid nlat nlon g -> wf_grid nlat nlon c ->
  (i < nlat)%nat -> (j < nlon)%nat ->
  grid_at (sub_grid g c) i j = fsub (grid_at g i j) (grid_at c i j).
Proof.
  intros [Lg Rg] [Lc Rc] Hi Hj. unfold grid_at, sub_grid.
  rewrite (nth_map_lt _ (combine g c) i ([], []))
    by (rewrite length_combine; lia).
  rewrite nth_combine by lia. cbn [fst snd].
  assert (Hrg : length (nth i g []) = nlon).
  { rewrite Forall_forall in Rg. apply Rg, nth_In. lia. }
  assert (Hrc : length (nth i c []) = nlon).
  { rewrite Forall_forall in Rc. apply Rc, nth_In. lia. }
  rewrite (nth_map_lt _ (combine (nth i g []) (nth i c [])) j (NaN, NaN))
    by (rewrite length_combine; lia).
  now rewrite nth_combine by lia.
Qed.

Lemma wf_sub nlat nlon g c :
  wf_grid nlat nlon g -> wf_grid nlat nlon c -> wf_grid nlat nlon (sub_grid g c).
Proof.
  intros [Lg Rg] [Lc Rc]. unfold sub_grid. split.
  - rewrite length_map, length_combine. lia.
  - apply Forall_forall. intros row H. apply in_map_iff in H.
    destruct H as ([r1 r2] & <- & Hin). cbn [fst snd].
    rewrite length_map, length_combine.
    rewrite Forall_forall in Rg, Rc.
    rewrite (Rg r1) by (now apply in_combine_l in Hin).
    rewrite (Rc r2) by (now apply in_combine_r in Hin). lia.
Qed.

(** Two grids of one shape with the same values are the same grid. *)
Lemma grid_ext nlat nlon g h :
  wf_grid nlat nlon g -> wf_grid nlat nlon h ->
  (forall i j, (i < nlat)%nat -> (j < nlon)%nat -> grid_at g i j = grid_at h i j) ->
  g = h.
Proof.
  intros [Lg Rg] [Lh Rh] H.
  apply (nth_ext _ _ [] []); [congruence|].
  intros i Hi. rewrite Forall_forall in Rg, Rh.
  apply (nth_ext _ _ NaN NaN).
  - rewrite (Rg (nth i g [])) by (apply nth_In; lia).
    rewrite (Rh (nth i h [])) by (apply nth_In; lia). reflexivity.
  - intros j Hj. apply H; [lia|].
    rewrite (Rg (nth i g [])) in Hj by (apply nth_In; lia). exact Hj.
Qed.

Local Open Scope Z_scope.

Lemma in_insert_month m x l : In x (insert_month m l) <-> x = m \/ In x l.
Proof.
  induction l as [|y l IH]; simpl.
  - intuition.
  - destruct (Z.eqb_spec m y) as [-> | Hne].
    + simpl. intuition.
    + destruct (m <? y); simpl; [intuition|]. rewrite IH. intuition.
Qed.

Lemma in_months_present f m :
  In m (months_present f) <-> exists t, In t (time f) /\ month t = m.
Proof.
  unfold months_present. induction (time f) as [|t l IH]; simpl.
  - split; [intros [] | intros (t & [] & _)].
  - rewrite in_insert_month, IH. split.
    + intros [-> | (u & Hu & Hm)]; [exists t; auto | exists u; auto].
    + intros (u & [<- | Hu] & Hm); [now left | right; now exists u].
Qed.

Lemma find_month {A : Type} (G : Z -> A) m l :
  find (fun c => fst c =? m) (map (fun k => (k, G k)) l)
  = if existsb (Z.eqb m) l then Some (m, G m) else None.
Proof.
  induction l as [|k l IH]; simpl; [reflexivity|].
  rewrite (Z.eqb_sym m k).
  destruct (Z.eqb_spec k m) as [-> | Hne]; simpl; [reflexivity | exact IH].
Qed.

Lemma grids_of_absent_month f m :
  existsb (Z.eqb m) (months_present f) = false -> grids_of_month f m = [].
Proof.
  intros H. unfold grids_of_month.
  destruct (filter _ (combine (time f) (data f))) as [|[t g] l] eqn:E;
    [reflexivity | exfalso].
  assert (Hin : In (t, g) (filter (fun tg => month (fst tg) =? m)
                             (combine (time f) (data f))))
    by (rewrite E; now left).
  apply filter_In in Hin. destruct Hin as [Hin Hm]. cbn [fst] in Hm.
  apply Z.eqb_eq in Hm. apply in_combine_l in Hin.
  assert (Hp : In m (months_present f)) by (apply in_months_present; eauto).
  assert (existsb (Z.eqb m) (months_present f) = true).
  { apply existsb_exists. exists m. split; [exact Hp | apply Z.eqb_refl]. }
  congruence.
Qed.

(** The climatology of a month at a grid point is the mean of the values
    the point takes in that month; NaN when the month has no time step. *)
Lemma climatology_at f m i j :
  (i < length (lat f))%nat -> (j < length (lon f))%nat ->
  grid_at (clim_of (monthly_mean f) (length (lat f)) (length (lon f)) m) i j
  = nanmean (point_values f m i j).
Proof.
  intros Hi Hj. unfold clim_of, monthly_mean, point_values.
  rewrite (find_month (fun k => mean_over_time (length (lat f)) (length (lon f))
                                  (grids_of_month f k))).
  destruct (existsb (Z.eqb m) (months_present f)) eqn:E.
  - cbn [snd]. now apply grid_at_mean.
  - rewrite grid_at_nan_grid, (grids_of_absent_month f m E). reflexivity.
Qed.

Lemma wf_clim_of f m :
  wf_grid (length (lat f)) (length (lon f))
    (clim_of (monthly_mean f) (length (lat f)) (length (lon f)) m).
Proof.
  unfold clim_of, monthly_mean.
  rewrite (find_month (fun k => mean_over_time (length (lat f)) (length (lon f))
                                  (grids_of_month f k))).
  destruct (existsb _ _); [apply wf_mean | apply wf_nan_grid].
Qed.

Local Close Scope Z_scope.

Lemma combine_fst_snd {A C : Type} (l : list (A * C)) :
  combine (map fst l) (map snd l) = l.
Proof. induction l as [|[a c] l IH]; simpl; [reflexivity | now rewrite IH]. Qed.

Lemma combine_map_combine {A C D : Type} (F : A * C -> D) (a : list A) (b : list C) :
  combine a (map F (combine a b))
  = map (fun p => (fst p, F p)) (combine a b).
Proof.
  revert b. induction a as [|x a IH]; intros [|y b]; simpl; try reflexivity.
  now rewrite IH.
Qed.

Lemma sel_time_pairs bp f :
  combine (time (sel_time bp f)) (data (sel_time bp f))
  = filter (fun p => in_period bp (fst p)) (combine (time f) (data f)).
Proof. unfold sel_time. cbn [time data]. apply combine_fst_snd. Qed.

Lemma wf_sel_time bp f : wf_field f -> wf_field (sel_time bp f).
Proof.
  intros [L W]. unfold wf_field, sel_time. cbn [time data lat lon]. split.
  - now rewrite !length_map.
  - rewrite Forall_forall in *. intros g Hg. apply in_map_iff in Hg.
    destruct Hg as ([t g'] & <- & Hin). apply filter_In in Hin.
    destruct Hin as [Hin _]. apply in_combine_r in Hin. now apply W.
Qed.

Lemma anomalies_pairs f bp :
  combine (time (anomalies f bp)) (data (anomalies f bp))
  = map (fun p =>
           (fst p,
            sub_grid (snd p)
              (clim_of (monthly_mean (sel_time bp f)) (length (lat f))
                 (length (lon f)) (month (fst p)))))
        (combine (time f) (data f)).
Proof.
  unfold anomalies, groupby_month_sub. cbn [time data].
  apply combine_map_combine.
Qed.

Lemma wf_anomalies f bp : wf_field f -> wf_field (anomalies f bp).
Proof.
  intros [L W]. unfold wf_field, anomalies, groupby_month_sub.
  cbn [time data lat lon]. split.
  - rewrite length_map, length_combine. lia.
  - rewrite Forall_forall in *. intros g Hg. apply in_map_iff in Hg.
    destruct Hg as ([t g'] & <- & Hin). cbn [fst snd].
    apply wf_sub; [apply W; now apply in_combine_r in Hin|].
    apply (wf_clim_of (sel_time bp f)).
Qed.

Lemma filter_map_fst {A C D : Type} (P : A -> bool) (S : A * C -> D)
    (l : list (A * C)) :
  filter (fun p => P (fst p)) (map (fun p => (fst p, S p)) l)
  = map (fun p => (fst p, S p)) (filter (fun p => P (fst p)) l).
Proof.
  induction l as [|p l IH]; simpl; [reflexivity|].
  destruct (P (fst p)); simpl; now rewrite IH.
Qed.

(** In the base period the time steps of a month of the anomalies are those
    of the field minus the climatology of the month. *)
Lemma grids_of_month_anomalies f bp m :
  grids_of_month (sel_time bp (anomalies f bp)) m
  = map (fun g => sub_grid g (clim_of (monthly_mean (sel_time bp f))
                                (length (lat f)) (length (lon f)) m))
        (grids_of_month (sel_time bp f) m).
Proof.
  unfold grids_of_month. rewrite !sel_time_pairs, anomalies_pairs.
  rewrite (filter_map_fst (in_period bp)).
  rewrite (filter_map_fst (fun t => (month t =? m)%Z)).
  rewrite !map_map. cbn [snd]. apply map_ext_in.
  intros [t g] Hin. apply filter_In in Hin. destruct Hin as [_ Hm].
  cbn [fst snd] in *. apply Z.eqb_eq in Hm. now rewrite Hm.
Qed.

Lemma in_grids_of_month f m g : In g (grids_of_month f m) -> In g (data f).
Proof.
  unfold grids_of_month. rewrite in_map_iff. intros ([t g'] & <- & Hin).
  apply filter_In in Hin. destruct Hin as [Hin _]. now apply in_combine_r in Hin.
Qed.

Lemma point_values_anomalies f bp m i j :
  wf_field f -> (i < length (lat f))%nat -> (j < length (lon f))%nat ->
  point_values (sel_time bp (anomalies f bp)) m i j
  = map (fun x => fsub x (nanmean (point_values (sel_time bp f) m i j)))
        (point_values (sel_time bp f) m i j).
Proof.
  intros W Hi Hj. unfold point_values at 1 3.
  rewrite grids_of_month_anomalies, !map_map. apply map_ext_in.
  intros g Hg. apply in_grids_of_month in Hg.
  destruct (wf_sel_time bp f W) as [_ Wd]. rewrite Forall_forall in Wd.
  rewrite (grid_at_sub (length (lat f)) (length (lon f))); try assumption.
  - f_equal. apply (climatology_at (sel_time bp f)); assumption.
  - now apply Wd.
  - apply (wf_clim_of (sel_time bp f)).
Qed.

Local Open Scope R_scope.

Lemma nanmean_of_numbers l a rs :
  filter notnan l = map Fin (a :: rs) ->
  nanmean l = Fin (fold_right Rplus 0 (a :: rs) / INR (length (a :: rs))).
Proof.
  intros E. unfold nanmean. rewrite E. cbn [map]. cbv iota beta.
  change (Fin a :: map Fin rs) with (map Fin (a :: rs)).
  rewrite fsum_fin, length_map. apply fdiv_fin. apply not_0_INR. discriminate.
Qed.

Lemma sum_shifted mu rs :
  fold_right Rplus 0 (map (fun r => r + - mu) rs)
  = fold_right Rplus 0 rs - INR (length rs) * mu.
Proof.
  induction rs as [|r rs IH]; [simpl; lra|].
  cbn [map fold_right]. rewrite IH.
  change (length (r :: rs)) with (S (length rs)). rewrite S_INR. lra.
Qed.

Lemma filter_notnan_shifted mu l :
  filter notnan (map (fun x => fsub x (Fin mu)) l)
  = map (fun x => fsub x (Fin mu)) (filter notnan l).
Proof.
  induction l as [|x l IH]; simpl; [reflexivity|].
  destruct x; simpl; now rewrite IH.
Qed.

(** Values minus their mean have mean zero. *)
Lemma nanmean_centred l r :
  Forall (fun x => isfinite x = true \/ x = NaN) l -> In (Fin r) l ->
  nanmean (map (fun x => fsub x (nanmean l)) l) = Fin 0.
Proof.
  intros H Hin. destruct (filter_notnan_numbers l H) as (rs & E & Hrs).
  destruct rs as [|a rs]; [destruct (Hrs r Hin)|].
  rewrite (nanmean_of_numbers l a rs E).
  set (mu := fold_right Rplus 0 (a :: rs) / INR (length (a :: rs))).
  assert (E' : filter notnan (map (fun x => fsub x (Fin mu)) l)
               = map Fin (a + - mu :: map (fun x => x + - mu) rs)).
  { rewrite filter_notnan_shifted, E. cbn [map fsub fopp fadd].
    f_equal. rewrite !map_map. apply map_ext. reflexivity. }
  rewrite (nanmean_of_numbers _ _ _ E'). f_equal.
  change (a + - mu :: map (fun x => x + - mu) rs)
    with (map (fun x => x + - mu) (a :: rs)).
  rewrite sum_shifted, length_map. unfold mu.
  assert (Hn : INR (length (a :: rs)) <> 0) by (apply not_0_INR; discriminate).
  field. exact Hn.
Qed.

(** X8. The anomalies have no mean seasonal cycle left over the base
    period: at a grid point where a calendar month holds numbers and gaps,
    with one number at least in the base period, the base-period mean of
    the anomalies of that month is exactly zero (in exact arithmetic). *)
Theorem anomalies_have_zero_mean_over_base_period f bp m i j r :
  wf_field f -> (i < length (lat f))%nat -> (j < length (lon f))%nat ->
  Forall (fun x => isfinite x = true \/ x = NaN)
         (point_values (sel_time bp f) m i j) ->
  In (Fin r) (point_values (sel_time bp f) m i j) ->
  nanmean (point_values (sel_time bp (anomalies f bp)) m i j) = Fin 0.
Proof.
  intros W Hi Hj H Hin.
  rewrite point_values_anomalies by assumption.
  now apply nanmean_centred with r.
Qed.

Lemma field_ext (f g : field) :
  time f = time g -> lat f = lat g -> lon f = lon g -> data f = data g -> f = g.
Proof. destruct f, g. cbn. intros -> -> -> ->. reflexivity. Qed.

Lemma grid_at_numbers nlat nlon g i j :
  wf_grid nlat nlon g -> (i < nlat)%nat -> (j < nlon)%nat ->
  Forall (Forall (fun x => isfinite x = true \/ x = NaN)) g ->
  isfinite (grid_at g i j) = true \/ grid_at g i j = NaN.
Proof.
  intros [L R] Hi Hj N. unfold grid_at.
  rewrite Forall_forall in R, N.
  assert (Hrow : In (nth i g []) g) by (apply nth_In; lia).
  specialize (N _ Hrow). specialize (R _ Hrow). rewrite Forall_forall in N.
  apply N. apply nth_In. lia.
Qed.

Lemma point_values_numbers f bp m i j :
  wf_field f -> numbers_or_gaps_field f ->
  (i < length (lat f))%nat -> (j < length (lon f))%nat ->
  Forall (fun x => isfinite x = true \/ x = NaN)
         (point_values (sel_time bp f) m i j).
Proof.
  intros [_ W] N Hi Hj. unfold numbers_or_gaps_field in N.
  rewrite Forall_forall in *. intros x Hx. unfold point_values in Hx.
  apply in_map_iff in Hx. destruct Hx as (g & <- & Hg).
  apply in_grids_of_month in Hg.
  assert (Hg' : In g (data f)).
  { unfold sel_time in Hg. cbn [data] in Hg. apply in_map_iff in Hg.
    destruct Hg as ([t g'] & <- & Hin). apply filter_In in Hin.
    destruct Hin as [Hin _]. now apply in_combine_r in Hin. }
  apply (grid_at_numbers (length (lat f)) (length (lon f))); auto.
Qed.

Lemma nanmean_of_gaps l :
  Forall (fun x => isfinite x = true \/ x = NaN) l ->
  (forall r, ~ In (Fin r) l) -> nanmean l = NaN.
Proof.
  intros H Hno. unfold nanmean.
  assert (E : filter notnan l = []).
  { induction l as [|x l IH]; [reflexivity|].
    inversion H as [|? ? Hx Hl]; subst.
    destruct Hx as [Hx | ->].
    - destruct x; try discriminate. destruct (Hno r). now left.
    - simpl. apply IH; [assumption|]. intros r Hr. apply (Hno r). now right. }
  now rewrite E.
Qed.

Lemma has_number_dec l :
  Forall (fun x => isfinite x = true \/ x = NaN) l ->
  (exists r, In (Fin r) l) \/ (forall r, ~ In (Fin r) l).
Proof.
  induction 1 as [|x l Hx Hl IH]; [right; intros r []|].
  destruct Hx as [Hx | ->].
  - destruct x; try discriminate. left. exists r. now left.
  - destruct IH as [(r & Hr) | Hno].
    + left. exists r. now right.
    + right. intros r [Hr | Hr]; [discriminate | now apply (Hno r)].
Qed.

(** X9. Taking anomalies twice is taking them once: on a field of numbers
    and gaps, the anomalies of the anomalies, over the same base period, are
    the anomalies (in exact arithmetic). *)
Theorem anomalies_of_anomalies_are_the_anomalies f bp :
  wf_field f -> numbers_or_gaps_field f ->
  anomalies (anomalies f bp) bp = anomalies f bp.
Proof.
  intros W N. apply field_ext; try reflexivity.
  pose proof (wf_anomalies f bp W) as WA. pose proof W as W'.
  change (data (anomalies (anomalies f bp) bp))
    with (map (fun tg =>
                 sub_grid (snd tg)
                   (clim_of (monthly_mean (sel_time bp (anomalies f bp)))
                      (length (lat f)) (length (lon f)) (month (fst tg))))
              (combine (time (anomalies f bp)) (data (anomalies f bp)))).
  rewrite anomalies_pairs, map_map. cbn [fst snd].
  change (data (anomalies f bp))
    with (map (fun tg =>
                 sub_grid (snd tg)
                   (clim_of (monthly_mean (sel_time bp f))
                      (length (lat f)) (length (lon f)) (month (fst tg))))
              (combine (time f) (data f))).
  apply map_ext_in. intros [t g] Hin. cbn [fst snd].
  destruct W as [L Wd]. rewrite Forall_forall in Wd.
  assert (Wg : wf_grid (length (lat f)) (length (lon f)) g)
    by (apply Wd; now apply in_combine_r in Hin).
  pose proof (wf_clim_of (sel_time bp f) (month t)) as Wc.
  pose proof (wf_clim_of (sel_time bp (anomalies f bp)) (month t)) as Wc'.
  cbn [lat lon sel_time anomalies groupby_month_sub] in Wc, Wc'.
  apply (grid_ext (length (lat f)) (length (lon f))).
  - apply wf_sub; [apply wf_sub|]; assumption.
  - apply wf_sub; assumption.
  - intros i j Hi Hj.
    rewrite (grid_at_sub (length (lat f)) (length (lon f)) (sub_grid g _))
      by (try assumption; apply wf_sub; assumption).
    rewrite (grid_at_sub (length (lat f)) (length (lon f)) g) by assumption.
    rewrite (climatology_at (sel_time bp f)) by assumption.
    rewrite (climatology_at (sel_time bp (anomalies f bp))) by assumption.
    assert (Hx : isfinite (grid_at g i j) = true \/ grid_at g i j = NaN).
    { apply (grid_at_numbers (length (lat f)) (length (lon f))); auto.
      unfold numbers_or_gaps_field in N. rewrite Forall_forall in N.
      apply N. now apply in_combine_r in Hin. }
    pose proof (point_values_numbers f bp (month t) i j W' N Hi Hj) as Hp.
    destruct (has_number_dec _ Hp) as [(r & Hr) | Hno].
    + rewrite point_values_anomalies by assumption.
      rewrite (nanmean_centred _ r Hp Hr).
      destruct (filter_notnan_numbers _ Hp) as (rs & E & Hrs).
      destruct rs as [|a rs]; [destruct (Hrs r Hr)|].
      rewrite (nanmean_of_numbers _ a rs E).
      destruct Hx as [Hx | ->]; [|reflexivity].
      destruct (grid_at g i j); try discriminate.
      cbn [fsub fopp fadd]. f_equal. lra.
    + rewrite (nanmean_of_gaps _ Hp Hno).
      destruct (grid_at g i j); reflexivity.
Qed.

Lemma anomalies_have_zero_mean_over_base_period_witness :
  nanmean (point_values
             (sel_time AnomalyDemo.base_period
                (anomalies AnomalyDemo.three_months AnomalyDemo.base_period))
             1 0 0) = Fin 0.
Proof.
  apply (anomalies_have_zero_mean_over_base_period
           AnomalyDemo.three_months AnomalyDemo.base_period 1 0 0 26).
  - split; [reflexivity | repeat constructor].
  - simpl. lia.
  - simpl. lia.
  - cbv -[IZR]. repeat constructor.
  - cbv -[IZR]. left. reflexivity.
Defined.

Lemma anomalies_of_anomalies_are_the_anomalies_witness :
  anomalies (anomalies AnomalyDemo.three_months AnomalyDemo.base_period)
            AnomalyDemo.base_period
  = anomalies AnomalyDemo.three_months AnomalyDemo.base_period.
Proof.
  apply anomalies_of_anomalies_are_the_anomalies.
  - split; [reflexivity | repeat constructor].
  - unfold numbers_or_gaps_field. cbn [data AnomalyDemo.three_months].
    repeat first [ apply Forall_nil | apply Forall_cons
                 | left; reflexivity | right; reflexivity ].
Defined.

End AnomalyFacts.

(** * The dataset ids of the catalogue *)

Module CatalogFacts.

Import Ascii String Catalog.

Local Open Scope string_scope.
Local Open Scope list_scope.

Lemma split_first sep s :
  exists p ps,
    split sep s = p :: ps /\ contains sep p = false
    /\ (s = p \/ exists tail, s = (p ++ String sep tail)%string).
Proof.
  induction s as [|c r (p & ps & E & Hp & Hs)].
  - exists "", []. repeat split; auto.
  - cbn [split]. destruct (Ascii.eqb c sep) eqn:Hc.
    + apply Ascii.eqb_eq in Hc. subst c.
      exists "", (split sep r). repeat split. right. now exists r.
    + rewrite E. exists (String c p), ps. repeat split.
      * cbn [contains]. now rewrite Hc, Hp.
      * destruct Hs as [-> | (tail & ->)]; [now left|].
        right. now exists tail.
Qed.

Lemma split_append sep p tail :
  contains sep p = false ->
  split sep (p ++ String sep tail)%string = p :: split sep tail.
Proof.
  induction p as [|c p IH]; cbn [contains append split]; intros H.
  - now rewrite Ascii.eqb_refl.
  - apply orb_false_iff in H. destruct H as [Hc Hp].
    now rewrite Hc, (IH Hp).
Qed.

(** X10. [keep_ds_id] returns the part of the first entry of a row that
    comes before its first bar: what it returns holds no bar, and the first
    entry is that, alone or followed by a bar and more.  The other entries
    of the row are not looked at, and only a row without entries makes it
    fail (IndexError). *)
Theorem keep_ds_id_keeps_what_comes_before_the_bar :
  keep_ds_id [] = None
  /\ forall s rest,
       exists r, keep_ds_id (s :: rest) = Some r
         /\ contains "|" r = false
         /\ (s = r \/ exists node, s = (r ++ "|" ++ node)%string).
Proof.
  split; [reflexivity|]. intros s rest. cbn [keep_ds_id].
  destruct (split_first "|" s) as (p & ps & E & Hp & Hs).
  exists p. rewrite E. repeat split; assumption.
Qed.

(** X11. A dataset id followed by a bar and the node that holds the data
    gives the dataset id back, whatever the node and the rest of the row,
    as long as the id itself has no bar. *)
Theorem keep_ds_id_drops_the_node id node rest :
  contains "|" id = false ->
  keep_ds_id ((id ++ "|" ++ node)%string :: rest) = Some id.
Proof.
  intros H. cbn [keep_ds_id].
  change (id ++ "|" ++ node)%string with (id ++ String "|" node)%string.
  now rewrite (split_append "|" id node H).
Qed.

Lemma keep_ds_id_drops_the_node_witness :
  keep_ds_id
    ["CMIP6.CMIP.NCAR.CESM2-FV2.historical.r1i1p1f1.Omon.tos.gn.v20191120|esgf-data.ucar.edu";
     "CMIP6.CMIP.NCAR.CESM2-FV2.historical.r1i1p1f1.Omon.tos.gn.v20191120|esgf.ceda.ac.uk"]
  = Some "CMIP6.CMIP.NCAR.CESM2-FV2.historical.r1i1p1f1.Omon.tos.gn.v20191120".
Proof.
  apply (keep_ds_id_drops_the_node
           "CMIP6.CMIP.NCAR.CESM2-FV2.historical.r1i1p1f1.Omon.tos.gn.v20191120"
           "esgf-data.ucar.edu").
  reflexivity.
Defined.

Lemma keep_ds_id_fails_on_empty ds : keep_ds_id ds = None <-> ds = [].
Proof.
  split; [|now intros ->]. destruct ds as [|s rest]; [reflexivity|].
  cbn [keep_ds_id]. destruct (split_first "|" s) as (p & ps & E & _).
  rewrite E. discriminate.
Qed.

Lemma keep_ds_id_no_bar ds c : keep_ds_id ds = Some c -> contains "|" c = false.
Proof.
  destruct ds as [|s rest]; [discriminate|]. cbn [keep_ds_id].
  destruct (split_first "|" s) as (p & ps & E & Hp & _).
  rewrite E. cbn. now intros [= <-].
Qed.

(** X12. [collections] has one id for every row of the catalogue, in the
    order of the rows and none with a bar in it; the one thing that makes
    it fail is a row without entries. *)
Theorem collections_has_an_id_for_every_row id :
  (collections id = None <-> In [] id)
  /\ (forall cs, collections id = Some cs ->
        List.length cs = List.length id
        /\ Forall (fun c => contains "|" c = false) cs
        /\ Forall2 (fun ds c => keep_ds_id ds = Some c) id cs).
Proof.
  unfold collections. induction id as [|ds id [IHn IHs]]; cbn [apply].
  - split; [split; [discriminate | intros []]|].
    intros cs [= <-]. repeat split; constructor.
  - destruct (keep_ds_id ds) as [c|] eqn:E.
    + destruct (apply keep_ds_id id) as [ys|].
      * split.
        -- split; [discriminate|]. intros [-> | H]; [discriminate|].
           now apply IHn in H.
        -- intros cs [= <-]. destruct (IHs ys eq_refl) as (L & F & F2).
           cbn [List.length]. repeat split;
             [now rewrite L | constructor | constructor]; auto.
           now apply keep_ds_id_no_bar with ds.
      * split; [|discriminate]. split; [|reflexivity].
        intros _. right. now apply IHn.
    + apply keep_ds_id_fails_on_empty in E. subst ds.
      split; [|discriminate]. split; [|reflexivity]. intros _. now left.
Qed.

End CatalogFacts.

(** * The requests to the subsetting service *)

Module RequestFacts.

Import Ascii String Rooki RequestProps.

Local Open Scope string_scope.
Local Open Scope list_scope.
Local Open Scope nat_scope.

Section WithServer.

Context {S : Server}.

Lemma getitem_setitem_same k v d : getitem k (setitem k v d) = Some v.
Proof.
  induction d as [|[k' v'] d IH]; cbn [setitem getitem].
  - now rewrite String.eqb_refl.
  - destruct (String.eqb k k') eqn:E; cbn [getitem]; now rewrite E.
Qed.

Lemma getitem_setitem_other k k' v d :
  k <> k' -> getitem k (setitem k' v d) = getitem k d.
Proof.
  intros H. induction d as [|[k2 v2] d IH]; cbn [setitem getitem].
  - destruct (String.eqb k k') eqn:E; [|reflexivity].
    apply String.eqb_eq in E. contradiction.
  - destruct (String.eqb k' k2) eqn:E; cbn [getitem].
    + apply String.eqb_eq in E. subst k2.
      destruct (String.eqb k k') eqn:E'; [|reflexivity].
      apply String.eqb_eq in E'. contradiction.
    + now rewrite IH.
Qed.

Lemma keys_setitem k k' v d :
  In k (map fst (setitem k' v d)) <-> k = k' \/ In k (map fst d).
Proof.
  induction d as [|[k2 v2] d IH]; cbn [setitem map fst In].
  - intuition congruence.
  - destruct (String.eqb k' k2) eqn:E; cbn [map fst In].
    + apply String.eqb_eq in E. subst k2. intuition congruence.
    + rewrite IH. intuition congruence.
Qed.

(** The dict after the steps [l]: pairs of a request number and a key. *)
Lemma fold_keys (val : nat -> string -> dataset) l : forall acc k,
  In k (map fst (fold_left (fun d p => setitem (snd p) (val (fst p) (snd p)) d) l acc))
  <-> In k (map snd l) \/ In k (map fst acc).
Proof.
  induction l as [|[m k'] l IH]; intros acc k; cbn [fold_left map snd fst In].
  - intuition.
  - rewrite IH, keys_setitem. intuition congruence.
Qed.

Lemma fold_getitem_absent (val : nat -> string -> dataset) l : forall acc k,
  ~ In k (map snd l) ->
  getitem k (fold_left (fun d p => setitem (snd p) (val (fst p) (snd p)) d) l acc)
  = getitem k acc.
Proof.
  induction l as [|[m k'] l IH]; intros acc k H; cbn [fold_left fst snd];
    [reflexivity|].
  cbn [map snd In] in H. rewrite IH by tauto.
  apply getitem_setitem_other. intros ->. tauto.
Qed.

Lemma fold_getitem_last (val : nat -> string -> dataset) before m k after acc :
  ~ In k (map snd after) ->
  getitem k (fold_left (fun d p => setitem (snd p) (val (fst p) (snd p)) d)
               (before ++ (m, k) :: after) acc)
  = Some (val m k).
Proof.
  intros H. rewrite fold_left_app. cbn [fold_left fst snd].
  rewrite fold_getitem_absent by assumption. apply getitem_setitem_same.
Qed.

(** A comprehension all of whose calls return. *)
Lemma comprehension_from_steps (f : string -> io dataset)
    (val : nat -> string -> dataset) (line : nat -> string -> list string) cs :
  forall n out acc,
    (forall i k, nth_error cs i = Some k -> forall out',
        f k (mksession out' (n + i))
        = (Returned (val (n + i) k),
           mksession (out' ++ line (n + i) k) (Datatypes.S (n + i)))) ->
    comprehension_from f cs acc (mksession out n)
    = (Returned
         (fold_left (fun d p => setitem (snd p) (val (fst p) (snd p)) d)
            (combine (seq n (List.length cs)) cs) acc),
       mksession
         (out ++ List.concat (map (fun p => line (fst p) (snd p))
                           (combine (seq n (List.length cs)) cs)))
         (n + List.length cs)).
Proof.
  induction cs as [|k cs IH]; intros n out acc H.
  - cbn. now rewrite app_nil_r, Nat.add_0_r.
  - cbn [comprehension_from]. unfold bind.
    pose proof (H 0%nat k eq_refl out) as H0. rewrite Nat.add_0_r in H0.
    rewrite H0.
    rewrite (IH (Datatypes.S n)).
    + cbn [List.length seq combine fold_left map List.concat fst snd].
      rewrite <- app_assoc. do 2 f_equal. lia.
    + intros i k' Hi out'. specialize (H (Datatypes.S i) k' Hi out').
      now replace (n + Datatypes.S i)%nat with (Datatypes.S n + i)%nat in H by lia.
Qed.

(** A comprehension one of whose calls raises. *)
Lemma comprehension_from_raises (f : string -> io dataset)
    (val : nat -> string -> dataset) (line : nat -> string -> list string)
    e before k after :
  forall n out acc,
    (forall i k', nth_error before i = Some k' -> forall out',
        f k' (mksession out' (n + i))
        = (Returned (val (n + i) k'),
           mksession (out' ++ line (n + i) k') (Datatypes.S (n + i)))) ->
    (forall out',
        f k (mksession out' (n + List.length before))
        = (Raised e, mksession out' (Datatypes.S (n + List.length before)))) ->
    comprehension_from f (before ++ k :: after) acc (mksession out n)
    = (Raised e,
       mksession
         (out ++ List.concat (map (fun p => line (fst p) (snd p))
                           (combine (seq n (List.length before)) before)))
         (Datatypes.S (n + List.length before))).
Proof.
  induction before as [|k0 before IH]; intros n out acc H He.
  - cbn [app comprehension_from]. unfold bind.
    specialize (He out). cbn [List.length] in He. rewrite Nat.add_0_r in He.
    rewrite He. cbn. now rewrite app_nil_r, Nat.add_0_r.
  - cbn [app comprehension_from]. unfold bind.
    pose proof (H 0%nat k0 eq_refl out) as H0. rewrite Nat.add_0_r in H0.
    rewrite H0.
    rewrite (IH (Datatypes.S n)).
    + cbn [List.length seq combine map List.concat fst snd].
      rewrite <- app_assoc. do 2 f_equal. lia.
    + intros i k' Hi out'. specialize (H (Datatypes.S i) k' Hi out').
      now replace (n + Datatypes.S i)%nat with (Datatypes.S n + i)%nat in H by lia.
    + intros out'. specialize (He out'). cbn [List.length] in He.
      now replace (n + Datatypes.S (List.length before))%nat
        with (Datatypes.S n + List.length before)%nat in He by lia.
Qed.

Lemma concat_singletons {A B : Type} (g : A -> B) (l : list A) :
  List.concat (map (fun p => [g p]) l) = map g l.
Proof. induction l; cbn; congruence. Qed.

Lemma combine_seq_app (n : nat) (a b : list string) :
  combine (seq n (List.length (a ++ b))) (a ++ b)
  = combine (seq n (List.length a)) a
    ++ combine (seq (n + List.length a) (List.length b)) b.
Proof.
  revert n. induction a as [|x a IH]; intros n; cbn [app List.length seq combine].
  - now rewrite Nat.add_0_r.
  - rewrite IH.
    now replace (n + Datatypes.S (List.length a)) with (Datatypes.S n + List.length a)
      by lia.
Qed.

Lemma in_combine_seq (n : nat) (l : list string) m k :
  In (m, k) (combine (seq n (List.length l)) l)
  <-> (n <= m)%nat /\ nth_error l (m - n) = Some k.
Proof.
  revert n. induction l as [|x l IH]; intros n; cbn [List.length seq combine In].
  - split; [intros [] | intros [_ H]]. now destruct (m - n)%nat.
  - rewrite IH. split.
    + intros [[= <- <-] | [Hle H]].
      * split; [lia|]. now rewrite Nat.sub_diag.
      * split; [lia|].
        now replace (m - n)%nat with (Datatypes.S (m - Datatypes.S n)) by lia.
    + intros [Hle H]. destruct (m - n)%nat as [|j] eqn:E.
      * left. cbn in H. injection H as <-. f_equal. lia.
      * right. split; [lia|]. cbn in H.
        now replace (m - Datatypes.S n)%nat with j by lia.
Qed.

Lemma map_snd_combine_seq (n : nat) (l : list string) :
  map snd (combine (seq n (List.length l)) l) = l.
Proof.
  revert n. induction l as [|x l IH]; intros n; cbn; [reflexivity|].
  now rewrite IH.
Qed.

Lemma combine_seq_shift (n : nat) (l : list string) :
  combine (seq n (List.length l)) l
  = map (fun p => (n + fst p, snd p)) (combine (seq 0 (List.length l)) l).
Proof.
  rewrite <- (Nat.add_0_r n) at 1. generalize 0 as m.
  induction l as [|x l IH]; intros m; cbn [List.length seq combine map fst snd];
    [reflexivity|].
  f_equal. now rewrite <- IH, Nat.add_succ_r.
Qed.

Lemma lines_of_steps wf_of out n (cs : list string) :
  List.concat
    (map (fun p => [size_line (orchestrate (fst p) (wf_of (snd p)))])
       (combine (seq n (List.length cs)) cs))
  = lines_of wf_of (mksession out n) cs.
Proof.
  rewrite (concat_singletons
             (fun p => size_line (orchestrate (fst p) (wf_of (snd p))))).
  rewrite combine_seq_shift, map_map. reflexivity.
Qed.

Lemma tos_granted k out m :
  granted (orchestrate m (Tos.workflow_of k)) ->
  Tos.get_pacific_ocean k (mksession out m)
  = (Returned (hd Dataset (datasets (orchestrate m (Tos.workflow_of k)))),
     mksession (out ++ [size_line (orchestrate m (Tos.workflow_of k))])
       (Datatypes.S m)).
Proof.
  intros [Hok Hd]. unfold Tos.get_pacific_ocean, bind, send, print.
  cbn [requests stdout]. rewrite Hok.
  destruct (datasets (orchestrate m (Tos.workflow_of k))); [contradiction|].
  reflexivity.
Qed.

Lemma tos_refused k out m :
  ok (orchestrate m (Tos.workflow_of k)) = false ->
  Tos.get_pacific_ocean k (mksession out m)
  = (Raised (ValueError (orchestrate m (Tos.workflow_of k))),
     mksession out (Datatypes.S m)).
Proof.
  intros Hok. unfold Tos.get_pacific_ocean, bind, send.
  cbn [requests stdout]. now rewrite Hok.
Qed.

Lemma thetao_step k out m :
  (ok (orchestrate m (Thetao.workflow_of k)) = true ->
   datasets (orchestrate m (Thetao.workflow_of k)) <> []) ->
  Thetao.get_pacific_ocean k (mksession out m)
  = (Returned
       (if ok (orchestrate m (Thetao.workflow_of k))
        then hd Dataset (datasets (orchestrate m (Thetao.workflow_of k)))
        else Dataset),
     mksession
       (out ++ (if ok (orchestrate m (Thetao.workflow_of k))
                then [size_line (orchestrate m (Thetao.workflow_of k))]
                else []))
       (Datatypes.S m)).
Proof.
  intros Hd. unfold Thetao.get_pacific_ocean, bind, send, print.
  cbn [requests stdout].
  destruct (ok (orchestrate m (Thetao.workflow_of k))).
  - destruct (datasets (orchestrate m (Thetao.workflow_of k)));
      [now destruct Hd | reflexivity].
  - unfold ret. now rewrite app_nil_r.
Qed.

Lemma split_steps (n : nat) (before : list string) k after :
  combine (seq n (List.length (before ++ k :: after))) (before ++ k :: after)
  = combine (seq n (List.length before)) before
    ++ (n + List.length before, k)
       :: combine (seq (Datatypes.S (n + List.length before)) (List.length after))
            after.
Proof. rewrite combine_seq_app. reflexivity. Qed.

Lemma nth_error_middle (before : list string) k after :
  nth_error (before ++ k :: after) (List.length before) = Some k.
Proof. induction before; cbn; auto. Qed.

Lemma nth_error_before (before : list string) rest i k :
  nth_error before i = Some k -> nth_error (before ++ rest) i = Some k.
Proof.
  revert i. induction before as [|x l IH]; intros [|i]; cbn; try discriminate;
    auto.
Qed.

(** X13. When the service grants every request for the sea surface
    temperature, the comprehension returns a dict whose keys are the
    dataset ids asked for; each id is bound to the first dataset of the
    answer to its last request; one request was sent and one line printed
    for each id of the list, repeated ids included. *)
Theorem granted_requests_give_every_dataset cs s :
  (forall i k, nth_error cs i = Some k -> granted (answer Tos.workflow_of s i k)) ->
  exists d,
    Tos.sst_data cs s
    = (Returned d,
       mksession (stdout s ++ lines_of Tos.workflow_of s cs)
         (requests s + List.length cs))
    /\ (forall k, In k (map fst d) <-> In k cs)
    /\ (forall before k after,
          cs = before ++ k :: after -> ~ In k after ->
          getitem k d
          = hd_error (datasets (answer Tos.workflow_of s (List.length before) k))).
Proof.
  destruct s as [out n]. unfold answer. cbn [requests stdout]. intros H.
  pose (val := fun m k =>
                 hd Dataset (datasets (orchestrate m (Tos.workflow_of k)))).
  exists (fold_left (fun d p => setitem (snd p) (val (fst p) (snd p)) d)
            (combine (seq n (List.length cs)) cs) []).
  split; [|split].
  - unfold Tos.sst_data, comprehension.
    rewrite (comprehension_from_steps Tos.get_pacific_ocean val
               (fun m k => [size_line (orchestrate m (Tos.workflow_of k))])).
    + rewrite (lines_of_steps Tos.workflow_of out n cs). reflexivity.
    + intros i k Hi out'. apply tos_granted. now apply H.
  - intros k. rewrite (fold_keys val), map_snd_combine_seq. cbn. tauto.
  - intros before k after -> Hlast.
    rewrite split_steps, (fold_getitem_last val)
      by now rewrite map_snd_combine_seq.
    unfold val.
    destruct (H (List.length before) k (nth_error_middle before k after))
      as [_ Hd].
    destruct (datasets (orchestrate (n + List.length before) (Tos.workflow_of k)));
      [contradiction | reflexivity].
Qed.

(** X14. One refused request loses every dataset: when the service
    refuses the request for one id, after granting those before it, the
    comprehension raises ValueError with the refusal; no dict is returned,
    although the datasets before were received, and the ids after it are
    never requested. *)
Theorem refused_request_loses_every_dataset before k after s :
  (forall i k', nth_error before i = Some k' ->
                granted (answer Tos.workflow_of s i k')) ->
  ok (answer Tos.workflow_of s (List.length before) k) = false ->
  Tos.sst_data (before ++ k :: after) s
  = (Raised (ValueError (answer Tos.workflow_of s (List.length before) k)),
     mksession (stdout s ++ lines_of Tos.workflow_of s before)
       (Datatypes.S (requests s + List.length before))).
Proof.
  destruct s as [out n]. unfold answer. cbn [requests stdout]. intros H Hk.
  unfold Tos.sst_data, comprehension.
  rewrite (comprehension_from_raises Tos.get_pacific_ocean
             (fun m k => hd Dataset (datasets (orchestrate m (Tos.workflow_of k))))
             (fun m k => [size_line (orchestrate m (Tos.workflow_of k))])
             (ValueError (orchestrate (n + List.length before) (Tos.workflow_of k)))).
  - now rewrite (lines_of_steps Tos.workflow_of out n before).
  - intros i k' Hi out'. apply tos_granted. now apply H.
  - intros out'. now apply tos_refused.
Qed.

(** X15. In the request for the upper ocean a refusal costs nothing but
    its own dataset: as long as every granted request comes with a
    dataset, the comprehension returns a dict with every id asked for as a
    key, bound to the first dataset of its last answer if that was granted
    and to an empty dataset if it was refused; every id was requested. *)
Theorem refused_requests_leave_empty_datasets cs s :
  (forall i k, nth_error cs i = Some k ->
               ok (answer Thetao.workflow_of s i k) = true ->
               datasets (answer Thetao.workflow_of s i k) <> []) ->
  exists d out,
    Thetao.thetao_data cs s
    = (Returned d, mksession out (requests s + List.length cs))
    /\ (forall k, In k (map fst d) <-> In k cs)
    /\ (forall before k after,
          cs = before ++ k :: after -> ~ In k after ->
          getitem k d
          = if ok (answer Thetao.workflow_of s (List.length before) k)
            then hd_error (datasets (answer Thetao.workflow_of s
                                       (List.length before) k))
            else Some Dataset).
Proof.
  destruct s as [out n]. unfold answer. cbn [requests stdout]. intros H.
  pose (val := fun m k =>
                 if ok (orchestrate m (Thetao.workflow_of k))
                 then hd Dataset (datasets (orchestrate m (Thetao.workflow_of k)))
                 else Dataset).
  exists (fold_left (fun d p => setitem (snd p) (val (fst p) (snd p)) d)
            (combine (seq n (List.length cs)) cs) []).
  eexists. split; [|split].
  - unfold Thetao.thetao_data, comprehension.
    rewrite (comprehension_from_steps Thetao.get_pacific_ocean val
               (fun m k =>
                  if ok (orchestrate m (Thetao.workflow_of k))
                  then [size_line (orchestrate m (Thetao.workflow_of k))]
                  else [])).
    + reflexivity.
    + intros i k Hi out'. apply thetao_step. now apply H.
  - intros k. rewrite (fold_keys val), map_snd_combine_seq. cbn. tauto.
  - intros before k after -> Hlast.
    rewrite split_steps, (fold_getitem_last val)
      by now rewrite map_snd_combine_seq.
    unfold val.
    pose proof (H (List.length before) k (nth_error_middle before k after)) as Hd.
    destruct (ok (orchestrate (n + List.length before) (Thetao.workflow_of k)));
      [|reflexivity].
    destruct (datasets (orchestrate (n + List.length before) (Thetao.workflow_of k)));
      [now destruct Hd | reflexivity].
Qed.

End WithServer.

Lemma granted_requests_give_every_dataset_witness :
  exists d,
    Tos.sst_data (S := RequestDemo.refusing "bad") ["a"; "b"] (mksession [] 0)
    = (Returned d, mksession ["resp.size_in_mb=1.5"; "resp.size_in_mb=1.5"] 2)
    /\ getitem "b" d = Some ["b"].
Proof.
  destruct (granted_requests_give_every_dataset
              (S := RequestDemo.refusing "bad") ["a"; "b"] (mksession [] 0))
    as (d & E & _ & Hd).
  - intros [|[|[|i]]] k Hk; cbn in Hk; try discriminate;
      injection Hk as <-; split; [reflexivity | discriminate | reflexivity | discriminate].
  - exists d. split; [exact E|].
    apply (Hd ["a"] "b" []); [reflexivity | intros []].
Defined.

Lemma refused_request_loses_every_dataset_witness :
  Tos.sst_data (S := RequestDemo.refusing "bad") ["a"; "bad"; "c"] (mksession [] 0)
  = (Raised (@ValueError (RequestDemo.refusing "bad") (false, ["bad"])),
     mksession ["resp.size_in_mb=1.5"] 2).
Proof.
  apply (refused_request_loses_every_dataset
           (S := RequestDemo.refusing "bad") ["a"] "bad" ["c"] (mksession [] 0)).
  - intros [|[|i]] k Hk; cbn in Hk; try discriminate.
    injection Hk as <-. split; [reflexivity | discriminate].
  - reflexivity.
Defined.

Lemma refused_requests_leave_empty_datasets_witness :
  exists d out,
    Thetao.thetao_data (S := RequestDemo.refusing "bad") ["a"; "bad"] (mksession [] 0)
    = (Returned d, mksession out 2)
    /\ getitem "a" d = Some ["a"] /\ getitem "bad" d = Some [].
Proof.
  destruct (refused_requests_leave_empty_datasets
              (S := RequestDemo.refusing "bad") ["a"; "bad"] (mksession [] 0))
    as (d & out & E & _ & Hd).
  - intros i k _ _. discriminate.
  - exists d, out. split; [exact E|]. split.
    + apply (Hd [] "a" ["bad"]); [reflexivity|].
      intros [H | []]. discriminate.
    + apply (Hd ["a"] "bad" []); [reflexivity | intros []].
Defined.

End RequestFacts.

(** * Time steps outside the base period *)

Module Extension.

Import Float Calendar Series Grid Result Xeofs Kernels Numpy Takahashi.
Import Props MoreProps Demo.
Import FloatFacts GridFacts SeriesFacts DemoFacts IndexFacts DemoRun.

Local Open Scope R_scope.

Lemma combine_app_same {A C : Type} (a a' : list A) (b b' : list C) :
  length a = length b ->
  combine (a ++ a') (b ++ b') = combine a b ++ combine a' b'.
Proof.
  revert b. induction a as [|x a IH]; intros [|y b] H; simpl in *;
    try discriminate; [reflexivity|].
  f_equal. apply IH. now injection H.
Qed.

Lemma combine_of_pairs {A C : Type} (l : list (A * C)) :
  combine (map fst l) (map snd l) = l.
Proof. induction l as [|[a c] l IH]; simpl; [reflexivity | now rewrite IH]. Qed.

Lemma filter_none {A : Type} (P : A -> bool) (l : list A) :
  (forall x, In x l -> P x = false) -> filter P l = [].
Proof.
  induction l as [|x l IH]; intros H; simpl; [reflexivity|].
  rewrite (H x) by now left. apply IH. intros y Hy. apply H. now right.
Qed.

Lemma sel_box_extend a b c d f steps :
  sel_box a b c d (extend f steps)
  = extend (sel_box a b c d f)
      (map (fun p => (fst p, sel_grid (in_slice a b) (in_slice c d)
                               (lat f) (lon f) (snd p))) steps).
Proof.
  unfold sel_box, extend. cbn [time lat lon data].
  now rewrite map_app, !map_map.
Qed.

Lemma pairs_extend f steps :
  length (data f) = length (time f) ->
  combine (time (extend f steps)) (data (extend f steps))
  = combine (time f) (data f) ++ steps.
Proof.
  intros L. unfold extend. cbn [time data].
  now rewrite combine_app_same, combine_of_pairs by auto.
Qed.

Lemma sel_time_extend bp f steps :
  length (data f) = length (time f) ->
  (forall p, In p steps -> in_period bp (fst p) = false) ->
  sel_time bp (extend f steps) = sel_time bp f.
Proof.
  intros L H. unfold sel_time. rewrite pairs_extend by assumption.
  rewrite filter_app, (filter_none _ steps H), app_nil_r. reflexivity.
Qed.

Lemma principal_components_extend m f steps k :
  length (data f) = length (time f) ->
  principal_components m (extend f steps) k
  = principal_components m f k
    ++ scale (correction_factor m k)
         (scale (scale_factor m k)
            (map (fun tx => (fst tx, inner (prepare m (snd tx))
                                       (pvalues (components m k)))) steps)).
Proof.
  intros L. unfold principal_components, transform.
  rewrite pairs_extend by assumption. unfold scale. now rewrite !map_app.
Qed.

Lemma rotate_app op a a' b b' :
  length a = length b ->
  rotate op (a ++ a') (b ++ b') = rotate op a b ++ rotate op a' b'.
Proof.
  intros L. unfold rotate. now rewrite combine_app_same, map_app.
Qed.

Lemma djf_means_skips_march a1 a2 a3 b :
  djf_means [(first_of 1980 12, a1); (first_of 1981 1, a2); (first_of 1981 2, a3);
             (first_of 1982 3, b)]
  = djf_means [(first_of 1980 12, a1); (first_of 1981 1, a2); (first_of 1981 2, a3)].
Proof.
  cbv -[nanmean notnan]. now destruct (notnan (nanmean [a1; a2; a3])).
Qed.

Lemma longer_winter_run :
  exists out',
    compute_index (B := demo_backend) (extend (winter 1) LaterDemo.march_1982)
      winter_period = Ok out'.
Proof.
  unfold compute_index.
  change (sel_box _ _ _ _ (extend (winter 1) LaterDemo.march_1982))
    with (extend (winter 1) LaterDemo.march_1982).
  change (sel_time winter_period (extend (winter 1) LaterDemo.march_1982))
    with (winter 1).
  unfold demo_backend.
  cbn [eof_fit fixed_backend winter time length Nat.ltb Nat.leb bind].
  unfold index_of_model.
  rewrite !principal_components_extend by reflexivity.
  rewrite two_point_pc1, two_point_pc2.
  unfold LaterDemo.march_1982, scale. cbn [map fst snd].
  generalize (fmul (fmul (inner (prepare two_point_model [[Fin 5; Fin 0]])
                            (pvalues (components two_point_model mode1)))
                      (scale_factor two_point_model mode1))
                (correction_factor two_point_model mode1)).
  generalize (fmul (fmul (inner (prepare two_point_model [[Fin 5; Fin 0]])
                            (pvalues (components two_point_model mode2)))
                      (scale_factor two_point_model mode2))
                (correction_factor two_point_model mode2)).
  intros b2 b1. unfold steady. cbn [app].
  rewrite !djf_means_skips_march.
  fold (steady (Fin (1 * 1 * 1))). fold (steady (Fin (1 * 1 * -1))).
  rewrite !djf_means_steady.
  unfold compute_alpha. cbn -[Zceil Rdiv].
  eexists. reflexivity.
Qed.

(** X17. Months outside the base period, added at the end of the field,
    leave the indices of the months before as they were: whenever
    [compute_index] returns on the field and on the longer field, the E and
    the C index of the longer field start with those of the field, and have
    one more value per added time step. *)
Theorem later_months_leave_the_indices_as_they_were (B : Backend)
    f steps bp out out' :
  length (data f) = length (time f) ->
  (forall p, In p steps -> in_period bp (fst p) = false) ->
  compute_index f bp = Ok out ->
  compute_index (extend f steps) bp = Ok out' ->
  exists e c,
    E_index out' = E_index out ++ e /\ C_index out' = C_index out ++ c
    /\ times e = map fst steps /\ times c = map fst steps.
Proof.
  intros L Hout H H'.
  apply compute_index_inv in H. apply compute_index_inv in H'.
  cbv zeta in H, H'. destruct H as (m & Hm & H). destruct H' as (m' & Hm' & H').
  rewrite sel_box_extend in Hm', H'.
  assert (Lb : length (data (sel_box (-20 # 1) (20 # 1) (100 # 1) (280 # 1) f))
               = length (time (sel_box (-20 # 1) (20 # 1) (100 # 1) (280 # 1) f)))
    by (cbn [sel_box data time]; now rewrite length_map).
  rewrite sel_time_extend in Hm'; [|assumption|].
  2:{ intros p Hp. apply in_map_iff in Hp. destruct Hp as (q & <- & Hq).
      cbn [fst]. now apply Hout. }
  rewrite Hm in Hm'. injection Hm' as <-.
  apply index_of_model_inv in H. apply index_of_model_inv in H'.
  cbv zeta in H, H'.
  destruct H as (_ & He & Hc & _). destruct H' as (_ & He' & Hc' & _).
  rewrite He, Hc, He', Hc'.
  rewrite !principal_components_extend by assumption.
  rewrite !rotate_app by now rewrite !length_principal_components.
  do 2 eexists. split; [reflexivity|]. split; [reflexivity|].
  split; (rewrite times_rotate, !times_scale;
          [|unfold scale; now rewrite !length_map]);
    unfold times; now rewrite !map_map.
Qed.

Lemma later_months_leave_the_indices_as_they_were_witness :
  exists out out' e c,
    compute_index (B := demo_backend) (winter 1) winter_period = Ok out
    /\ compute_index (B := demo_backend) (extend (winter 1) LaterDemo.march_1982)
         winter_period = Ok out'
    /\ E_index out' = E_index out ++ e /\ C_index out' = C_index out ++ c
    /\ times e = [first_of 1982 3] /\ times c = [first_of 1982 3].
Proof.
  destruct (demo_run 1) as (out & H & _).
  destruct longer_winter_run as (out' & H').
  destruct (later_months_leave_the_indices_as_they_were demo_backend
              (winter 1) LaterDemo.march_1982 winter_period out out')
    as (e & c & He & Hc & Te & Tc).
  - reflexivity.
  - intros p [<- | []]. reflexivity.
  - exact H.
  - exact H'.
  - exists out, out', e, c. repeat split; assumption.
Defined.

End Extension.

(** * Anomalies of a box *)

Module AnomalyBox.

Import Float Calendar Series Grid Result Xeofs Kernels Numpy Takahashi Props.
Import Anomaly GridFacts BoxFacts AnomalyFacts.

Lemma map_nth_seq {A : Type} (d : A) (xs : list A) :
  map (fun i => nth i xs d) (seq 0 (length xs)) = xs.
Proof.
  apply (nth_ext _ _ d d); [now rewrite length_map, length_seq|].
  intros n Hn. rewrite length_map, length_seq in Hn.
  rewrite (nth_map_lt _ _ n 0%nat) by now rewrite length_seq.
  now rewrite seq_nth.
Qed.

Lemma length_sel_axis {A : Type} keep coords (xs : list A) :
  length xs = length coords ->
  length (sel_axis keep coords xs) = length (filter keep coords).
Proof.
  unfold sel_axis. rewrite length_map. revert xs.
  induction coords as [|c coords IH]; intros [|x xs] H; simpl in *;
    try discriminate; [reflexivity|].
  destruct (keep c); simpl; rewrite IH; auto.
Qed.

Lemma length_kept_indices keep coords :
  length (kept_indices keep coords) = length (filter keep coords).
Proof. unfold kept_indices. apply length_sel_axis. apply length_seq. Qed.

Lemma kept_index_in_range keep coords i :
  (i < length (filter keep coords))%nat ->
  (nth i (kept_indices keep coords) 0 < length coords)%nat.
Proof.
  intros H. rewrite <- length_kept_indices in H.
  pose proof (nth_In _ 0%nat H) as Hin. unfold kept_indices in Hin at 2.
  apply ZeroField.sel_axis_incl in Hin. apply in_seq in Hin. lia.
Qed.

Lemma nth_sel_axis {A : Type} (d : A) keep coords (xs : list A) i :
  length xs = length coords -> (i < length (filter keep coords))%nat ->
  nth i (sel_axis keep coords xs) d
  = nth (nth i (kept_indices keep coords) 0%nat) xs d.
Proof.
  intros L H. rewrite <- (map_nth_seq d xs) at 1.
  rewrite sel_axis_map, L. fold (kept_indices keep coords).
  apply (nth_map_lt (fun k => nth k xs d) (kept_indices keep coords) i 0%nat d).
  now rewrite length_kept_indices.
Qed.

Lemma wf_sel_grid kl ko lats lons g :
  wf_grid (length lats) (length lons) g ->
  wf_grid (length (filter kl lats)) (length (filter ko lons))
    (sel_grid kl ko lats lons g).
Proof.
  intros [L R]. unfold sel_grid. split.
  - rewrite length_map. now apply length_sel_axis.
  - rewrite Forall_forall in *. intros row H. apply in_map_iff in H.
    destruct H as (r & <- & Hr). apply ZeroField.sel_axis_incl in Hr.
    apply length_sel_axis. now apply R.
Qed.

Lemma grid_at_sel_grid kl ko lats lons g i j :
  wf_grid (length lats) (length lons) g ->
  (i < length (filter kl lats))%nat -> (j < length (filter ko lons))%nat ->
  grid_at (sel_grid kl ko lats lons g) i j
  = grid_at g (nth i (kept_indices kl lats) 0%nat)
              (nth j (kept_indices ko lons) 0%nat).
Proof.
  intros [L R] Hi Hj. unfold grid_at, sel_grid.
  rewrite (nth_map_lt _ _ i [])
    by (rewrite length_sel_axis; assumption).
  rewrite (nth_sel_axis [] kl lats g i L Hi).
  apply nth_sel_axis; [|assumption].
  rewrite Forall_forall in R. apply R. apply nth_In.
  rewrite L. now apply kept_index_in_range.
Qed.

Lemma wf_sel_box a b c d f : wf_field f -> wf_field (sel_box a b c d f).
Proof.
  intros [L W]. unfold wf_field, sel_box. cbn [time lat lon data]. split.
  - now rewrite length_map.
  - rewrite Forall_forall in *. intros g Hg. apply in_map_iff in Hg.
    destruct Hg as (g' & <- & Hg'). apply wf_sel_grid. now apply W.
Qed.

Lemma combine_map_r {A C D : Type} (F : C -> D) (a : list A) (b : list C) :
  combine a (map F b) = map (fun p => (fst p, F (snd p))) (combine a b).
Proof.
  revert b. induction a as [|x a IH]; intros [|y b]; simpl; try reflexivity.
  now rewrite IH.
Qed.

Lemma sel_box_pairs a b c d f :
  combine (time (sel_box a b c d f)) (data (sel_box a b c d f))
  = map (fun p => (fst p, sel_grid (in_slice a b) (in_slice c d)
                            (lat f) (lon f) (snd p)))
        (combine (time f) (data f)).
Proof. unfold sel_box. cbn [time data]. apply combine_map_r. Qed.

Lemma sel_time_sel_box bp a b c d f :
  sel_time bp (sel_box a b c d f) = sel_box a b c d (sel_time bp f).
Proof.
  apply field_ext; try reflexivity.
  - unfold sel_time at 1. cbn [time]. rewrite sel_box_pairs.
    rewrite (filter_map_fst (in_period bp)), map_map. reflexivity.
  - unfold sel_time at 1. cbn [data]. rewrite sel_box_pairs.
    rewrite (filter_map_fst (in_period bp)), map_map.
    unfold sel_box, sel_time. cbn [data lat lon]. now rewrite map_map.
Qed.

Lemma grids_of_month_sel_box a b c d f m :
  grids_of_month (sel_box a b c d f) m
  = map (sel_grid (in_slice a b) (in_slice c d) (lat f) (lon f))
        (grids_of_month f m).
Proof.
  unfold grids_of_month. rewrite sel_box_pairs.
  rewrite (filter_map_fst (fun t => (month t =? m)%Z)), !map_map. reflexivity.
Qed.

Lemma point_values_sel_box a b c d f m i j :
  wf_field f ->
  (i < length (filter (in_slice a b) (lat f)))%nat ->
  (j < length (filter (in_slice c d) (lon f)))%nat ->
  point_values (sel_box a b c d f) m i j
  = point_values f m (nth i (kept_indices (in_slice a b) (lat f)) 0%nat)
                     (nth j (kept_indices (in_slice c d) (lon f)) 0%nat).
Proof.
  intros [_ W] Hi Hj. unfold point_values.
  rewrite grids_of_month_sel_box, map_map. apply map_ext_in.
  intros g Hg. apply in_grids_of_month in Hg. rewrite Forall_forall in W.
  apply grid_at_sel_grid; auto.
Qed.

(** Cutting to a box and taking anomalies can be done in either order. *)
Lemma sel_box_anomalies a b c d f bp :
  wf_field f ->
  sel_box a b c d (anomalies f bp) = anomalies (sel_box a b c d f) bp.
Proof.
  intros W. apply field_ext; try reflexivity.
  change (data (sel_box a b c d (anomalies f bp)))
    with (map (sel_grid (in_slice a b) (in_slice c d) (lat f) (lon f))
              (data (anomalies f bp))).
  change (data (anomalies f bp))
    with (map (fun tg =>
                 sub_grid (snd tg)
                   (clim_of (monthly_mean (sel_time bp f))
                      (length (lat f)) (length (lon f)) (month (fst tg))))
              (combine (time f) (data f))).
  change (data (anomalies (sel_box a b c d f) bp))
    with (map (fun tg =>
                 sub_grid (snd tg)
                   (clim_of (monthly_mean (sel_time bp (sel_box a b c d f)))
                      (length (filter (in_slice a b) (lat f)))
                      (length (filter (in_slice c d) (lon f)))
                      (month (fst tg))))
              (combine (time (sel_box a b c d f)) (data (sel_box a b c d f)))).
  rewrite sel_box_pairs, !map_map. cbn [fst snd].
  apply map_ext_in. intros [t g] Hin. cbn [fst snd].
  pose proof W as W'. destruct W' as [L Wd]. rewrite Forall_forall in Wd.
  assert (Wg : wf_grid (length (lat f)) (length (lon f)) g)
    by (apply Wd; now apply in_combine_r in Hin).
  pose proof (wf_clim_of (sel_time bp f) (month t)) as Wc.
  pose proof (wf_clim_of (sel_time bp (sel_box a b c d f)) (month t)) as Wc'.
  cbn [lat lon sel_time sel_box] in Wc, Wc'.
  apply (grid_ext (length (filter (in_slice a b) (lat f)))
                  (length (filter (in_slice c d) (lon f)))).
  - apply wf_sel_grid. now apply wf_sub.
  - apply wf_sub; [now apply wf_sel_grid | assumption].
  - intros i j Hi Hj.
    rewrite grid_at_sel_grid by (try assumption; now apply wf_sub).
    rewrite (grid_at_sub (length (lat f)) (length (lon f)))
      by (try assumption; now apply kept_index_in_range).
    rewrite (grid_at_sub (length (filter (in_slice a b) (lat f)))
                         (length (filter (in_slice c d) (lon f))))
      by (try assumption; now apply wf_sel_grid).
    rewrite grid_at_sel_grid by assumption.
    f_equal.
    rewrite (climatology_at (sel_time bp f))
      by (cbn [lat lon sel_time]; now apply kept_index_in_range).
    rewrite (climatology_at (sel_time bp (sel_box a b c d f))) by assumption.
    rewrite sel_time_sel_box.
    symmetry. f_equal.
    apply (point_values_sel_box a b c d (sel_time bp f)); try assumption.
    now apply wf_sel_time.
Qed.

(** X18. The box can be cut out before the anomalies are taken: the
    anomalies of the sea surface temperature of the box are the anomalies
    over the box, and [compute_index] gives the same outcome on the
    anomalies of the whole field and on the anomalies of the field cut to
    20S-20N, 100E-280E. *)
Theorem anomalies_can_be_taken_on_the_box (B : Backend) sst clim_period bp :
  wf_field sst ->
  anomalies (sel_box (-20 # 1) (20 # 1) (100 # 1) (280 # 1) sst) clim_period
  = sel_box (-20 # 1) (20 # 1) (100 # 1) (280 # 1) (anomalies sst clim_period)
  /\ compute_index
       (anomalies (sel_box (-20 # 1) (20 # 1) (100 # 1) (280 # 1) sst) clim_period)
       bp
     = compute_index (anomalies sst clim_period) bp.
Proof.
  intros W. rewrite <- sel_box_anomalies by assumption.
  split; [reflexivity|].
  unfold compute_index. now rewrite sel_box_idem.
Qed.

Lemma anomalies_can_be_taken_on_the_box_witness :
  compute_index (B := Demo.demo_backend)
    (anomalies (sel_box (-20 # 1) (20 # 1) (100 # 1) (280 # 1)
                  AnomalyDemo.three_months) AnomalyDemo.base_period)
    AnomalyDemo.base_period
  = compute_index (B := Demo.demo_backend)
      (anomalies AnomalyDemo.three_months AnomalyDemo.base_period)
      AnomalyDemo.base_period.
Proof.
  apply (anomalies_can_be_taken_on_the_box Demo.demo_backend
           AnomalyDemo.three_months).
  split; [reflexivity | repeat constructor].
Defined.

End AnomalyBox.

(** * The regression patterns *)

Module RegressionFacts.

Import Float Calendar Series Grid Anomaly Regression FloatFacts.

Local Open Scope R_scope.

Lemma valid_values_of_numbers (f : R -> R) xs :
  map (fun p => notnan (fst p) && notnan (snd p))
      (combine (map Fin xs) (map (fun x => Fin (f x)) xs))
  = map (fun _ => true) xs.
Proof. induction xs as [|x xs IH]; simpl; [reflexivity | now rewrite IH]. Qed.

Lemma where_all_valid {A : Type} (g : A -> float64) (xs : list A) :
  where_valid (map (fun _ => true) xs) (map g xs) = map g xs.
Proof.
  unfold where_valid. induction xs as [|x xs IH]; simpl; [reflexivity|].
  now rewrite IH.
Qed.

Lemma count_all_valid {A : Type} (xs : list A) :
  length (filter (fun v : bool => v) (map (fun _ => true) xs)) = length xs.
Proof. induction xs as [|x xs IH]; simpl; [reflexivity | now rewrite IH]. Qed.

Lemma filter_notnan_fin xs : filter notnan (map Fin xs) = map Fin xs.
Proof. induction xs as [|x xs IH]; simpl; [reflexivity | now rewrite IH]. Qed.

Lemma nanmean_of_reals xs :
  xs <> [] -> nanmean (map Fin xs) = Fin (mean_of xs).
Proof.
  destruct xs as [|x xs]; [congruence | intros _].
  rewrite nanmean_fin. reflexivity.
Qed.

Lemma nansum_of_reals xs :
  xs <> [] -> nansum (map Fin xs) = Fin (fold_right Rplus 0 xs).
Proof.
  destruct xs as [|x xs]; [congruence | intros _].
  unfold nansum. rewrite filter_notnan_fin.
  cbn [map]. change (Fin x :: map Fin xs) with (map Fin (x :: xs)).
  apply fsum_fin.
Qed.

Lemma products_of_reals (u v : R -> R) xs :
  map (fun p => fmul (fst p) (snd p))
      (combine (map (fun x => Fin (u x)) xs) (map (fun x => Fin (v x)) xs))
  = map Fin (map (fun x => u x * v x) xs).
Proof. induction xs as [|x xs IH]; simpl; [reflexivity | now rewrite IH]. Qed.

Lemma sum_linear a b xs :
  fold_right Rplus 0 (map (fun x => a * x + b) xs)
  = a * fold_right Rplus 0 xs + INR (length xs) * b.
Proof.
  induction xs as [|x xs IH]; [simpl; lra|].
  cbn [map fold_right]. rewrite IH.
  change (length (x :: xs)) with (S (length xs)). rewrite S_INR. lra.
Qed.

Lemma sum_scaled a (u : R -> R) xs :
  fold_right Rplus 0 (map (fun x => a * u x) xs)
  = a * fold_right Rplus 0 (map u xs).
Proof. induction xs as [|x xs IH]; simpl; [lra | rewrite IH; lra]. Qed.

Lemma mean_linear a b xs :
  xs <> [] -> mean_of (map (fun x => a * x + b) xs) = a * mean_of xs + b.
Proof.
  intros H. unfold mean_of. rewrite sum_linear, length_map.
  assert (Hn : INR (length xs) <> 0).
  { apply not_0_INR. destruct xs; [congruence | discriminate]. }
  field. exact Hn.
Qed.

(** The covariance of numbers with a linear function of them. *)
Lemma cov_linear a b xs :
  (2 <= length xs)%nat ->
  cov (map Fin xs) (map (fun x => Fin (a * x + b)) xs)
  = Fin (a * (INR (length xs) * variance_of xs) / (INR (length xs) - 1)).
Proof.
  intros Hn.
  assert (Hne : xs <> []) by (destruct xs; [simpl in Hn; lia | discriminate]).
  assert (Hn0 : INR (length xs) <> 0)
    by (apply not_0_INR; destruct xs; [congruence | discriminate]).
  assert (Hn1 : INR (length xs) - 1 <> 0).
  { apply le_INR in Hn. simpl in Hn. lra. }
  unfold cov. rewrite (valid_values_of_numbers (fun x => a * x + b)).
  rewrite (where_all_valid Fin), (where_all_valid (fun x => Fin (a * x + b))).
  rewrite count_all_valid.
  rewrite (nanmean_of_reals xs Hne).
  rewrite <- (map_map (fun x => a * x + b) Fin).
  rewrite nanmean_of_reals by (destruct xs; [congruence | discriminate]).
  rewrite (mean_linear a b xs Hne). rewrite !map_map.
  cbn [fsub fopp fadd].
  rewrite (products_of_reals (fun x => x + - mean_of xs)
             (fun x => a * x + b + - (a * mean_of xs + b))).
  rewrite nansum_of_reals by (destruct xs; [congruence | discriminate]).
  rewrite fdiv_fin by exact Hn1. f_equal. f_equal.
  unfold variance_of.
  replace (INR (length xs)
           * (fold_right Rplus 0
                (map (fun x => (x - mean_of xs) * (x - mean_of xs)) xs)
              / INR (length xs)))
    with (fold_right Rplus 0
            (map (fun x => (x - mean_of xs) * (x - mean_of xs)) xs))
    by (field; exact Hn0).
  rewrite <- sum_scaled. f_equal. apply map_ext. intros x. lra.
Qed.

Lemma std_of_reals xs :
  xs <> [] -> std (map Fin xs) = Fin (sqrt (variance_of xs)).
Proof.
  intros Hne.
  assert (Hn0 : INR (length xs) <> 0)
    by (apply not_0_INR; destruct xs; [congruence | discriminate]).
  unfold std. rewrite filter_notnan_fin.
  destruct (map Fin xs) as [|y ys] eqn:E;
    [destruct xs; [congruence | discriminate]|].
  rewrite <- E. clear E y ys.
  rewrite fsum_fin, length_map, fdiv_fin by exact Hn0.
  rewrite map_map. cbn [fsub fopp fadd fmul].
  rewrite <- (map_map (fun x => (x + - (fold_right Rplus 0 xs / INR (length xs)))
                                  * (x + - (fold_right Rplus 0 xs / INR (length xs))))
                Fin).
  rewrite fsum_fin, fdiv_fin by exact Hn0.
  assert (Hv : fold_right Rplus 0
                 (map (fun x => (x + - (fold_right Rplus 0 xs / INR (length xs)))
                                * (x + - (fold_right Rplus 0 xs / INR (length xs))))
                    xs) / INR (length xs)
               = variance_of xs).
  { reflexivity. }
  rewrite Hv. apply fsqrt_fin.
  unfold variance_of. apply Rmult_le_pos.
  - clear. induction xs as [|x xs IH]; simpl; [lra|].
    pose proof (Rle_0_sqr (x - mean_of (x :: xs))) as H. unfold Rsqr in H.
    assert (Hs : forall m, 0 <= fold_right Rplus 0
                              (map (fun y => (y - m) * (y - m)) xs)).
    { clear. intros m. induction xs as [|y ys IH]; simpl; [lra|].
      pose proof (Rle_0_sqr (y - m)) as H. unfold Rsqr in H. lra. }
    specialize (Hs (mean_of (x :: xs))). lra.
  - apply Rlt_le, Rinv_0_lt_compat.
    destruct xs; [congruence|]. apply lt_0_INR. simpl. lia.
Qed.

(** X19. What the regression map holds: at a grid point where the
    anomalies of the base period are a linear function of the index, slope
    [a], [reg] is not the slope; it is the slope times the standard
    deviation of the index times n / (n - 1), n the number of time steps of
    the base period (the covariance is divided by n - 1 and the variance
    under the square root by n). *)
Theorem reg_is_slope_times_deviation index sst_anom base_period i j a b xs :
  values (sel_where (in_period base_period) index) = map Fin xs ->
  point_series (sel_time base_period sst_anom) i j
  = map (fun x => Fin (a * x + b)) xs ->
  (2 <= length xs)%nat -> 0 < variance_of xs ->
  reg index sst_anom base_period i j
  = Fin (a * sqrt (variance_of xs) * (INR (length xs) / (INR (length xs) - 1))).
Proof.
  intros Hx Hy Hn Hv. unfold reg. cbv zeta. rewrite Hx, Hy.
  assert (Hne : xs <> []) by (destruct xs; [simpl in Hn; lia | discriminate]).
  assert (Hn1 : INR (length xs) - 1 <> 0).
  { apply le_INR in Hn. simpl in Hn. lra. }
  rewrite (cov_linear a b xs Hn), (std_of_reals xs Hne).
  pose proof (sqrt_lt_R0 _ Hv) as Hs.
  rewrite fdiv_fin by lra. f_equal.
  rewrite <- (sqrt_sqrt (variance_of xs)) at 1 by lra.
  field. split; lra.
Qed.

Lemma reg_is_slope_times_deviation_witness :
  reg RegressionDemo.index RegressionDemo.response AnomalyDemo.base_period 0 0
  = Fin (2 * sqrt (variance_of [3; 2; 4]) * (INR 3 / (INR 3 - 1))).
Proof.
  apply (reg_is_slope_times_deviation RegressionDemo.index RegressionDemo.response
           AnomalyDemo.base_period 0 0 2 20 [3; 2; 4]).
  - reflexivity.
  - reflexivity.
  - simpl. lia.
  - unfold variance_of, mean_of. simpl. lra.
Defined.

End RegressionFacts.
